(** * A deferred PBR renderer for WebGL: shallow embedding and properties

  The development follows [GLDeferredRenderer.js] class by class (one
  module per JavaScript class, functions named after the methods they
  embed), then [loadOBJ], then the scene that [main.js] builds.

  Modelling conventions.
  - JavaScript numbers.  Where a statement depends on what the arithmetic
    of doubles does at [NaN], at the infinities, at the signed zeros or on
    overflow (the clamps and the bounds of the orbit controller), numbers are
    IEEE 754 binary64 values, the primitive floats of the kernel, with
    [Math.min] and [Math.max] as ECMAScript defines them (modules [Double]
    and [OrbitController64]).  Elsewhere numbers are exact rationals ([Q]):
    the statements there are about the expressions the code computes, and
    use [==] on [Q] for equality of computed numbers; [Math.min], [Math.max]
    are then [Qmin], [Qmax], and [a > b] is decided by [Qlt_le_dec].
  - JavaScript arrays are lists; an object used as a dictionary whose
    iteration order matters ([for ... in]) is an association list in
    insertion order.
  - Calls into the glMatrix library build symbolic matrices and
    quaternions: the renderer only forwards them to the GPU.
  - Calls into WebGL are recorded as a list of commands; the part of the
    GPU state the renderer relies on is given by an interpreter of those
    commands.  Handles that WebGL allocates are given to the constructors.
  - A TypeError (a property read from [undefined]) ends the function that
    raises it: functions that can raise one say whether they ran to their
    end, or return an [option].
  - [loadOBJ] is written over an abstract carrier of numbers, since its
    shape does not depend on arithmetic. *)

From Stdlib Require Import QArith Qminmax Lqa Lia Ascii String.
From Stdlib Require PrimFloat FloatOps FloatAxioms SpecFloat FloatClass.
From stdpp Require Import base option list strings gmap.

Set Warnings "-inexact-float".

(** ** Numbers as exact rationals *)

Module Num.

Local Open Scope Q_scope.

(** [const clamp = (val, min, max) => Math.min(Math.max(val, min), max);] *)
Definition clamp (val min max : Q) : Q := Qmin (Qmax val min) max.

(** [a > b] as a boolean. *)
Definition gt (a b : Q) : bool := if Qlt_le_dec b a then true else false.

End Num.

(** ** Numbers as doubles

    A JavaScript number is an IEEE 754 binary64 value.  [Math.max] and
    [Math.min] return [NaN] when an argument is [NaN] and take [+0] to be
    larger than [-0]; the comparisons [<?], [<=?] and [=?] are those of
    doubles (false on [NaN], equal on the two zeros). *)

Module Double.

Import FloatClass PrimFloat.
Local Open Scope float_scope.

(** [Object.is(x, +0)] and [Object.is(x, -0)] *)
Definition is_pos_zero (x : float) : bool :=
  match classify x with PZero => true | _ => false end.

Definition is_neg_zero (x : float) : bool :=
  match classify x with NZero => true | _ => false end.

(** [Math.max(a, b)] *)
Definition Math_max (a b : float) : float :=
  if is_nan a || is_nan b then nan
  else if is_neg_zero a && is_pos_zero b then b
  else if a <? b then b else a.

(** [Math.min(a, b)] *)
Definition Math_min (a b : float) : float :=
  if is_nan a || is_nan b then nan
  else if is_pos_zero a && is_neg_zero b then b
  else if b <? a then b else a.

(** [const clamp = (val, min, max) => Math.min(Math.max(val, min), max);] *)
Definition clamp (val min max : float) : float := Math_min (Math_max val min) max.

(** [a <= b], and [lo <= x && x <= hi]: both fail when a number is [NaN]. *)
Definition le (a b : float) : Prop := (a <=? b) = true.

Definition between (lo x hi : float) : Prop := le lo x /\ le x hi.

(** [Number.isFinite(x) && x !== 0] *)
Definition is_finite_nonzero (x : float) : bool := is_finite x && negb (is_zero x).

(** On the values that specify doubles: a zero or a finite number, and a
    value other than a zero. *)
Definition SFfinite (x : SpecFloat.spec_float) : bool :=
  match x with
  | SpecFloat.S754_zero _ | SpecFloat.S754_finite _ _ _ => true
  | _ => false
  end.

Definition SFnonzero (x : SpecFloat.spec_float) : bool :=
  match x with
  | SpecFloat.S754_zero _ => false
  | _ => true
  end.

End Double.

(** ** glMatrix values *)

Module GLMatrix.

(** [vec3]: three numbers, updated by index. *)
Record vec3 := Vec3 { v0 : Q; v1 : Q; v2 : Q }.

(** [vec3.create()] *)
Definition vec3_create : vec3 := Vec3 0 0 0.

(** [vec3.fromValues(x, y, z)] and [vec3.set(out, x, y, z)] *)
Definition vec3_fromValues (x y z : Q) : vec3 := Vec3 x y z.
Definition vec3_set (out : vec3) (x y z : Q) : vec3 := Vec3 x y z.

(** Quaternions are only ever built by [quat.create] and the three axis
    rotations; they are kept as the sequence of calls that produced them. *)
Inductive quat :=
| quat_create
| quat_rotateX (q : quat) (rad : Q)
| quat_rotateY (q : quat) (rad : Q)
| quat_rotateZ (q : quat) (rad : Q).

(** Matrices, as the glMatrix call (or the array literal of
    [OrbitController.getViewMatrix]) that produced them.  A camera position
    is either a literal vector or the translation column of a matrix. *)
Inductive mat4 :=
| mat4_create
| mat4_fromRotationTranslationScale (q : quat) (v s : vec3)
| mat4_multiply (a b : mat4)
| mat4_lookAt (eye : point) (center up : vec3)
| mat4_invert (m : mat4)
| mat4_ortho (left right bottom top near far : Q)
| mat4_perspective (fovy aspect near far : Q)
| mat4_orbit (pitch yaw : Q) (center : list Q) (boomLength : Q)
with point :=
| point_vec (v : vec3)
| point_translation (m : mat4).

End GLMatrix.

(** ** OrbitController, in exact arithmetic

    The fields and the expressions the methods compute, over exact
    rationals.  [setPitchMax], [setRotations] and the bounds of the pitch
    and of the boom length are in [OrbitController64], on doubles. *)

Module OrbitController.

Import GLMatrix.
Local Open Scope Q_scope.

Record t := mk {
  pitch : Q;
  pitchRot : Q;
  pitchSpd : Q;
  pitchMax : Q;
  yaw : Q;
  yawRot : Q;
  yawSpd : Q;
  boomLength : Q;
  rotationCenter : list Q;
  mouseHeld : bool;
  touchStarted : bool
}.

(** [constructor(canvas, boomLength)] *)
Definition new (boomLength : Q) : t :=
  {| pitch := 0; pitchRot := 0; pitchSpd := 0.2; pitchMax := 89;
     yaw := 0; yawRot := 0; yawSpd := 0.2;
     boomLength := boomLength;
     rotationCenter := [0; 0; 0];
     mouseHeld := false; touchStarted := false |}.

(** [setSpeed(pitchSpeed, yawSpeed)] *)
Definition setSpeed (pitchSpeed yawSpeed : Q) (o : t) : t :=
  mk (pitch o) (pitchRot o) pitchSpeed (pitchMax o) (yaw o) (yawRot o) yawSpeed
     (boomLength o) (rotationCenter o) (mouseHeld o) (touchStarted o).

(** [setRotationCenter(x, y, z)] *)
Definition setRotationCenter (x y z : Q) (o : t) : t :=
  mk (pitch o) (pitchRot o) (pitchSpd o) (pitchMax o) (yaw o) (yawRot o) (yawSpd o)
     (boomLength o) [x; y; z] (mouseHeld o) (touchStarted o).

(** [setBoomLength(boomLength)] *)
Definition setBoomLength (b : Q) (o : t) : t :=
  mk (pitch o) (pitchRot o) (pitchSpd o) (pitchMax o) (yaw o) (yawRot o) (yawSpd o)
     b (rotationCenter o) (mouseHeld o) (touchStarted o).

(** [getViewMatrix()]: the sixteen entries are trigonometric expressions in
    pitch and yaw, translated by the rotation centre and the boom length. *)
Definition getViewMatrix (o : t) : mat4 :=
  mat4_orbit (pitch o) (yaw o) (rotationCenter o) (boomLength o).

(** [handleZoom(event)], with [deltaY] standing for [event.deltaY]. *)
Definition handleZoom (deltaY : Q) (o : t) : t :=
  setBoomLength (Qmin (Qmax 80 (boomLength o + deltaY * 0.2)) 500) o.

(** [handleRotate(vx, vy)] *)
Definition handleRotate (vx vy : Q) (o : t) : t :=
  mk (Num.clamp (pitch o + pitchSpd o * (vy - yawRot o)) (- pitchMax o) (pitchMax o))
     vx
     (pitchSpd o) (pitchMax o)
     (yaw o + yawSpd o * (vx - pitchRot o))
     vy
     (yawSpd o)
     (boomLength o) (rotationCenter o) (mouseHeld o) (touchStarted o).

(** Input driven into the controller: a sequence of rotate and zoom calls. *)
Inductive call :=
| Rotate (vx vy : Q)
| Zoom (deltaY : Q).

Definition step (o : t) (c : call) : t :=
  match c with
  | Rotate vx vy => handleRotate vx vy o
  | Zoom deltaY => handleZoom deltaY o
  end.

Definition drive (cs : list call) (o : t) : t := fold_left step cs o.

End OrbitController.

(** ** OrbitController, on doubles

    The numeric fields and the methods that compute them, with the
    arithmetic of doubles. *)

Module OrbitController64.

Import PrimFloat Double.
Local Open Scope float_scope.

Record t := mk {
  pitch : float;
  pitchRot : float;
  pitchSpd : float;
  pitchMax : float;
  yaw : float;
  yawRot : float;
  yawSpd : float;
  boomLength : float;
  rotationCenter : list float;
  mouseHeld : bool;
  touchStarted : bool
}.

(** [constructor(canvas, boomLength)] *)
Definition new (boomLength : float) : t :=
  {| pitch := 0; pitchRot := 0; pitchSpd := 0.2; pitchMax := 89;
     yaw := 0; yawRot := 0; yawSpd := 0.2;
     boomLength := boomLength;
     rotationCenter := [0; 0; 0];
     mouseHeld := false; touchStarted := false |}.

(** [setPitchMax(limitInDegrees)] *)
Definition setPitchMax (limitInDegrees : float) (o : t) : t :=
  mk (pitch o) (pitchRot o) (pitchSpd o) (Math_min 89 (Math_max 0 limitInDegrees))
     (yaw o) (yawRot o) (yawSpd o)
     (boomLength o) (rotationCenter o) (mouseHeld o) (touchStarted o).

(** [setSpeed(pitchSpeed, yawSpeed)] *)
Definition setSpeed (pitchSpeed yawSpeed : float) (o : t) : t :=
  mk (pitch o) (pitchRot o) pitchSpeed (pitchMax o) (yaw o) (yawRot o) yawSpeed
     (boomLength o) (rotationCenter o) (mouseHeld o) (touchStarted o).

(** [setRotations(pitch, yaw)]: the bounds of the clamp are read from
    [this.pitch] before it is assigned. *)
Definition setRotations (pitch' yaw' : float) (o : t) : t :=
  mk (clamp pitch' (- pitch o) (pitch o)) (pitchRot o) (pitchSpd o) (pitchMax o)
     yaw' (yawRot o) (yawSpd o)
     (boomLength o) (rotationCenter o) (mouseHeld o) (touchStarted o).

(** [setBoomLength(boomLength)] *)
Definition setBoomLength (b : float) (o : t) : t :=
  mk (pitch o) (pitchRot o) (pitchSpd o) (pitchMax o) (yaw o) (yawRot o) (yawSpd o)
     b (rotationCenter o) (mouseHeld o) (touchStarted o).

(** [handleZoom(event)], with [deltaY] standing for [event.deltaY]. *)
Definition handleZoom (deltaY : float) (o : t) : t :=
  setBoomLength (Math_min (Math_max 80 (boomLength o + deltaY * 0.2)) 500) o.

(** [handleRotate(vx, vy)] *)
Definition handleRotate (vx vy : float) (o : t) : t :=
  mk (clamp (pitch o + pitchSpd o * (vy - yawRot o)) (- pitchMax o) (pitchMax o))
     vx
     (pitchSpd o) (pitchMax o)
     (yaw o + yawSpd o * (vx - pitchRot o))
     vy
     (yawSpd o)
     (boomLength o) (rotationCenter o) (mouseHeld o) (touchStarted o).

(** Input driven into the controller: a sequence of rotate and zoom calls. *)
Inductive call :=
| Rotate (vx vy : float)
| Zoom (deltaY : float).

Definition step (o : t) (c : call) : t :=
  match c with
  | Rotate vx vy => handleRotate vx vy o
  | Zoom deltaY => handleZoom deltaY o
  end.

Definition drive (cs : list call) (o : t) : t := fold_left step cs o.

(** The configured bounds of the camera. *)
Definition pitch_in_bounds (o : t) : Prop :=
  between (- pitchMax o) (pitch o) (pitchMax o).

Definition boom_in_bounds (o : t) : Prop :=
  between 80 (boomLength o) 500.

(** Calls whose arguments the browser can produce from pointer and wheel
    events: a finite vertical coordinate, a wheel delta that is a number. *)
Definition numeric (c : call) : bool :=
  match c with
  | Rotate vx vy => is_finite vy
  | Zoom deltaY => negb (is_nan deltaY)
  end.

End OrbitController64.

(** ** The browser window *)

Module Window.

(** [window.innerWidth], [window.innerHeight] *)
Record t := mk { innerWidth : Q; innerHeight : Q }.

End Window.

(** ** The per-frame attribute bag

    [Renderer.attributes]: three settings, and the four entries every camera
    [update] overwrites ([init_Cameras] runs one before the first frame). *)

Module Attributes.

Import GLMatrix.

Record t := mk {
  drawGbuffer : bool;
  lightAmbience : Q;
  lightIntensity : Q;
  projectionMatrix : mat4;
  viewMatrix : mat4;
  cameraMatrix : mat4;
  cameraPosition : point
}.

(** The four assignments that end [Camera.update]. *)
Definition publish (projection view camera : mat4) (position : point) (a : t) : t :=
  mk (drawGbuffer a) (lightAmbience a) (lightIntensity a)
     projection view camera position.

(** [att['cameraPosition'] = p] *)
Definition set_cameraPosition (p : point) (a : t) : t :=
  mk (drawGbuffer a) (lightAmbience a) (lightIntensity a)
     (projectionMatrix a) (viewMatrix a) (cameraMatrix a) p.

End Attributes.

(** ** PerspectiveCamera (with the fields of Camera) *)

Module PerspectiveCamera.

Import GLMatrix.
Local Open Scope Q_scope.

Record t := mk {
  position : point;
  lookAt : vec3;
  viewMatrix : mat4;
  cameraMatrix : mat4;
  projectionMatrix : mat4;
  aspect : Q;
  fov : Q;
  zNear : Q;
  zFar : Q;
  orbit : option OrbitController.t
}.

(** [setPerspective(fov, zNear, zFar)]; the field of view is kept in degrees,
    [mat4_perspective] standing for [mat4.perspective(_, fov * M_RAD, ...)]. *)
Definition setPerspective (fov' zNear' zFar' : Q) (c : t) : t :=
  mk (position c) (lookAt c) (viewMatrix c) (cameraMatrix c)
     (mat4_perspective fov' (aspect c) zNear' zFar')
     (aspect c) fov' zNear' zFar' (orbit c).

(** [constructor(fov, zNear, zFar)] *)
Definition new (w : Window.t) (fov' zNear' zFar' : Q) : t :=
  setPerspective fov' zNear' zFar'
    (mk (point_vec vec3_create) vec3_create mat4_create mat4_create mat4_create
        (Window.innerWidth w / Window.innerHeight w) 0 0 0 None).

(** [setPosition(x, y, z)] *)
Definition setPosition (x y z : Q) (c : t) : t :=
  mk (point_vec (Vec3 x y z)) (lookAt c) (viewMatrix c) (cameraMatrix c)
     (projectionMatrix c) (aspect c) (fov c) (zNear c) (zFar c) (orbit c).

(** [addOrbitController(canvas, boomLength)] *)
Definition addOrbitController (boomLength : Q) (c : t) : t :=
  mk (position c) (lookAt c) (viewMatrix c) (cameraMatrix c)
     (projectionMatrix c) (aspect c) (fov c) (zNear c) (zFar c)
     (Some (OrbitController.new boomLength)).

(** [onWindowResize()] *)
Definition onWindowResize (w : Window.t) (c : t) : t :=
  let aspect' := Window.innerWidth w / Window.innerHeight w in
  mk (position c) (lookAt c) (viewMatrix c) (cameraMatrix c)
     (mat4_perspective (fov c) aspect' (zNear c) (zFar c))
     aspect' (fov c) (zNear c) (zFar c) (orbit c).

(** [update(attributes)]: [Camera.update], or the function that
    [addOrbitController] installs in its place. *)
Definition update (a : Attributes.t) (c : t) : t * Attributes.t :=
  match orbit c with
  | None =>
      let view := mat4_lookAt (position c) (lookAt c) (vec3_fromValues 0 1 0) in
      let cam := mat4_invert view in
      (mk (position c) (lookAt c) view cam (projectionMatrix c)
          (aspect c) (fov c) (zNear c) (zFar c) (orbit c),
       Attributes.publish (projectionMatrix c) view cam (position c) a)
  | Some o =>
      let view := OrbitController.getViewMatrix o in
      let cam := mat4_invert view in
      let pos := point_translation cam in
      (mk pos (lookAt c) view cam (projectionMatrix c)
          (aspect c) (fov c) (zNear c) (zFar c) (orbit c),
       Attributes.publish (projectionMatrix c) view cam pos a)
  end.

End PerspectiveCamera.

(** ** OrthographicCamera (with the fields of Camera) *)

Module OrthographicCamera.

Import GLMatrix.
Local Open Scope Q_scope.

Record t := mk {
  position : vec3;
  lookAt : vec3;
  viewMatrix : mat4;
  cameraMatrix : mat4;
  projectionMatrix : mat4;
  width : Q;
  height : Q;
  left : Q;
  right : Q;
  bottom : Q;
  top : Q
}.

(** [setOrthographic(width, height)]: the parameters [width] and [height] are
    stored, then one of them is overwritten from the other and the window's
    proportions before both are halved. *)
Definition setOrthographic (w : Window.t) (width' height' : Q) (c : t) : t :=
  let winW := Window.innerWidth w in
  let winH := Window.innerHeight w in
  let '(width2, height2) :=
    if Num.gt winW winH
    then (width', width' * (winH / winW))
    else (height' * (winW / winH), height') in
  let width3 := width2 * 0.5 in
  let height3 := height2 * 0.5 in
  mk (position c) (lookAt c) (viewMatrix c) (cameraMatrix c) (projectionMatrix c)
     width' height' (- width3) width3 (- height3) height3.

(** [constructor(width, height)] *)
Definition new (w : Window.t) (width' height' : Q) : t :=
  setOrthographic w width' height'
    (mk (Vec3 0 0 100) vec3_create mat4_create mat4_create mat4_create
        0 0 0 0 0 0).

(** [setPosition(x, y, z)]: the depth is fixed, and the camera looks straight
    down its axis. *)
Definition setPosition (x y z : Q) (c : t) : t :=
  mk (Vec3 x y 100) (Vec3 x y 0) (viewMatrix c) (cameraMatrix c) (projectionMatrix c)
     (width c) (height c) (left c) (right c) (bottom c) (top c).

(** [onWindowResize()] *)
Definition onWindowResize (w : Window.t) (c : t) : t :=
  setOrthographic w (Window.innerWidth w) (Window.innerHeight w) c.

(** [update(attributes)]: the projection, then [super.update]. *)
Definition update (a : Attributes.t) (c : t) : t * Attributes.t :=
  let pos := position c in
  let proj := mat4_ortho (v0 pos + left c) (v0 pos + right c)
                         (v1 pos + bottom c) (v1 pos + top c) 0.1 16000 in
  let view := mat4_lookAt (point_vec pos) (lookAt c) (vec3_fromValues 0 1 0) in
  let cam := mat4_invert view in
  (mk pos (lookAt c) view cam proj
      (width c) (height c) (left c) (right c) (bottom c) (top c),
   Attributes.publish proj view cam (point_vec pos) a).

(** A camera at (0, 0, 100) looking at the origin whose frustum is the
    rectangle of the window about its axis: what the constructor builds as
    the post camera, and what its [onWindowResize] restores. *)
Definition fits (w : Window.t) (c : t) : Prop :=
  position c = Vec3 0 0 100 /\ lookAt c = Vec3 0 0 0
  /\ left c == - (Window.innerWidth w / 2) /\ right c == Window.innerWidth w / 2
  /\ bottom c == - (Window.innerHeight w / 2) /\ top c == Window.innerHeight w / 2.

(** The extent of the frustum along each screen axis. *)
Definition frustum_width (c : t) : Q := right c - left c.
Definition frustum_height (c : t) : Q := top c - bottom c.


End OrthographicCamera.

(** ** Objects used as dictionaries

    String-keyed properties in insertion order, which is the order in which
    [for (k in o)] visits them (the keys used here are names, never array
    indices).  Assigning to a key that exists keeps its place. *)

Module Dict.

Definition t (V : Type) : Type := list (string * V).

Fixpoint get {V : Type} (k : string) (d : t V) : option V :=
  match d with
  | [] => None
  | (k', v) :: rest => if decide (k = k') then Some v else get k rest
  end.

Fixpoint set {V : Type} (k : string) (v : V) (d : t V) : t V :=
  match d with
  | [] => [(k, v)]
  | (k', v') :: rest =>
      if decide (k = k') then (k', v) :: rest else (k', v') :: set k v rest
  end.

Definition keys {V : Type} (d : t V) : list string := map fst d.

End Dict.

(** ** WebGL calls *)

Module GL.

Import GLMatrix.

Inductive buffer_target := ARRAY_BUFFER | ELEMENT_ARRAY_BUFFER.

Inductive capability := DEPTH_TEST | CULL_FACE.

(** A uniform location, as returned by [GL.getUniformLocation(program, name)]. *)
Record uniform_location := UniformLocation { ul_program : nat; ul_name : string }.

(** The argument of [uniform3fv]: a camera position or a flat array. *)
Inductive floats :=
| floats_point (p : point)
| floats_array (a : list Q).

(** The calls the renderer makes, with the arguments it varies.  Object
    handles (textures, buffers, programs, framebuffers, renderbuffers) are
    numbers; [None] is [null] (or, for a location, [undefined]). *)
Inductive command :=
| viewport (x y w h : Q)
| bindFramebuffer (fbo : option nat)
| drawBuffers (attachments : list nat)
| clearColor (r g b a : Q)
| enable (c : capability)
| disable (c : capability)
| cullFace_BACK
| clear_COLOR_DEPTH
| bindRenderbuffer (rb : option nat)
| renderbufferStorage_DEPTH24 (w h : Q)
| framebufferRenderbuffer_DEPTH (rb : nat)
| framebufferTexture2D (attachment : nat) (tex : nat)
| activeTexture (unit : nat)
| bindTexture (tex : option nat)
| texImage2D_RGBA32F (w h : Q)
| texImage2D_RGBA_pixel
| texParameteri_NEAREST
| bindBuffer (target : buffer_target) (buf : nat)
| vertexAttribPointer (loc : option Z) (size : Q)
| enableVertexAttribArray (loc : option Z)
| useProgram (program : nat)
| uniformMatrix4fv (loc : option uniform_location) (m : mat4)
| uniform3fv (loc : option uniform_location) (v : floats)
| uniform1i (loc : option uniform_location) (i : nat)
| drawArrays_TRIANGLES (count : Q)
| drawElements_TRIANGLES (count : Q).

(** Calls that rasterise. *)
Definition is_draw (c : command) : bool :=
  match c with
  | drawArrays_TRIANGLES _ | drawElements_TRIANGLES _ => true
  | _ => false
  end.

End GL.

(** ** Texture *)

Module Texture.

(** [name] is the constructor's [source]; [index] the handle from
    [GL.createTexture()]. *)
Record t := mk { name : string; index : nat }.

(** [bind(position)] *)
Definition bind (position : nat) (x : t) : list GL.command :=
  [GL.activeTexture position; GL.bindTexture (Some (index x))].

End Texture.

(** ** GLShader *)

Module GLShader.

(** [locations] holds what [GL.getAttribLocation] answered (-1: not found),
    [uniforms] what [GL.getUniformLocation] answered ([None]: null). *)
Record t := mk {
  program : nat;
  locations : Dict.t Z;
  uniforms : Dict.t (option GL.uniform_location)
}.

(** [init(vertSource, fragSource)], given the linked program and what it
    answers to [GL.getAttribLocation] and [GL.getUniformLocation]. *)
Definition init (program' : nat) (getAttribLocation : string -> Z)
  (getUniformLocation : string -> option GL.uniform_location) : t :=
  mk program'
     [("position", getAttribLocation "aPosition");
      ("normal", getAttribLocation "aNormal");
      ("tangent", getAttribLocation "aTangent");
      ("uv", getAttribLocation "aUV");
      ("colour", getAttribLocation "aColour")]
     [("projectionMatrix", getUniformLocation "projection");
      ("modelMatrix", getUniformLocation "model");
      ("modelViewMatrix", getUniformLocation "modelView");
      ("cameraPosition", getUniformLocation "cameraPosition");
      ("albedo", getUniformLocation "albedoTexture");
      ("normal", getUniformLocation "normalTexture");
      ("material", getUniformLocation "materialTexture");
      ("base", getUniformLocation "baseTexture");
      ("position", getUniformLocation "positionTexture")].

(** [this.uniforms[name]], where a missing key and a null location are both
    ignored by WebGL. *)
Definition uniform (name : string) (s : t) : option GL.uniform_location :=
  match Dict.get name (uniforms s) with
  | Some l => l
  | None => None
  end.

(** [addUniform(name)], given the location WebGL answers. *)
Definition addUniform (name : string) (l : option GL.uniform_location) (s : t) : t :=
  mk (program s) (locations s) (Dict.set name l (uniforms s)).

(** [setMatrices(projection, model, modelView)] *)
Definition setMatrices (projection model modelView : GLMatrix.mat4) (s : t)
  : list GL.command :=
  [GL.uniformMatrix4fv (uniform "projectionMatrix" s) projection;
   GL.uniformMatrix4fv (uniform "modelMatrix" s) model;
   GL.uniformMatrix4fv (uniform "modelViewMatrix" s) modelView].

(** [setUniformFloat3(value, name)] *)
Definition setUniformFloat3 (value : GL.floats) (name : string) (s : t)
  : list GL.command :=
  [GL.uniform3fv (uniform name s) value].

End GLShader.

(** ** Mesh and Quad *)

Module Mesh.

(** A vertex buffer: the handle from [GL.createBuffer()] with the two
    properties [addBuffer] hangs on it. *)
Record buffer := Buffer { handle : nat; itemSize : Q; numItems : Q }.

(** Which [draw] the object answers to: [Mesh.prototype.draw] or the
    override in [Quad]. *)
Inductive class := Mesh | Quad.

Record t := mk { kind : class; buffers : Dict.t buffer }.

(** [addBuffer(vertices, name, size)], given the fresh handle. *)
Definition addBuffer (fresh : nat) (vertices : list Q) (name : string) (size : Q) (m : t) : t :=
  mk (kind m)
     (Dict.set name (Buffer fresh size (inject_Z (Z.of_nat (length vertices)) / size)%Q)
               (buffers m)).

(** [draw()]: [None] when the buffer it reads is missing (a TypeError). *)
Definition draw (m : t) : option GL.command :=
  match kind m with
  | Mesh =>
      match Dict.get "position" (buffers m) with
      | Some b => Some (GL.drawArrays_TRIANGLES (numItems b))
      | None => None
      end
  | Quad =>
      match Dict.get "index" (buffers m) with
      | Some b => Some (GL.drawElements_TRIANGLES (numItems b))
      | None => None
      end
  end.

(** [new Quad()], given three fresh buffer handles. *)
Definition Quad_new (b1 b2 b3 : nat) : t :=
  addBuffer b3 [0; 1; 2; 0; 2; 3]%Q "index" 1
    (addBuffer b2 [0; 0; 1; 0; 1; 1; 0; 1]%Q "uv" 2
       (addBuffer b1 [-0.5; -0.5; 1; 0.5; -0.5; 1; 0.5; 0.5; 1; -0.5; 0.5; 1]%Q "position" 3
          (mk Quad []))).

End Mesh.

(** [GLShader.bind(buffers)], placed here because it reads mesh buffers. *)

Module ShaderBind.

Definition bind_buffer (s : GLShader.t) (entry : string * Mesh.buffer) : list GL.command :=
  let '(b, buff) := entry in
  if decide (b = "index") then [GL.bindBuffer GL.ELEMENT_ARRAY_BUFFER (Mesh.handle buff)]
  else
    let loc := Dict.get b (GLShader.locations s) in
    if decide (loc = Some (-1)%Z) then []
    else [GL.bindBuffer GL.ARRAY_BUFFER (Mesh.handle buff);
          GL.vertexAttribPointer loc (Mesh.itemSize buff);
          GL.enableVertexAttribArray loc].

Definition bind (buffers : Dict.t Mesh.buffer) (s : GLShader.t) : list GL.command :=
  flat_map (bind_buffer s) buffers ++ [GL.useProgram (GLShader.program s)].

End ShaderBind.

(** ** Material

    Materials are shared objects: instances hold a reference (an address in
    the heap of materials), and [setBaseTexture] writes through it. *)

Module Material.

Record t := mk { textures : Dict.t Texture.t }.

#[global] Instance inhabited : Inhabited t := populate (mk []).

(** [constructor(albedoTex, normalTex, materialTex)] *)
Definition new (albedoTex normalTex materialTex : Texture.t) : t :=
  mk [("albedo", albedoTex); ("normal", normalTex); ("material", materialTex)].

(** [addTexture(tex, name)] *)
Definition addTexture (tex : Texture.t) (name : string) (m : t) : t :=
  mk (Dict.set name tex (textures m)).

(** [bind(shader)]: texture unit [position] counts the keys visited. *)
Fixpoint bind_from (position : nat) (texs : Dict.t Texture.t) (shader : GLShader.t)
  : list GL.command :=
  match texs with
  | [] => []
  | (k, tex) :: rest =>
      Texture.bind position tex
      ++ [GL.uniform1i (GLShader.uniform k shader) position]
      ++ bind_from (S position) rest shader
  end.

Definition bind (shader : GLShader.t) (m : t) : list GL.command :=
  bind_from 0 (textures m) shader.

End Material.

(** ** MeshInstance *)

Module MeshInstance.

Import GLMatrix.
Local Open Scope Q_scope.

(** [material] is the address of the shared material object; [name] is
    [None] for the two quads, built without one. *)
Record t := mk {
  mesh : Mesh.t;
  material : nat;
  shader : GLShader.t;
  position : vec3;
  scale : vec3;
  rotation : quat;
  visible : bool;
  name : option string
}.

(** [constructor(mesh, shader, material, name)] *)
Definition new (mesh' : Mesh.t) (shader' : GLShader.t) (material' : nat)
  (name' : option string) : t :=
  mk mesh' material' shader' vec3_create (vec3_fromValues 1 1 1) quat_create true name'.

Definition with_position (p : vec3) (m : t) : t :=
  mk (mesh m) (material m) (shader m) p (scale m) (rotation m) (visible m) (name m).

Definition with_scale (sc : vec3) (m : t) : t :=
  mk (mesh m) (material m) (shader m) (position m) sc (rotation m) (visible m) (name m).

Definition with_rotation (q : quat) (m : t) : t :=
  mk (mesh m) (material m) (shader m) (position m) (scale m) q (visible m) (name m).

Definition with_visible (b : bool) (m : t) : t :=
  mk (mesh m) (material m) (shader m) (position m) (scale m) (rotation m) b (name m).

(** [setBaseTexture(tex)] writes to the material object the instance points
    to, not to the instance. *)
Definition setBaseTexture (tex : Texture.t) (m : t) (heap : gmap nat Material.t)
  : gmap nat Material.t :=
  <[material m := Material.mk (Dict.set "base" tex (Material.textures (heap !!! material m)))]>
    heap.

(** [setPosition(x, y, z)] *)
Definition setPosition (x y z : Q) (m : t) : t :=
  with_position (vec3_set (position m) x y z) m.

(** [translate(x, y, z)] *)
Definition translate (x y z : Q) (m : t) : t :=
  with_position (Vec3 (v0 (position m) + x) (v1 (position m) + y) (v2 (position m) + z)) m.

(** The first [translateX(x)] of the class body:
    [this.position[0] += x]. *)
Definition translateX_first (x : Q) (m : t) : t :=
  with_position (Vec3 (v0 (position m) + x) (v1 (position m)) (v2 (position m))) m.

(** [translateY(y)] *)
Definition translateY (y : Q) (m : t) : t :=
  with_position (Vec3 (v0 (position m)) (v1 (position m) + y) (v2 (position m))) m.

(** The second [translateX(z)] of the class body:
    [this.position[2] += z]. *)
Definition translateX_second (z : Q) (m : t) : t :=
  with_position (Vec3 (v0 (position m)) (v1 (position m)) (v2 (position m) + z)) m.

(** [rotateX(rad)], [rotateY(rad)], [rotateZ(rad)] *)
Definition rotateX (rad : Q) (m : t) : t := with_rotation (quat_rotateX (rotation m) rad) m.
Definition rotateY (rad : Q) (m : t) : t := with_rotation (quat_rotateY (rotation m) rad) m.
Definition rotateZ (rad : Q) (m : t) : t := with_rotation (quat_rotateZ (rotation m) rad) m.

(** [setScale(x, y, z)] *)
Definition setScale (x y z : Q) (m : t) : t :=
  with_scale (vec3_set (scale m) x y z) m.

(** [bind(attributes)] *)
Definition bind (heap : gmap nat Material.t) (a : Attributes.t) (m : t) : list GL.command :=
  let modelMatrix := mat4_fromRotationTranslationScale (rotation m) (position m) (scale m) in
  let modelViewMatrix := mat4_multiply (Attributes.viewMatrix a) modelMatrix in
  ShaderBind.bind (Mesh.buffers (mesh m)) (shader m)
  ++ GLShader.setMatrices (Attributes.projectionMatrix a) modelMatrix modelViewMatrix (shader m)
  ++ GLShader.setUniformFloat3 (GL.floats_point (Attributes.cameraPosition a))
       "cameraPosition" (shader m)
  ++ Material.bind (shader m) (heap !!! material m).

(** [draw()] *)
Definition draw (m : t) : option GL.command := Mesh.draw (mesh m).

(** *** The class body

    The method definitions of [class MeshInstance] in source order.  A class
    body installs each on the prototype under its name in turn, so that a
    name defined twice ends up bound to the later definition. *)
Inductive member :=
| def_constructor
| def_setBaseTexture
| def_setPosition
| def_translate
| def_translateX_first
| def_translateY
| def_translateX_second
| def_rotateX
| def_rotateY
| def_rotateZ
| def_setScale
| def_bind
| def_draw.

Definition member_name (d : member) : string :=
  match d with
  | def_constructor => "constructor"
  | def_setBaseTexture => "setBaseTexture"
  | def_setPosition => "setPosition"
  | def_translate => "translate"
  | def_translateX_first => "translateX"
  | def_translateY => "translateY"
  | def_translateX_second => "translateX"
  | def_rotateX => "rotateX"
  | def_rotateY => "rotateY"
  | def_rotateZ => "rotateZ"
  | def_setScale => "setScale"
  | def_bind => "bind"
  | def_draw => "draw"
  end.

Definition class_body : list member :=
  [def_constructor; def_setBaseTexture; def_setPosition; def_translate;
   def_translateX_first; def_translateY; def_translateX_second;
   def_rotateX; def_rotateY; def_rotateZ; def_setScale; def_bind; def_draw].

Definition prototype : Dict.t member :=
  fold_left (fun proto d => Dict.set (member_name d) d proto) class_body [].

(** [MeshInstance.prototype[name]] *)
Definition method (name' : string) : option member := Dict.get name' prototype.

(** The number of formal parameters of a definition. *)
Definition arity (d : member) : nat :=
  match d with
  | def_constructor => 4
  | def_setPosition | def_translate | def_setScale => 3
  | def_draw => 0
  | _ => 1
  end.

(** What running a definition with numeric arguments does to the fields of
    the instance itself.  [setBaseTexture], [bind] and [draw] assign to none
    of them (their effects are on the material and on the GPU); [None]
    stands for a call with too few numbers, whose arithmetic would be on
    [undefined], and for [constructor], which is not called on an
    instance. *)
Definition run (d : member) (args : list Q) (m : t) : option t :=
  match d, args with
  | def_setPosition, x :: y :: z :: _ => Some (setPosition x y z m)
  | def_translate, x :: y :: z :: _ => Some (translate x y z m)
  | def_translateX_first, x :: _ => Some (translateX_first x m)
  | def_translateY, y :: _ => Some (translateY y m)
  | def_translateX_second, z :: _ => Some (translateX_second z m)
  | def_rotateX, rad :: _ => Some (rotateX rad m)
  | def_rotateY, rad :: _ => Some (rotateY rad m)
  | def_rotateZ, rad :: _ => Some (rotateZ rad m)
  | def_setScale, x :: y :: z :: _ => Some (setScale x y z m)
  | def_setBaseTexture, _ => Some m
  | def_bind, _ => Some m
  | def_draw, _ => Some m
  | _, _ => None
  end.

(** [m[name](...args)]: [None] also when the prototype has no such
    method. *)
Definition call (name' : string) (args : list Q) (m : t) : option t :=
  match method name' with
  | Some d => run d args m
  | None => None
  end.

(** The rectangle a unit quad (corners at -0.5 and 0.5) covers once scaled
    and moved by an unrotated instance. *)
Definition quad_left (m : t) : Q := v0 (position m) - v0 (scale m) * 0.5.
Definition quad_right (m : t) : Q := v0 (position m) + v0 (scale m) * 0.5.
Definition quad_bottom (m : t) : Q := v1 (position m) - v1 (scale m) * 0.5.
Definition quad_top (m : t) : Q := v1 (position m) + v1 (scale m) * 0.5.

End MeshInstance.

(** ** Light *)

Module Light.

Local Open Scope Q_scope.

Record t := mk {
  color : list Q;
  position : list Q;
  attenuation : list Q;
  visible : bool
}.

(** [constructor(color)] *)
Definition new (color' : list Q) : t :=
  mk color' [0; 0; 0] [0.05; 0.02; 0.01] true.

(** [setColor(color)] *)
Definition setColor (color' : list Q) (l : t) : t :=
  mk color' (position l) (attenuation l) (visible l).

(** [setPosition(x, y, z)] *)
Definition setPosition (x y z : Q) (l : t) : t :=
  mk (color l) [x; y; z] (attenuation l) (visible l).

(** [setAttenuation(constant, linear, quadratic)] *)
Definition setAttenuation (constant linear quadratic : Q) (l : t) : t :=
  mk (color l) (position l) [constant; linear; quadratic] (visible l).

Definition with_visible (b : bool) (l : t) : t :=
  mk (color l) (position l) (attenuation l) b.

(** [addToArray(arr)]: the array after the call, and the value returned. *)
Definition addToArray (arr : list Q) (l : t) : list Q * Q :=
  if visible l
  then (arr ++ position l ++ color l ++ attenuation l, 1)
  else (arr, 0).

(** A light whose three attributes are triples, as the constructor and the
    setters make them when the colour given is a triple. *)
Definition triples (l : t) : Prop :=
  length (position l) = 3%nat /\ length (color l) = 3%nat /\ length (attenuation l) = 3%nat.

End Light.

(** ** Scene *)

Module Scene.

Record t := mk { meshes : list MeshInstance.t; lights : list Light.t }.

(** [constructor()] *)
Definition new : t := mk [] [].

(** [addLight(color)] *)
Definition addLight (color : list Q) (s : t) : t * Light.t :=
  let light := Light.new color in
  (mk (meshes s) (lights s ++ [light]), light).

(** [addMesh(geometry, shader, material, name)] *)
Definition addMesh (geometry : Mesh.t) (shader : GLShader.t) (material : nat)
  (name : string) (s : t) : t * MeshInstance.t :=
  let mesh := MeshInstance.new geometry shader material (Some name) in
  (mk (meshes s ++ [mesh]) (lights s), mesh).

Definition with_meshes (ms : list MeshInstance.t) (s : t) : t := mk ms (lights s).
Definition with_lights (ls : list Light.t) (s : t) : t := mk (meshes s) ls.

End Scene.

(** ** The part of the GPU state the renderer relies on

    Bindings, the size of the storage behind each texture and renderbuffer,
    and the colour attachments of each framebuffer, as the calls of [GL]
    change them.  A call that needs a binding and finds none changes nothing
    (WebGL raises INVALID_OPERATION and goes on). *)

Module GLState.

Record t := mk {
  viewport_box : Q * Q * Q * Q;
  active_unit : nat;
  texture_binding : gmap nat nat;
  renderbuffer_binding : option nat;
  framebuffer_binding : option nat;
  texture_size : gmap nat (Q * Q);
  renderbuffer_size : gmap nat (Q * Q);
  color_attachment : gmap (nat * nat) nat
}.

Definition exec (s : t) (c : GL.command) : t :=
  match c with
  | GL.viewport x y w h =>
      mk (x, y, w, h) (active_unit s) (texture_binding s) (renderbuffer_binding s)
         (framebuffer_binding s) (texture_size s) (renderbuffer_size s) (color_attachment s)
  | GL.activeTexture u =>
      mk (viewport_box s) u (texture_binding s) (renderbuffer_binding s)
         (framebuffer_binding s) (texture_size s) (renderbuffer_size s) (color_attachment s)
  | GL.bindTexture (Some tex) =>
      mk (viewport_box s) (active_unit s) (<[active_unit s := tex]> (texture_binding s))
         (renderbuffer_binding s)
         (framebuffer_binding s) (texture_size s) (renderbuffer_size s) (color_attachment s)
  | GL.bindTexture None =>
      mk (viewport_box s) (active_unit s) (delete (active_unit s) (texture_binding s))
         (renderbuffer_binding s)
         (framebuffer_binding s) (texture_size s) (renderbuffer_size s) (color_attachment s)
  | GL.bindRenderbuffer rb =>
      mk (viewport_box s) (active_unit s) (texture_binding s) rb
         (framebuffer_binding s) (texture_size s) (renderbuffer_size s) (color_attachment s)
  | GL.bindFramebuffer fbo =>
      mk (viewport_box s) (active_unit s) (texture_binding s) (renderbuffer_binding s)
         fbo (texture_size s) (renderbuffer_size s) (color_attachment s)
  | GL.texImage2D_RGBA32F w h =>
      match texture_binding s !! active_unit s with
      | Some tex =>
          mk (viewport_box s) (active_unit s) (texture_binding s) (renderbuffer_binding s)
             (framebuffer_binding s) (<[tex := (w, h)]> (texture_size s))
             (renderbuffer_size s) (color_attachment s)
      | None => s
      end
  | GL.texImage2D_RGBA_pixel =>
      match texture_binding s !! active_unit s with
      | Some tex =>
          mk (viewport_box s) (active_unit s) (texture_binding s) (renderbuffer_binding s)
             (framebuffer_binding s) (<[tex := (1, 1)%Q]> (texture_size s))
             (renderbuffer_size s) (color_attachment s)
      | None => s
      end
  | GL.renderbufferStorage_DEPTH24 w h =>
      match renderbuffer_binding s with
      | Some rb =>
          mk (viewport_box s) (active_unit s) (texture_binding s) (renderbuffer_binding s)
             (framebuffer_binding s) (texture_size s)
             (<[rb := (w, h)]> (renderbuffer_size s)) (color_attachment s)
      | None => s
      end
  | GL.framebufferTexture2D i tex =>
      match framebuffer_binding s with
      | Some fbo =>
          mk (viewport_box s) (active_unit s) (texture_binding s) (renderbuffer_binding s)
             (framebuffer_binding s) (texture_size s) (renderbuffer_size s)
             (<[(fbo, i) := tex]> (color_attachment s))
      | None => s
      end
  | _ => s
  end.

Definition run (cs : list GL.command) (s : t) : t := fold_left exec cs s.

(** The framebuffer part of the state, and [exec] on that part alone. *)
Definition framebuffer_view (s : t) : option nat * gmap (nat * nat) nat :=
  (framebuffer_binding s, color_attachment s).

Definition exec_framebuffer (v : option nat * gmap (nat * nat) nat) (c : GL.command)
  : option nat * gmap (nat * nat) nat :=
  match c with
  | GL.bindFramebuffer fbo => (fbo, snd v)
  | GL.framebufferTexture2D i tex =>
      match fst v with
      | Some fbo => (fst v, <[(fbo, i) := tex]> (snd v))
      | None => v
      end
  | _ => v
  end.

(** A context in which nothing is bound or allocated yet. *)
Definition initial : t :=
  mk (0, 0, 0, 0)%Q 0 ∅ None None ∅ ∅ ∅.

End GLState.

(** ** Renderer *)

Module Renderer.

Import GLMatrix.
Local Open Scope Q_scope.

(** The [canvas] element. *)
Record canvas := Canvas { canvas_width : Q; canvas_height : Q }.

(** [this.shaders] *)
Record shaders_t := Shaders {
  sh_default : GLShader.t;
  sh_passthrough : GLShader.t;
  sh_gBuffer : GLShader.t;
  sh_deferred : GLShader.t
}.

(** [this.gBuffer]; [gb_material] is the address of the grouping material. *)
Record gBuffer_t := GBuffer {
  FBO : nat;
  gb_material : nat;
  depth : nat;
  buffers : list nat
}.

(** [this.gBuffer.bind()] *)
Definition gBuffer_bind (g : gBuffer_t) : list GL.command :=
  [GL.bindFramebuffer (Some (FBO g)); GL.drawBuffers (buffers g)].

(** The renderer with the objects it reaches: [materials] maps the names of
    [this.materials] to addresses in [heap], where the material objects
    live. *)
Record t := mk {
  init : bool;
  attributes : Attributes.t;
  textures : Dict.t Texture.t;
  materials : Dict.t nat;
  heap : gmap nat Material.t;
  scene : Scene.t;
  shaders : shaders_t;
  gBuffer : gBuffer_t;
  camera : PerspectiveCamera.t;
  postCamera : OrthographicCamera.t;
  bufferQuad : MeshInstance.t;
  defferedQuad : MeshInstance.t
}.

Definition with_scene (sc : Scene.t) (r : t) : t :=
  mk (init r) (attributes r) (textures r) (materials r) (heap r) sc (shaders r)
     (gBuffer r) (camera r) (postCamera r) (bufferQuad r) (defferedQuad r).

(** [new Texture('buffer', width, height)] with its handle. *)
Definition Texture_buffer (handle : nat) (w h : Q) : Texture.t * list GL.command :=
  (Texture.mk "buffer" handle,
   [GL.bindTexture (Some handle); GL.texImage2D_RGBA32F w h;
    GL.texParameteri_NEAREST; GL.texParameteri_NEAREST; GL.bindTexture None]).

(** [new Texture(source)] for any other source, an image file: a one-pixel
    placeholder, left bound (the upload that follows the loading of the
    image is not part of the model). *)
Definition Texture_image (source : string) (handle : nat) : Texture.t * list GL.command :=
  (Texture.mk source handle, [GL.bindTexture (Some handle); GL.texImage2D_RGBA_pixel]).

(** [new Texture(source, width, height)] with its handle: the constructor
    takes one branch or the other on [source == 'buffer']. *)
Definition Texture_new (source : string) (handle : nat) (w h : Q)
  : Texture.t * list GL.command :=
  if decide (source = "buffer"%string) then Texture_buffer handle w h
  else Texture_image source handle.

(** [createMaterial(albedo, normal, material, name)], given three texture
    handles and the address of the new material.  The three [new Texture]
    are given no width and no height, which reach [texImage2D] as 0. *)
Definition createMaterial (albedo normal material name : string) (ha hn hm addr : nat) (r : t)
  : t * list GL.command :=
  let '(atex, c1) := Texture_new albedo ha 0 0 in
  let '(ntex, c2) := Texture_new normal hn 0 0 in
  let '(mtex, c3) := Texture_new material hm 0 0 in
  (mk (init r) (attributes r)
      (Dict.set material mtex (Dict.set normal ntex (Dict.set albedo atex (textures r))))
      (Dict.set name addr (materials r))
      (<[addr := Material.new atex ntex mtex]> (heap r))
      (scene r) (shaders r) (gBuffer r) (camera r) (postCamera r)
      (bufferQuad r) (defferedQuad r),
   c1 ++ c2 ++ c3).

(** [init_gBuffer()], given the handles of the four textures, of the
    renderbuffer and of the framebuffer, and the address of the material. *)
Definition init_gBuffer (win : Window.t) (hpos halb hnrm hmat hdepth hfbo addr : nat) (r : t)
  : t * list GL.command :=
  let w := Window.innerWidth win in
  let h := Window.innerHeight win in
  let '(gbuff_position, c1) := Texture_buffer hpos w h in
  let '(gbuff_albedo, c2) := Texture_buffer halb w h in
  let '(gbuff_normal, c3) := Texture_buffer hnrm w h in
  let '(gbuff_material, c4) := Texture_buffer hmat w h in
  let gMat :=
    Material.addTexture gbuff_position "position"
      (Material.addTexture gbuff_position "base"
         (Material.new gbuff_albedo gbuff_normal gbuff_material)) in
  let tex := Material.textures gMat in
  let attach (i : nat) (k : string) : list GL.command :=
    match Dict.get k tex with
    | Some x => [GL.framebufferTexture2D i (Texture.index x)]
    | None => []
    end in
  (mk (init r) (attributes r)
      (Dict.set "gbuff_material" gbuff_material
         (Dict.set "gbuff_normal" gbuff_normal
            (Dict.set "gbuff_albedo" gbuff_albedo
               (Dict.set "gbuff_position" gbuff_position (textures r)))))
      (Dict.set "gBuffer" addr (materials r))
      (<[addr := gMat]> (heap r))
      (scene r) (shaders r)
      (GBuffer hfbo addr hdepth [0; 1; 2; 3]%nat)
      (camera r) (postCamera r) (bufferQuad r) (defferedQuad r),
   c1 ++ c2 ++ c3 ++ c4
   ++ [GL.bindRenderbuffer (Some hdepth); GL.renderbufferStorage_DEPTH24 w h;
       GL.bindRenderbuffer None;
       GL.bindFramebuffer (Some hfbo); GL.framebufferRenderbuffer_DEPTH hdepth]
   ++ attach 0%nat "base" ++ attach 1%nat "albedo"
   ++ attach 2%nat "normal" ++ attach 3%nat "material"
   ++ [GL.bindFramebuffer None]).

(** [onWindowResize()]: the renderer itself is not assigned to. *)
Definition resize_texture (w h : Q) (entry : string * Texture.t) : list GL.command :=
  [GL.bindTexture (Some (Texture.index (snd entry))); GL.texImage2D_RGBA32F w h].

Definition onWindowResize (win : Window.t) (r : t) : canvas * list GL.command :=
  let w := Window.innerWidth win in
  let h := Window.innerHeight win in
  (Canvas w h,
   GL.viewport 0 0 w h ::
   if negb (init r) then []
   else
     let tex := Material.textures (heap r !!! gb_material (gBuffer r)) in
     [GL.bindRenderbuffer (Some (depth (gBuffer r)));
      GL.renderbufferStorage_DEPTH24 w h;
      GL.bindRenderbuffer None]
     ++ flat_map (resize_texture w h) tex
     ++ [GL.bindTexture None]).

(** *** The light uniform of [renderScene] *)

Definition add_light (acc : list Q * Q) (l : Light.t) : list Q * Q :=
  let '(arr, n) := Light.addToArray (fst acc) l in (arr, snd acc + n).

Definition lightArr (a : Attributes.t) (lights : list Light.t) : list Q :=
  let start := [0; (Attributes.lightAmbience a * 0.1 * 4) ^ 2;
                (1 - Attributes.lightIntensity a) * 0.1 + 0.001] in
  let '(arr, count) := fold_left add_light lights (start, 0) in
  <[0%nat := count * 3]> arr.

(** The array is uploaded with [uniform3fv], which reads it three numbers at
    a time: element [e] of the uniform [lights]. *)
Definition element (e : nat) (arr : list Q) : list Q := take 3 (drop (3 * e) arr).

(** What one visible light appends, and the lights that are visible. *)
Definition light_entries (l : Light.t) : list Q :=
  Light.position l ++ Light.color l ++ Light.attenuation l.

Definition visible_lights (lights : list Light.t) : list Light.t :=
  List.filter Light.visible lights.

(** *** The geometry pass of [renderScene]

    The calls issued for the meshes, and whether the loop ran to its end
    ([false]: a [draw] threw). *)
Fixpoint geometry_pass (hp : gmap nat Material.t) (att : Attributes.t)
  (meshes : list MeshInstance.t) : list GL.command * bool :=
  match meshes with
  | [] => ([], true)
  | mesh :: rest =>
      if negb (MeshInstance.visible mesh) then geometry_pass hp att rest
      else
        match MeshInstance.draw mesh with
        | None => (MeshInstance.bind hp att mesh, false)
        | Some d =>
            let '(cs, ok) := geometry_pass hp att rest in
            (MeshInstance.bind hp att mesh ++ d :: cs, ok)
        end
  end.

(** *** The overlay of [renderScene]

    What the loop over the keys of [tex] leaves behind: the calls, the quad,
    the heap, whether it ran to its end, and (kept for the proofs only) the
    key, the texture shown and the quad of every draw call, in order. *)
Record quad_draw := QuadDraw {
  qd_key : string;
  qd_texture : Texture.t;
  qd_quad : MeshInstance.t
}.

Record overlay := Overlay {
  ov_calls : list GL.command;
  ov_quad : MeshInstance.t;
  ov_heap : gmap nat Material.t;
  ov_completed : bool;
  ov_drawn : list quad_draw
}.

(** [tex] is the object at address [texref]; [tex[t]] is read when the key
    is reached.  The keys are those [tex] had when the loop began. *)
Fixpoint overlay_loop (keys : list string) (texref : nat) (att : Attributes.t)
  (dx dy height : Q) (q : MeshInstance.t) (hp : gmap nat Material.t) : overlay :=
  match keys with
  | [] => Overlay [] q hp true []
  | k :: rest =>
      if decide (k = "base") then overlay_loop rest texref att dx dy height q hp
      else
        match Dict.get k (Material.textures (hp !!! texref)) with
        | None => Overlay [] q hp false []
        | Some tx =>
            let hp1 := MeshInstance.setBaseTexture tx q hp in
            let q1 := MeshInstance.setPosition dx dy 0 q in
            let cs := MeshInstance.bind hp1 att q1 in
            match MeshInstance.draw q1 with
            | None => Overlay cs q1 hp1 false []
            | Some d =>
                let o := overlay_loop rest texref att dx (dy - height) height q1 hp1 in
                Overlay (cs ++ d :: ov_calls o) (ov_quad o) (ov_heap o) (ov_completed o)
                        (QuadDraw k tx q1 :: ov_drawn o)
            end
        end
  end.

(** [t == 'base'] negated: the keys the loop does not skip. *)
Definition not_base (k : string) : bool := if decide (k = "base") then false else true.

(** The block guarded by [att.drawGbuffer]. *)
Definition draw_gbuffer (win : Window.t) (texref : nat) (att : Attributes.t)
  (q : MeshInstance.t) (hp : gmap nat Material.t) : overlay :=
  let winW := Window.innerWidth win in
  let winH := Window.innerHeight win in
  let height := winH / 4 in
  let width := height * (winW / winH) in
  let dx := (winW / -2) + width / 2 in
  let dy := (winH / 2) - height / 2 in
  let q1 := MeshInstance.setScale width height 1 q in
  overlay_loop (Dict.keys (Material.textures (hp !!! texref))) texref att dx dy height q1 hp.

(** *** [renderScene(delta)]

    A frame: the calls issued, the renderer afterwards, whether the frame ran
    to its end ([false]: it threw, after the calls listed), and the draws of
    the overlay. *)
Record frame := Frame {
  calls : list GL.command;
  after : t;
  completed : bool;
  overlay_drawn : list quad_draw
}.

Definition renderScene (win : Window.t) (r : t) : frame :=
  match Dict.get "gBuffer" (materials r) with
  | None => Frame [] r false []
  | Some texref =>
      let setup :=
        gBuffer_bind (gBuffer r)
        ++ [GL.clearColor 0 0 0 1; GL.enable GL.DEPTH_TEST; GL.enable GL.CULL_FACE;
            GL.cullFace_BACK; GL.clear_COLOR_DEPTH] in
      let '(cam, att1) := PerspectiveCamera.update (attributes r) (camera r) in
      let '(geometry, ok) := geometry_pass (heap r) att1 (Scene.meshes (scene r)) in
      if negb ok then
        Frame (setup ++ geometry)
              (mk (init r) att1 (textures r) (materials r) (heap r) (scene r) (shaders r)
                  (gBuffer r) cam (postCamera r) (bufferQuad r) (defferedQuad r))
              false []
      else
        let default_fbo :=
          [GL.bindFramebuffer None; GL.clear_COLOR_DEPTH;
           GL.disable GL.DEPTH_TEST; GL.disable GL.CULL_FACE] in
        let '(post, att2) := OrthographicCamera.update att1 (postCamera r) in
        let att3 := Attributes.set_cameraPosition (PerspectiveCamera.position cam) att2 in
        let winW := Window.innerWidth win in
        let winH := Window.innerHeight win in
        let arr := lightArr att3 (Scene.lights (scene r)) in
        let dq := MeshInstance.setPosition 0 0 0
                    (MeshInstance.setScale winW winH 1 (defferedQuad r)) in
        let resolve :=
          MeshInstance.bind (heap r) att3 dq
          ++ GLShader.setUniformFloat3 (GL.floats_array arr) "lights"
               (sh_deferred (shaders r)) in
        match MeshInstance.draw dq with
        | None =>
            Frame (setup ++ geometry ++ default_fbo ++ resolve)
                  (mk (init r) att3 (textures r) (materials r) (heap r) (scene r) (shaders r)
                      (gBuffer r) cam post (bufferQuad r) dq)
                  false []
        | Some d =>
            if Attributes.drawGbuffer att3 then
              let o := draw_gbuffer win texref att3 (bufferQuad r) (heap r) in
              Frame (setup ++ geometry ++ default_fbo ++ resolve ++ d :: ov_calls o)
                    (mk (init r) att3 (textures r) (materials r) (ov_heap o) (scene r)
                        (shaders r) (gBuffer r) cam post (ov_quad o) dq)
                    (ov_completed o) (ov_drawn o)
            else
              Frame (setup ++ geometry ++ default_fbo ++ resolve ++ [d])
                    (mk (init r) att3 (textures r) (materials r) (heap r) (scene r)
                        (shaders r) (gBuffer r) cam post (bufferQuad r) dq)
                    true []
        end
  end.

(** *** [constructor()]

    Given the window, the four linked shaders (with [lights] already added to
    the deferred one, as [init_shaders] does), the handles WebGL hands out
    and the address of the G-buffer material.  The matrices of the attribute
    bag are those of the first [camera.update]. *)
Definition new (win : Window.t) (sh : shaders_t)
  (hpos halb hnrm hmat hdepth hfbo addr b1 b2 b3 : nat) : t * canvas * list GL.command :=
  let quad0 := Mesh.Quad_new b1 b2 b3 in
  let blank := MeshInstance.new quad0 (sh_passthrough sh) addr None in
  let r0 :=
    mk false
       (Attributes.mk true 0.5 0.8 mat4_create mat4_create mat4_create
          (point_vec vec3_create))
       [] [] ∅ Scene.new sh (GBuffer 0 0 0 [])
       (PerspectiveCamera.new win 60 0.1 16000)
       (OrthographicCamera.new win (Window.innerWidth win) (Window.innerHeight win))
       blank blank in
  let '(cv, c0) := onWindowResize win r0 in
  let '(r1, c1) := init_gBuffer win hpos halb hnrm hmat hdepth hfbo addr r0 in
  let '(cam, att) :=
    PerspectiveCamera.update (attributes r1)
      (PerspectiveCamera.setPosition 0 0 0 (camera r1)) in
  (mk true att (textures r1) (materials r1) (heap r1) (scene r1) sh (gBuffer r1)
      cam (postCamera r1)
      (MeshInstance.new quad0 (sh_passthrough sh) addr None)
      (MeshInstance.new quad0 (sh_deferred sh) addr None),
   cv, c0 ++ c1).

(** A renderer as the constructor leaves it, as far as a frame depends on
    it: [this.materials.gBuffer] is the material at [texref] with the keys
    that [Material] and the two [addTexture] of [init_gBuffer] give it, the
    two quads have the index buffer their [draw] reads, and so has every
    visible mesh the position buffer. *)
Definition drawable (m : MeshInstance.t) : Prop := is_Some (MeshInstance.draw m).

Definition ready (r : t) (texref : nat) : Prop :=
  Dict.get "gBuffer" (materials r) = Some texref
  /\ Dict.keys (Material.textures (heap r !!! texref))
     = ["albedo"; "normal"; "material"; "base"; "position"]%string
  /\ drawable (bufferQuad r)
  /\ drawable (defferedQuad r)
  /\ Forall (fun m => MeshInstance.visible m = true -> drawable m) (Scene.meshes (scene r)).

(** Every material a frame binds is an object of the heap: that of the two
    quads and of each visible mesh.  ([this.material.bind] throws where the
    material is missing.) *)
Definition materials_present (r : t) : Prop :=
  is_Some (heap r !! MeshInstance.material (bufferQuad r))
  /\ is_Some (heap r !! MeshInstance.material (defferedQuad r))
  /\ Forall (fun m => MeshInstance.visible m = true ->
                      is_Some (heap r !! MeshInstance.material m))
       (Scene.meshes (scene r)).

(** The listener the constructor registers for [resize], on a world made of
    the renderer, the canvas and the GPU state. *)
Record world := World { w_renderer : t; w_canvas : canvas; w_gl : GLState.t }.

Definition on_resize (win : Window.t) (x : world) : world :=
  let '(cv, cs) := onWindowResize win (w_renderer x) in
  let r := w_renderer x in
  World (mk (init r) (attributes r) (textures r) (materials r) (heap r) (scene r)
            (shaders r) (gBuffer r)
            (PerspectiveCamera.onWindowResize win (camera r))
            (OrthographicCamera.onWindowResize win (postCamera r))
            (bufferQuad r) (defferedQuad r))
        cv (GLState.run cs (w_gl x)).

(** A frame, on the same world. *)
Definition on_frame (win : Window.t) (x : world) : world :=
  let f := renderScene win (w_renderer x) in
  World (after f) (w_canvas x) (GLState.run (calls f) (w_gl x)).

(** The textures [onWindowResize] reallocates: those grouped by the material
    of the G-buffer. *)
Definition gBuffer_textures (r : t) : list nat :=
  map (fun entry => Texture.index (snd entry))
      (Material.textures (heap r !!! gb_material (gBuffer r))).

(** The textures attached as colour buffers to the framebuffer of the
    G-buffer. *)
Definition attached (r : t) (s : GLState.t) (tex : nat) : Prop :=
  exists i, GLState.color_attachment s !! (FBO (gBuffer r), i) = Some tex.

(** The colour attachments are textures the G-buffer material holds under a
    key other than [base], the one key the overlay assigns to. *)
Definition attachments_grouped (x : world) : Prop :=
  forall tex, attached (w_renderer x) (w_gl x) tex ->
    exists k t, k <> "base"%string
      /\ Dict.get k (Material.textures
                       (heap (w_renderer x) !!! gb_material (gBuffer (w_renderer x))))
         = Some t
      /\ Texture.index t = tex.

(** Calls that change the attachments of a framebuffer. *)
Definition attaches (c : GL.command) : bool :=
  match c with
  | GL.framebufferTexture2D _ _ => true
  | _ => false
  end.

End Renderer.

(** ** [cubeVerts(type, size)]

    [None]: the function falls off its end and returns [undefined]. *)

Module Cube.

Local Open Scope Q_scope.

Definition cubeVerts (type : string) (size : Q) : option (list Q) :=
  if decide (type = "position") then
    Some
      [
       size; - size; size; size; size; size; - size; size; size;
       size; - size; size; - size; size; size; - size; - size; size;
       - size; - size; - size; - size; size; - size; size; size; - size;
       - size; - size; - size; size; size; - size; size; - size; - size;
       size; - size; - size; size; size; - size; size; size; size;
       size; - size; - size; size; size; size; size; - size; size;
       - size; - size; size; - size; size; size; - size; size; - size;
       - size; - size; size; - size; size; - size; - size; - size; - size;
       - size; size; - size; - size; size; size; size; size; size;
       - size; size; - size; size; size; size; size; size; - size;
       size; - size; size; - size; - size; size; - size; - size; - size;
       size; - size; size; - size; - size; - size; size; - size; - size
      ]
  else
  if decide (type = "uv") then
    Some
      [
       1; 0; 1; 1; 0; 1; 1; 0; 0;
       1; 0; 0; 1; 0; 1; 1; 0; 1;
       1; 0; 0; 1; 0; 0; 1; 0; 1;
       1; 0; 1; 1; 0; 0; 1; 0; 0;
       1; 0; 1; 1; 0; 1; 1; 0; 0;
       1; 0; 0; 1; 0; 1; 1; 0; 1;
       1; 0; 0; 1; 0; 0; 1; 0; 1;
       1; 0; 1; 1; 0; 0; 1; 0; 0
      ]
  else
  if decide (type = "normal") then
    Some
      [
       0; 0; 1; 0; 0; 1; 0; 0; 1;
       0; 0; 1; 0; 0; 1; 0; 0; 1;
       0; 0; -1; 0; 0; -1; 0; 0; -1;
       0; 0; -1; 0; 0; -1; 0; 0; -1;
       1; 0; 0; 1; 0; 0; 1; 0; 0;
       1; 0; 0; 1; 0; 0; 1; 0; 0;
       -1; 0; 0; -1; 0; 0; -1; 0; 0;
       -1; 0; 0; -1; 0; 0; -1; 0; 0;
       0; 1; 0; 0; 1; 0; 0; 1; 0;
       0; 1; 0; 0; 1; 0; 0; 1; 0;
       0; -1; 0; 0; -1; 0; 0; -1; 0;
       0; -1; 0; 0; -1; 0; 0; -1; 0
      ]
  else
  if decide (type = "tangent") then
    Some
      [
       -1; 0; 0; -1; 0; 0; -1; 0; 0;
       -1; 0; 0; -1; 0; 0; -1; 0; 0;
       0; 1; 0; 0; 1; 0; 0; 1; 0;
       0; 1; 0; 0; 1; 0; 0; 1; 0;
       0; 1; 0; 0; 1; 0; 0; 1; 0;
       0; 1; 0; 0; 1; 0; 0; 1; 0;
       0; 0; -1; 0; 0; -1; 0; 0; -1;
       0; 0; -1; 0; 0; -1; 0; 0; -1;
       0; 0; 1; 0; 0; 1; 0; 0; 1;
       0; 0; 1; 0; 0; 1; 0; 0; 1;
       -1; 0; 0; -1; 0; 0; -1; 0; 0;
       -1; 0; 0; -1; 0; 0; -1; 0; 0
      ]
  else
  None.

End Cube.

(** ** The scene of [main.js]

    The renderer as [main.js] sets it up in a window of 800 by 600, with the
    three cubes, their materials and the four lights (the meshes loaded from
    OBJ files and the other materials are left out).  The shaders are given
    with the attributes and the active uniforms of their sources. *)

Module Demo.

Import GLMatrix.
Local Open Scope Q_scope.

Definition win : Window.t := Window.mk 800 600.

Definition linked (program : nat) (attribs : Dict.t Z) (active : list string) : GLShader.t :=
  GLShader.init program
    (fun n => match Dict.get n attribs with Some l => l | None => (-1)%Z end)
    (fun n => if decide (n ∈ active) then Some (GL.UniformLocation program n) else None).

Definition shaders : Renderer.shaders_t :=
  Renderer.Shaders
    (linked 1 [("aPosition", 0%Z); ("aNormal", 1%Z); ("aTangent", 2%Z); ("aUV", 3%Z)]
       ["projection"; "model"; "modelView"; "albedoTexture"; "normalTexture";
        "cameraPosition"]%string)
    (linked 2 [("aPosition", 0%Z); ("aUV", 1%Z)]
       ["projection"; "modelView"; "baseTexture"]%string)
    (linked 3 [("aPosition", 0%Z); ("aNormal", 1%Z); ("aTangent", 2%Z); ("aUV", 3%Z)]
       ["projection"; "model"; "modelView"; "albedoTexture"; "normalTexture";
        "materialTexture"]%string)
    (GLShader.addUniform "lights" (Some (GL.UniformLocation 4 "lights"))
       (linked 4 [("aPosition", 0%Z); ("aUV", 1%Z)]
          ["projection"; "modelView"; "albedoTexture"; "normalTexture";
           "materialTexture"; "positionTexture"; "cameraPosition"]%string)).

(** [new Renderer()]: textures 1 to 4, renderbuffer 1, framebuffer 1, the
    G-buffer material at address 0, the buffers of the quad 1 to 3. *)
Definition constructed : Renderer.t * Renderer.canvas * list GL.command :=
  Renderer.new win shaders 1 2 3 4 1 1 0 1 2 3.

Definition with_materials : Renderer.t :=
  let r0 := fst (fst constructed) in
  let r1 := fst (Renderer.createMaterial "res/panel_albedo.png" "res/panel_normal.png"
                   "res/panel_material.png" "panel" 5 6 7 1 r0) in
  let r2 := fst (Renderer.createMaterial "res/celtic_albedo.png" "res/celtic_normal.png"
                   "res/celtic_material.png" "celtic" 8 9 10 2 r1) in
  fst (Renderer.createMaterial "res/pirate_albedo.png" "res/pirate_normal.png"
         "res/pirate_material.png" "pirate" 11 12 13 3 r2).

Definition cubeMesh : Mesh.t :=
  let verts (type : string) (size : Q) : list Q :=
    match Cube.cubeVerts type size with Some l => l | None => [] end in
  Mesh.addBuffer 7 (verts "tangent" 0) "tangent" 3
    (Mesh.addBuffer 6 (verts "uv" 0) "uv" 2
       (Mesh.addBuffer 5 (verts "normal" 0) "normal" 3
          (Mesh.addBuffer 4 (verts "position" 1) "position" 3
             (Mesh.mk Mesh.Mesh [])))).

Definition cube (material : nat) (name : string) (x y : Q) : MeshInstance.t :=
  MeshInstance.setScale 20 20 20
    (MeshInstance.translate x y 0
       (MeshInstance.new cubeMesh (Renderer.sh_gBuffer shaders) material (Some name))).

Definition pirate : MeshInstance.t := cube 3 "Pirate" 100 60.
Definition panel : MeshInstance.t := cube 1 "Panel" 0 60.
Definition celtic : MeshInstance.t := cube 2 "Celtic" (-100) 60.

Definition lights : list Light.t :=
  [Light.setPosition 0 50 100 (Light.new [255; 255; 255]);
   Light.setPosition (-50) 0 0 (Light.new [255; 0; 0]);
   Light.setPosition 0 0 50 (Light.new [0; 255; 0]);
   Light.setPosition 50 0 0 (Light.new [0; 0; 255])].

(** The renderer when the first frame is requested. *)
Definition renderer : Renderer.t :=
  let r := with_materials in
  Renderer.mk (Renderer.init r) (Renderer.attributes r) (Renderer.textures r)
    (Renderer.materials r) (Renderer.heap r)
    (Scene.mk [pirate; panel; celtic] lights)
    (Renderer.shaders r) (Renderer.gBuffer r)
    (PerspectiveCamera.addOrbitController 300 (Renderer.camera r))
    (Renderer.postCamera r) (Renderer.bufferQuad r) (Renderer.defferedQuad r).

(** The same with the panel and the red light switched off in the control
    panel. *)
Definition lights_red_off : list Light.t :=
  [Light.setPosition 0 50 100 (Light.new [255; 255; 255]);
   Light.with_visible false (Light.setPosition (-50) 0 0 (Light.new [255; 0; 0]));
   Light.setPosition 0 0 50 (Light.new [0; 255; 0]);
   Light.setPosition 50 0 0 (Light.new [0; 0; 255])].

Definition panel_hidden : MeshInstance.t := MeshInstance.with_visible false panel.

Definition renderer_panel_hidden : Renderer.t :=
  Renderer.with_scene (Scene.mk [pirate; panel_hidden; celtic] lights_red_off) renderer.

(** The GPU state the constructor leaves. *)
Definition gl : GLState.t := GLState.run (snd constructed) GLState.initial.

Definition world : Renderer.world :=
  Renderer.World renderer (snd (fst constructed)) gl.

End Demo.

(** ** [loadOBJ]

    Strings are sequences of code units below 256.  Among these, white
    space (what [\s] matches and [trim] removes) is the six ASCII
    white-space characters and the no-break space U+00A0.  The parser is
    written over any carrier of JavaScript numbers with the operations it
    uses; nothing is assumed of them. *)

Module OBJ.

(** *** String methods *)

(** Tab, line feed, vertical tab, form feed, carriage return, space, and
    the no-break space. *)
Definition is_space (c : ascii) : bool := Ascii.is_space c || Ascii.eqb c "160".

(** [str.split(sep)] for a one-character separator. *)
Fixpoint split_on (sep : ascii) (s : string) : list string :=
  match s with
  | EmptyString => [EmptyString]
  | String c rest =>
      if Ascii.eqb c sep then EmptyString :: split_on sep rest
      else
        match split_on sep rest with
        | piece :: pieces => String c piece :: pieces
        | [] => [String c EmptyString]
        end
  end.

(** [str.trim()] *)
Fixpoint trim_start (s : string) : string :=
  match s with
  | EmptyString => EmptyString
  | String c rest => if is_space c then trim_start rest else s
  end.

Fixpoint trim_end (s : string) : string :=
  match s with
  | EmptyString => EmptyString
  | String c rest =>
      match trim_end rest with
      | EmptyString => if is_space c then EmptyString else String c EmptyString
      | rest' => String c rest'
      end
  end.

Definition trim (s : string) : string := trim_end (trim_start s).

(** [str.startsWith("#")] *)
Definition startsWith_hash (s : string) : bool :=
  match s with
  | String c _ => Ascii.eqb c "#"
  | EmptyString => false
  end.

(** [str.split(/\s+/)]: the pieces between runs of white space, an empty
    piece standing before a leading run and after a trailing one. *)
Fixpoint split_whitespace_from (s : string) (piece : string) (in_run : bool) : list string :=
  match s with
  | EmptyString => [String.rev piece]
  | String c rest =>
      if is_space c then
        if in_run then split_whitespace_from rest piece true
        else String.rev piece :: split_whitespace_from rest EmptyString true
      else split_whitespace_from rest (String c piece) false
  end.

Definition split_whitespace (s : string) : list string :=
  split_whitespace_from s EmptyString false.

(** The four regular expressions, each tested at the start of the line:
    [/^v\s/], [/^vn\s/], [/^vt\s/], [/^f\s/]. *)
Definition VERT (line : string) : bool :=
  match line with
  | String a (String b _) => Ascii.eqb a "v" && is_space b
  | _ => false
  end.

Definition NORM (line : string) : bool :=
  match line with
  | String a (String b (String c _)) => Ascii.eqb a "v" && Ascii.eqb b "n" && is_space c
  | _ => false
  end.

Definition UV (line : string) : bool :=
  match line with
  | String a (String b (String c _)) => Ascii.eqb a "v" && Ascii.eqb b "t" && is_space c
  | _ => false
  end.

Definition FACE (line : string) : bool :=
  match line with
  | String a (String b _) => Ascii.eqb a "f" && is_space b
  | _ => false
  end.

(** *** Numbers

    What [loadOBJ] asks of numbers: [Number(str)], the literals 0 and 1.0,
    the value arithmetic gives to [undefined], three operations, and the
    array index a number selects when used as a property key (if any). *)
Class JSNumber (num : Type) := {
  Number : string -> num;
  zero : num;
  one : num;
  nan : num;
  sub : num -> num -> num;
  mul : num -> num -> num;
  div : num -> num -> num;
  index : num -> option nat
}.

Section Parser.

Context {num : Type} `{JSNumber num}.

Local Infix "-" := sub.
Local Infix "*" := mul.
Local Infix "/" := div.

(** *** First loop: the lines *)

Record parsed := Parsed {
  vertexData : list (list num);
  uvData : list (list num);
  normalData : list (list num);
  faces : list (list string);
  polyCount : nat
}.

Definition start : parsed :=
  Parsed [[zero; zero; zero]] [[zero; zero]] [[zero; zero; zero]] [] 0.

(** The body of [for (let line of lines)]; [tail] is [tokens.shift()]. *)
Definition parse_line (p : parsed) (line0 : string) : parsed :=
  let line := trim line0 in
  if decide (line = EmptyString) then p
  else if startsWith_hash line then p
  else
    let tokens := tail (split_whitespace line) in
    if VERT line then
      Parsed (vertexData p ++ [map Number tokens]) (uvData p) (normalData p)
             (faces p) (polyCount p)
    else if NORM line then
      Parsed (vertexData p) (uvData p) (normalData p ++ [map Number tokens])
             (faces p) (polyCount p)
    else if UV line then
      Parsed (vertexData p) (uvData p ++ [map Number tokens]) (normalData p)
             (faces p) (polyCount p)
    else if FACE line then
      Parsed (vertexData p) (uvData p) (normalData p)
             (faces p ++ [tokens]) (S (polyCount p))
    else p.

Definition parse (OBJString : string) : parsed :=
  fold_left parse_line (split_on "010" OBJString) start.

(** *** Second loop: the faces *)

(** [data[key]], where [key] is itself the result of an array access and
    may be [undefined]; [None] is [undefined]. *)
Definition at_key {A : Type} (data : list A) (key : option num) : option A :=
  match key with
  | Some x =>
      match index x with
      | Some i => data !! i
      | None => None
      end
  | None => None
  end.

(** [v[i]] as an operand of arithmetic. *)
Definition component (v : list num) (i : nat) : num := default nan (v !! i).

(** [face[i].split("/").map(str => Number(str))] *)
Definition indices (corner : string) : list num := map Number (split_on "/" corner).

(** The three values pushed on [tangentArr] by one round of the inner
    loop. *)
Definition tangent_of (v0 v1 v2 u0 u1 u2 : list num) : list num :=
  let edge1 := [component v1 0 - component v0 0; component v1 1 - component v0 1;
                component v1 2 - component v0 2] in
  let edge2 := [component v2 0 - component v0 0; component v2 1 - component v0 1;
                component v2 2 - component v0 2] in
  let uv1 := [component u1 0 - component u0 0; component u1 1 - component u0 1] in
  let uv2 := [component u2 0 - component u0 0; component u2 1 - component u0 1] in
  let inv := one / (component uv1 0 * component uv2 1 - component uv2 0 * component uv1 1) in
  [inv * (component uv2 1 * component edge1 0 - component uv1 1 * component edge2 0);
   inv * (component uv2 1 * component edge1 1 - component uv1 1 * component edge2 1);
   inv * (component uv2 1 * component edge1 2 - component uv1 1 * component edge2 2)].

Record arrays := Arrays {
  vertexArr : list num;
  uvArr : list num;
  normalArr : list num;
  tangentArr : list num
}.

(** The data one face refers to: [None] when a corner is missing or an
    index selects nothing, where spreading [undefined] throws. *)
Record corners := Corners {
  c_v0 : list num; c_v1 : list num; c_v2 : list num;
  c_u0 : list num; c_u1 : list num; c_u2 : list num;
  c_n0 : list num; c_n1 : list num; c_n2 : list num
}.

Definition retrieve (p : parsed) (face : list string) : option corners :=
  a ← face !! 0%nat; b ← face !! 1%nat; c ← face !! 2%nat;
  let A := indices a in
  let B := indices b in
  let C := indices c in
  v0 ← at_key (vertexData p) (A !! 0%nat);
  v1 ← at_key (vertexData p) (B !! 0%nat);
  v2 ← at_key (vertexData p) (C !! 0%nat);
  u0 ← at_key (uvData p) (A !! 1%nat);
  u1 ← at_key (uvData p) (B !! 1%nat);
  u2 ← at_key (uvData p) (C !! 1%nat);
  n0 ← at_key (normalData p) (A !! 2%nat);
  n1 ← at_key (normalData p) (B !! 2%nat);
  n2 ← at_key (normalData p) (C !! 2%nat);
  Some (Corners v0 v1 v2 u0 u1 u2 n0 n1 n2).

(** The body of [for (let face of faces)] once the data is retrieved. *)
Definition push_corners (acc : arrays) (k : corners) : arrays :=
  Arrays
    (vertexArr acc ++ c_v0 k ++ c_v1 k ++ c_v2 k)
    (uvArr acc ++ c_u0 k ++ c_u1 k ++ c_u2 k)
    (normalArr acc ++ c_n0 k ++ c_n1 k ++ c_n2 k)
    (fold_left
       (fun arr (n : nat) =>
          arr ++ tangent_of (c_v0 k) (c_v1 k) (c_v2 k) (c_u0 k) (c_u1 k) (c_u2 k))
       (seq 0 3) (tangentArr acc)).

(** What one face contributes to each array. *)
Definition face_tangent (k : corners) : list num :=
  tangent_of (c_v0 k) (c_v1 k) (c_v2 k) (c_u0 k) (c_u1 k) (c_u2 k).

Definition face_positions (k : corners) : list num := c_v0 k ++ c_v1 k ++ c_v2 k.
Definition face_uvs (k : corners) : list num := c_u0 k ++ c_u1 k ++ c_u2 k.
Definition face_normals (k : corners) : list num := c_n0 k ++ c_n1 k ++ c_n2 k.
Definition face_tangents (k : corners) : list num :=
  face_tangent k ++ face_tangent k ++ face_tangent k.

(** Corners that carry three positions, three normals and two texture
    coordinates each. *)
Definition shaped (k : corners) : Prop :=
  (length (c_v0 k) = 3 /\ length (c_v1 k) = 3 /\ length (c_v2 k) = 3)
  /\ (length (c_u0 k) = 2 /\ length (c_u1 k) = 2 /\ length (c_u2 k) = 2)
  /\ (length (c_n0 k) = 3 /\ length (c_n1 k) = 3 /\ length (c_n2 k) = 3).

Fixpoint build (p : parsed) (fs : list (list string)) (acc : arrays) : option arrays :=
  match fs with
  | [] => Some acc
  | face :: rest =>
      match retrieve p face with
      | Some k => build p rest (push_corners acc k)
      | None => None
      end
  end.

(** *** The function *)

Record result := Result {
  position : list num;
  normal : list num;
  uv : list num;
  tangent : list num;
  count : nat
}.

(** [None]: an exception was thrown. *)
Definition loadOBJ (OBJString : string) : option result :=
  let p := parse OBJString in
  match build p (faces p) (Arrays [] [] [] []) with
  | Some a => Some (Result (vertexArr a) (normalArr a) (uvArr a) (tangentArr a) (polyCount p))
  | None => None
  end.

(** *** Well-formed triangulated input

    A line is a face line when, trimmed, it begins with [f] and white space.
    The input is well formed when every [v] and [vn] record has three
    numbers and every [vt] record two, and every face has three corners, each
    of which selects a position, a texture coordinate and a normal. *)
Definition is_face_line (line : string) : bool := FACE (trim line).

Definition corner_selects (p : parsed) (corner : string) : bool :=
  let I := indices corner in
  bool_decide (is_Some (at_key (vertexData p) (I !! 0%nat)))
  && bool_decide (is_Some (at_key (uvData p) (I !! 1%nat)))
  && bool_decide (is_Some (at_key (normalData p) (I !! 2%nat))).

Definition well_formed (OBJString : string) : bool :=
  let p := parse OBJString in
  forallb (fun v => Nat.eqb (length v) 3) (vertexData p)
  && forallb (fun v => Nat.eqb (length v) 2) (uvData p)
  && forallb (fun v => Nat.eqb (length v) 3) (normalData p)
  && forallb (fun face => Nat.eqb (length face) 3 && forallb (corner_selects p) face)
       (faces p).

End Parser.

(** *** An interpretation to compute with

    Finite numbers are exact rationals and [None] is every other value
    ([NaN], the infinities).  [Number] reads decimal literals (sign, digits,
    fraction, exponent); the empty string is 0. *)

Fixpoint take_digits (s : string) : list nat * string :=
  match s with
  | String c rest =>
      match Ascii.is_nat c with
      | Some d => let '(ds, r) := take_digits rest in (d :: ds, r)
      | None => ([], s)
      end
  | EmptyString => ([], EmptyString)
  end.

Definition digits_value (ds : list nat) : Z :=
  fold_left (fun a d => 10 * a + Z.of_nat d)%Z ds 0%Z.

Definition take_sign (s : string) : Z * string :=
  match s with
  | String c r =>
      if Ascii.eqb c "-" then ((-1)%Z, r)
      else if Ascii.eqb c "+" then (1%Z, r)
      else (1%Z, s)
  | EmptyString => (1%Z, s)
  end.

Definition decimal (s0 : string) : option Q :=
  let s := trim s0 in
  if decide (s = EmptyString) then Some 0%Q
  else
    let '(sign, s1) := take_sign s in
    let '(ip, s2) := take_digits s1 in
    let '(fp, s3) :=
      match s2 with
      | String c r => if Ascii.eqb c "." then take_digits r else ([], s2)
      | EmptyString => ([], s2)
      end in
    match ip ++ fp with
    | [] => None
    | ds =>
        let mantissa :=
          (inject_Z (sign * digits_value ds) / inject_Z (10 ^ Z.of_nat (length fp)))%Q in
        match s3 with
        | EmptyString => Some mantissa
        | String e r =>
            if Ascii.eqb e "e" || Ascii.eqb e "E" then
              let '(esign, r1) := take_sign r in
              match take_digits r1 with
              | (d :: ds', EmptyString) =>
                  Some (mantissa * 10 ^ (esign * digits_value (d :: ds')))%Q
              | _ => None
              end
            else None
        end
    end.

Definition lift2 (f : Q -> Q -> Q) (a b : option Q) : option Q :=
  match a, b with
  | Some x, Some y => Some (f x y)
  | _, _ => None
  end.

Definition finite_div (a b : option Q) : option Q :=
  match a, b with
  | Some x, Some y => if Qeq_bool y 0 then None else Some (x / y)%Q
  | _, _ => None
  end.

Definition finite_index (a : option Q) : option nat :=
  match a with
  | Some x =>
      let r := Qred x in
      if Pos.eqb (Qden r) 1 && Z.leb 0 (Qnum r) then Some (Z.to_nat (Qnum r)) else None
  | None => None
  end.

#[export] Instance finite : JSNumber (option Q) := {|
  Number := decimal;
  zero := Some 0%Q;
  one := Some 1%Q;
  nan := None;
  sub := lift2 Qminus;
  mul := lift2 Qmult;
  div := finite_div;
  index := finite_index
|}.

(** A square of two triangles that share the corners 1 and 3; the texture
    is stretched over the second triangle. *)
Definition newline : string := String "010" EmptyString.

Definition square : string :=
  String.concat newline
    ["# a square"; "v 0 0 0"; "v 1 0 0"; "v 1 1 0"; "v 0 1 0";
     "vt 0 0"; "vt 1 0"; "vt 1 1"; "vt 0 2";
     "vn 0 0 1"; "";
     "f 1/1/1 2/2/1 3/3/1";
     "  f 1/1/1 3/3/1 4/4/1  "]%string.

End OBJ.

(** ** OrbitController: the view matrix, entry by entry

    [getViewMatrix()] with the values of [Math.cos] and [Math.sin] at the
    pitch and at the yaw given as arguments.  [None]: the rotation centre is
    not a triple, and an entry would be computed from [undefined]. *)

Module OrbitView.

Import GLMatrix.
Local Open Scope Q_scope.

Definition getViewMatrix (cosX sinX cosY sinY : Q) (o : OrbitController.t)
  : option (list Q) :=
  match OrbitController.rotationCenter o with
  | [c0; c1; c2] =>
      let view := [cosY; sinX * sinY; - cosX * sinY; 0;
                   0; cosX; sinX; 0;
                   sinY; - sinX * cosY; cosX * cosY; 0;
                   0; 0; 0; 1] in
      let at_ (i : nat) : Q := nth i view 0 in
      let view12 := c0 - at_ 0%nat * c0 - at_ 4%nat * c1 - at_ 8%nat * c2 in
      let view13 := c1 - at_ 1%nat * c0 - at_ 5%nat * c1 - at_ 9%nat * c2 in
      let view14 := (c2 - at_ 2%nat * c0 - at_ 6%nat * c1 - at_ 10%nat * c2)
                    - OrbitController.boomLength o in
      Some (<[14%nat := view14]> (<[13%nat := view13]> (<[12%nat := view12]> view)))
  | _ => None
  end.

(** A point through a matrix stored as glMatrix stores it (column after
    column, the translation in entries 12 to 14), for a matrix whose last
    row is 0 0 0 1. *)
Definition transform (m : list Q) (p : vec3) : vec3 :=
  let at_ (i : nat) : Q := nth i m 0 in
  Vec3 (at_ 0%nat * v0 p + at_ 4%nat * v1 p + at_ 8%nat * v2 p + at_ 12%nat)
       (at_ 1%nat * v0 p + at_ 5%nat * v1 p + at_ 9%nat * v2 p + at_ 13%nat)
       (at_ 2%nat * v0 p + at_ 6%nat * v1 p + at_ 10%nat * v2 p + at_ 14%nat).

(** The square of the distance between two points. *)
Definition distance2 (p q : vec3) : Q :=
  (v0 p - v0 q) * (v0 p - v0 q) + (v1 p - v1 q) * (v1 p - v1 q)
  + (v2 p - v2 q) * (v2 p - v2 q).

End OrbitView.

(** ** OrbitController: the pointer handlers

    A pointer position is the event's [clientX], [clientY] with the
    [left], [top] of [canvas.getBoundingClientRect()] when the handler runs.
    The registration of listeners is left to the browser: the handlers are
    given as the functions the listeners run.  Numbers are doubles. *)

Module OrbitEvents.

Import PrimFloat OrbitController64.
Local Open Scope float_scope.

Record pointer := Pointer {
  clientX : float;
  clientY : float;
  bounds_left : float;
  bounds_top : float
}.

Definition with_pointer (x y : float) (held started : bool) (o : t) : t :=
  mk (pitch o) x (pitchSpd o) (pitchMax o) (yaw o) y (yawSpd o)
     (boomLength o) (rotationCenter o) held started.

Definition with_flags (held started : bool) (o : t) : t :=
  mk (pitch o) (pitchRot o) (pitchSpd o) (pitchMax o) (yaw o) (yawRot o) (yawSpd o)
     (boomLength o) (rotationCenter o) held started.

(** [onMouseDown(event)] *)
Definition onMouseDown (e : pointer) (o : t) : t :=
  if mouseHeld o then o
  else with_pointer (clientX e - bounds_left e) (clientY e - bounds_top e)
         true (touchStarted o) o.

(** [onMouseDrag(event)] *)
Definition onMouseDrag (e : pointer) (o : t) : t :=
  if negb (mouseHeld o) then o
  else handleRotate (clientX e - bounds_left e) (clientY e - bounds_top e) o.

(** [onMouseUp(event)] *)
Definition onMouseUp (o : t) : t :=
  if negb (mouseHeld o) then o else with_flags false (touchStarted o) o.

(** [onTouchCancel()] *)
Definition onTouchCancel (o : t) : t :=
  if touchStarted o then with_flags (mouseHeld o) false o else o.

(** [onTouchStart(event)], [touches] standing for [event.touches]. *)
Definition onTouchStart (touches : list pointer) (o : t) : t :=
  match touches with
  | [e] => with_pointer (clientX e - bounds_left e) (clientY e - bounds_top e)
             (mouseHeld o) true o
  | _ => onTouchCancel o
  end.

(** [onTouchMove(event)] *)
Definition onTouchMove (touches : list pointer) (o : t) : t :=
  match touches with
  | [e] =>
      if negb (touchStarted o) then onTouchCancel o
      else handleRotate (clientX e - bounds_left e) (clientY e - bounds_top e) o
  | _ => onTouchCancel o
  end.

(** [onTouchEnd(event)] *)
Definition onTouchEnd (o : t) : t := onTouchCancel o.

End OrbitEvents.

(** ** Cameras: the inherited [setLookAt], and sequences of calls *)

Module Cameras.

Import GLMatrix.
Local Open Scope Q_scope.

(** [Camera.setLookAt(x, y, z)] on a perspective camera. *)
Definition Perspective_setLookAt (x y z : Q) (c : PerspectiveCamera.t) : PerspectiveCamera.t :=
  PerspectiveCamera.mk (PerspectiveCamera.position c) (Vec3 x y z)
    (PerspectiveCamera.viewMatrix c) (PerspectiveCamera.cameraMatrix c)
    (PerspectiveCamera.projectionMatrix c) (PerspectiveCamera.aspect c)
    (PerspectiveCamera.fov c) (PerspectiveCamera.zNear c) (PerspectiveCamera.zFar c)
    (PerspectiveCamera.orbit c).

(** [Camera.setLookAt(x, y, z)] on an orthographic camera. *)
Definition Orthographic_setLookAt (x y z : Q) (c : OrthographicCamera.t) : OrthographicCamera.t :=
  OrthographicCamera.mk (OrthographicCamera.position c) (Vec3 x y z)
    (OrthographicCamera.viewMatrix c) (OrthographicCamera.cameraMatrix c)
    (OrthographicCamera.projectionMatrix c)
    (OrthographicCamera.width c) (OrthographicCamera.height c)
    (OrthographicCamera.left c) (OrthographicCamera.right c)
    (OrthographicCamera.bottom c) (OrthographicCamera.top c).

(** The methods an orthographic camera answers to, each with the window at
    the time of the call when it reads it. *)
Inductive ortho_call :=
| SetPosition (x y z : Q)
| SetLookAt (x y z : Q)
| SetOrthographic (win : Window.t) (width height : Q)
| OnWindowResize (win : Window.t)
| Update.

Definition ortho_step (s : OrthographicCamera.t * Attributes.t) (c : ortho_call)
  : OrthographicCamera.t * Attributes.t :=
  match c with
  | SetPosition x y z => (OrthographicCamera.setPosition x y z (fst s), snd s)
  | SetLookAt x y z => (Orthographic_setLookAt x y z (fst s), snd s)
  | SetOrthographic win w h => (OrthographicCamera.setOrthographic win w h (fst s), snd s)
  | OnWindowResize win => (OrthographicCamera.onWindowResize win (fst s), snd s)
  | Update => OrthographicCamera.update (snd s) (fst s)
  end.

Definition ortho_run (cs : list ortho_call) (s : OrthographicCamera.t * Attributes.t)
  : OrthographicCamera.t * Attributes.t :=
  fold_left ortho_step cs s.

End Cameras.

(** ** What is bound when a call is issued

    The framebuffer and the program that are current when each call of a
    sequence reaches WebGL: draw calls write to that framebuffer with that
    program, and [uniform*] calls set uniforms of that program. *)

Module Bound.

Definition t : Type := option nat * option nat.

Definition program (b : t) : option nat := snd b.

Definition track (b : t) (c : GL.command) : t :=
  match c with
  | GL.bindFramebuffer fbo => (fbo, snd b)
  | GL.useProgram p => (fst b, Some p)
  | _ => b
  end.

Fixpoint annotate (cs : list GL.command) (b : t) : list (t * GL.command) :=
  match cs with
  | [] => []
  | c :: rest => (b, c) :: annotate rest (track b c)
  end.

(** The draw calls of a sequence, each with what it is issued under. *)
Definition draws (cs : list GL.command) (b : t) : list (t * GL.command) :=
  List.filter (fun bc => GL.is_draw (snd bc)) (annotate cs b).

(** The location a [uniform*] call writes to, when it has one. *)
Definition uniform_target (c : GL.command) : option GL.uniform_location :=
  match c with
  | GL.uniformMatrix4fv l _ => l
  | GL.uniform3fv l _ => l
  | GL.uniform1i l _ => l
  | _ => None
  end.

(** Calls that neither draw nor change what is bound. *)
Definition plain (c : GL.command) : bool :=
  match c with
  | GL.bindFramebuffer _ | GL.useProgram _ => false
  | _ => negb (GL.is_draw c)
  end.

(** Calls that allocate no storage, attach nothing, set no texture parameter,
    leave the viewport and the renderbuffer binding alone and unbind no
    texture. *)
Definition steady (c : GL.command) : bool :=
  match c with
  | GL.viewport _ _ _ _ | GL.bindRenderbuffer _ | GL.renderbufferStorage_DEPTH24 _ _
  | GL.framebufferRenderbuffer_DEPTH _ | GL.framebufferTexture2D _ _
  | GL.texImage2D_RGBA32F _ _ | GL.texImage2D_RGBA_pixel | GL.texParameteri_NEAREST
  | GL.bindTexture None => false
  | _ => true
  end.

(** The calls of [MeshInstance.bind] that follow [useProgram]: the
    matrices, the camera position and the textures of the material. *)
Definition instance_uniforms (hp : gmap nat Material.t) (a : Attributes.t)
  (m : MeshInstance.t) : list GL.command :=
  GLShader.setMatrices (Attributes.projectionMatrix a)
    (GLMatrix.mat4_fromRotationTranslationScale (MeshInstance.rotation m)
       (MeshInstance.position m) (MeshInstance.scale m))
    (GLMatrix.mat4_multiply (Attributes.viewMatrix a)
       (GLMatrix.mat4_fromRotationTranslationScale (MeshInstance.rotation m)
          (MeshInstance.position m) (MeshInstance.scale m)))
    (MeshInstance.shader m)
  ++ GLShader.setUniformFloat3 (GL.floats_point (Attributes.cameraPosition a))
       "cameraPosition" (MeshInstance.shader m)
  ++ Material.bind (MeshInstance.shader m) (hp !!! MeshInstance.material m).

(** The uniform locations a shader holds are locations of its own program,
    which is what [GL.getUniformLocation(this.program, name)] answers. *)
Definition own_locations (sh : GLShader.t) : Prop :=
  forall name l, Dict.get name (GLShader.uniforms sh) = Some (Some l) ->
                 GL.ul_program l = GLShader.program sh.

(** A call that sets a uniform sets one of the program that is current. *)
Definition on_program (bc : t * GL.command) : Prop :=
  forall l, uniform_target (snd bc) = Some l -> program (fst bc) = Some (GL.ul_program l).

End Bound.

(** ** What a draw call reads

    The state of WebGL that decides what a draw call shows: the bindings of
    [GLState], the program in use, and the integer and matrix uniforms as
    the [uniform*] calls leave them.  A [uniform*] call given no location,
    or a location of a program other than the one in use, changes nothing
    (WebGL ignores the first and raises INVALID_OPERATION on the second).
    The passthrough shader colours a fragment with
    [texture(baseTexture, UV)] and places a vertex at
    [projection * modelView * vec4(aPosition, 1.0)]. *)

Module DrawState.

Import GLMatrix.

#[global] Instance uniform_location_eq_dec : EqDecision GL.uniform_location.
Proof. solve_decision. Defined.

Record t := mk {
  gl : GLState.t;
  program : option nat;
  integers : GL.uniform_location -> option nat;
  matrices : GL.uniform_location -> option mat4
}.

Definition exec (s : t) (c : GL.command) : t :=
  match c with
  | GL.useProgram p => mk (gl s) (Some p) (integers s) (matrices s)
  | GL.uniform1i (Some l) i =>
      if decide (program s = Some (GL.ul_program l))
      then mk (gl s) (program s)
              (fun l' => if decide (l' = l) then Some i else integers s l') (matrices s)
      else s
  | GL.uniformMatrix4fv (Some l) m =>
      if decide (program s = Some (GL.ul_program l))
      then mk (gl s) (program s) (integers s)
              (fun l' => if decide (l' = l) then Some m else matrices s l')
      else s
  | _ => mk (GLState.exec (gl s) c) (program s) (integers s) (matrices s)
  end.

Definition run (cs : list GL.command) (s : t) : t := fold_left exec cs s.

(** The draw calls of a sequence, in order, each with the state in which
    it is issued. *)
Fixpoint draws (cs : list GL.command) (s : t) : list (t * GL.command) :=
  match cs with
  | [] => []
  | c :: rest =>
      if GL.is_draw c then (s, c) :: draws rest (exec s c) else draws rest (exec s c)
  end.

(** The texture a [sampler2D] uniform reads from: the one bound to the
    texture unit the uniform holds. *)
Definition sampled (l : GL.uniform_location) (s : t) : option nat :=
  integers s l ≫= fun u => GLState.texture_binding (gl s) !! u.

(** Distinct keys of a shader hold distinct locations: those of uniforms of
    distinct names. *)
Definition distinct_locations (sh : GLShader.t) : Prop :=
  forall k k' l, GLShader.uniform k sh = Some l -> GLShader.uniform k' sh = Some l -> k = k'.

(** A call that sets no uniform and changes no program. *)
Definition no_uniform (c : GL.command) : bool :=
  match c with
  | GL.useProgram _ | GL.uniform1i _ _ | GL.uniformMatrix4fv _ _ => false
  | _ => true
  end.

(** What [Bound] tracks. *)
Definition bound (s : t) : Bound.t := (GLState.framebuffer_binding (gl s), program s).

(** A context in which no program is in use and no uniform is set. *)
Definition start (g : GLState.t) : t := mk g None (fun _ => None) (fun _ => None).

End DrawState.

(** ** A running page

    The window and the world of the renderer, under the events the page
    reacts to: the window is resized (the listener of the constructor runs),
    a frame is requested ([renderScene] runs in the window as it is), a
    control of the panel writes one of the three settings of the attribute
    bag, or the page changes the scene (meshes and lights added, moved,
    shown or hidden). *)

Module Session.

Import Renderer.

Record t := mk { window : Window.t; world : Renderer.world }.

Inductive event :=
| Resized (win : Window.t)
| Animated
| Set_drawGbuffer (b : bool)
| Set_lightAmbience (v : Q)
| Set_lightIntensity (v : Q)
| Scene_changed (sc : Scene.t).

Definition with_attributes (a : Attributes.t) (x : Renderer.world) : Renderer.world :=
  let r := w_renderer x in
  World (Renderer.mk (init r) a (textures r) (materials r) (heap r) (scene r) (shaders r)
           (gBuffer r) (camera r) (postCamera r) (bufferQuad r) (defferedQuad r))
        (w_canvas x) (w_gl x).

Definition handle (s : t) (e : event) : t :=
  let a := attributes (w_renderer (world s)) in
  match e with
  | Resized win => mk win (on_resize win (world s))
  | Animated => mk (window s) (on_frame (window s) (world s))
  | Set_drawGbuffer b =>
      mk (window s)
         (with_attributes
            (Attributes.mk b (Attributes.lightAmbience a) (Attributes.lightIntensity a)
               (Attributes.projectionMatrix a) (Attributes.viewMatrix a)
               (Attributes.cameraMatrix a) (Attributes.cameraPosition a))
            (world s))
  | Set_lightAmbience v =>
      mk (window s)
         (with_attributes
            (Attributes.mk (Attributes.drawGbuffer a) v (Attributes.lightIntensity a)
               (Attributes.projectionMatrix a) (Attributes.viewMatrix a)
               (Attributes.cameraMatrix a) (Attributes.cameraPosition a))
            (world s))
  | Set_lightIntensity v =>
      mk (window s)
         (with_attributes
            (Attributes.mk (Attributes.drawGbuffer a) (Attributes.lightAmbience a) v
               (Attributes.projectionMatrix a) (Attributes.viewMatrix a)
               (Attributes.cameraMatrix a) (Attributes.cameraPosition a))
            (world s))
  | Scene_changed sc =>
      mk (window s)
         (World (with_scene sc (w_renderer (world s))) (w_canvas (world s))
            (w_gl (world s)))
  end.

Definition play (es : list event) (s : t) : t := fold_left handle es s.

(** The page once [new Renderer()] has returned. *)
Definition start (win : Window.t) (sh : shaders_t)
  (hpos halb hnrm hmat hdepth hfbo addr b1 b2 b3 : nat) : t :=
  let built := Renderer.new win sh hpos halb hnrm hmat hdepth hfbo addr b1 b2 b3 in
  mk win (World (fst (fst built)) (snd (fst built))
            (GLState.run (snd built) GLState.initial)).

(** The canvas, the viewport, the depth buffer and every colour attachment
    of the G-buffer have the size of the window. *)
Definition sized (s : t) : Prop :=
  let size := (Window.innerWidth (window s), Window.innerHeight (window s)) in
  let r := w_renderer (world s) in
  let gl := w_gl (world s) in
  w_canvas (world s) = Canvas (fst size) (snd size)
  /\ GLState.viewport_box gl = (0, 0, fst size, snd size)%Q
  /\ GLState.renderbuffer_size gl !! depth (gBuffer r) = Some size
  /\ (forall tex, attached r gl tex -> GLState.texture_size gl !! tex = Some size).

(** What holds of a page from the constructor on. *)
Definition invariant (s : t) : Prop :=
  init (w_renderer (world s)) = true
  /\ attachments_grouped (world s)
  /\ sized s.

End Session.

(** ** The shaders, as far as the renderer has to agree with them *)

Module GBufferShader.

(** The outputs of the fragment shader of [gbuffer.js],
    [layout(location = i) out ... out_Frag<Channel>], by location, under the
    key the G-buffer material has for the channel. *)
Definition outputs : list (nat * string) :=
  [(0%nat, "position"); (1%nat, "albedo"); (2%nat, "normal"); (3%nat, "material")]%string.

(** Output [i] of the shader lands in the texture the G-buffer material
    holds under the key of its channel. *)
Definition wired (x : Renderer.world) : Prop :=
  forall i k, In (i, k) outputs ->
    exists t,
      Dict.get k (Material.textures
                    (Renderer.heap (Renderer.w_renderer x)
                     !!! Renderer.gb_material (Renderer.gBuffer (Renderer.w_renderer x))))
      = Some t
      /\ GLState.color_attachment (Renderer.w_gl x)
         !! (Renderer.FBO (Renderer.gBuffer (Renderer.w_renderer x)), i)
         = Some (Texture.index t).

End GBufferShader.

Module DeferredShader.

Import Renderer.
Local Open Scope Q_scope.

(** [uniform vec3 lights[100]] *)
Definition capacity : nat := 100.

(** The uniform as the shader sees it after [uniform3fv(location, arr)]:
    element [e] of the hundred, zero where nothing was uploaded; [None]
    outside the array. *)
Definition lights (arr : list Q) (e : Z) : option (list Q) :=
  if decide (0 <= e < Z.of_nat capacity)%Z then
    Some (if decide (Z.to_nat e < length arr / 3)%nat
          then element (Z.to_nat e) arr else [0; 0; 0])
  else None.

(** [int(x)] of a float: toward zero. *)
Definition int (x : Q) : Z := Z.quot (Qnum x) (Z.pos (Qden x)).

Record light := Light { lightPos : list Q; lightColor : list Q; lightAtten : list Q }.

(** The values of [i] at which the body of
    [for (int i = 1; i < count; i++)] begins, the body raising [i] twice
    ([lights[i++]], [lights[i++]], [lights[i]]).  [None]: more turns than
    [fuel]. *)
Fixpoint turns (fuel : nat) (i count : Z) : option (list Z) :=
  if (i <? count)%Z then
    match fuel with
    | O => None
    | S fuel' => cons i <$> turns fuel' (i + 3)%Z count
    end
  else Some [].

(** What one turn reads: position, colour divided by 255, attenuation. *)
Definition turn (arr : list Q) (i : Z) : option light :=
  match lights arr i, lights arr (i + 1)%Z, lights arr (i + 2)%Z with
  | Some p, Some c, Some a => Some (Light p (map (fun x => x / 255) c) a)
  | _, _, _ => None
  end.

(** [params = lights[0]], its components, and the lights of the loop.  The
    outer [None]: out of fuel; the inner one: a read outside the array. *)
Definition count (arr : list Q) : Z :=
  match lights arr 0 with
  | Some (x :: _) => int x
  | _ => 0%Z
  end.

Definition main_lights (fuel : nat) (arr : list Q) : option (option (list light)) :=
  mapM (turn arr) <$> turns fuel 1 (count arr).

(** What the loop should make of a light of the scene. *)
Definition shaded (l : Light.t) : light :=
  Light (Light.position l) (map (fun x => x / 255) (Light.color l)) (Light.attenuation l).

End DeferredShader.

(** ** The records of an OBJ file, by kind *)

Module OBJRecords.

Import OBJ.

Inductive kind := Ignored | Vertex | Normal | TexCoord | Face.

Definition kind_eqb (a b : kind) : bool :=
  match a, b with
  | Ignored, Ignored | Vertex, Vertex | Normal, Normal | TexCoord, TexCoord | Face, Face => true
  | _, _ => false
  end.

(** What the first loop takes a line for: the tests of its body in their
    order. *)
Definition kind_of (line0 : string) : kind :=
  let line := trim line0 in
  if decide (line = EmptyString) then Ignored
  else if startsWith_hash line then Ignored
  else if VERT line then Vertex
  else if NORM line then Normal
  else if UV line then TexCoord
  else if FACE line then Face
  else Ignored.

(** [tokens] after [tokens.shift()]. *)
Definition tokens (line0 : string) : list string := tail (split_whitespace (trim line0)).

(** The lines of one kind, in the order of the file. *)
Definition of_kind (k : kind) (lines : list string) : list string :=
  List.filter (fun line => kind_eqb (kind_of line) k) lines.

(** [OBJString.split("\n")] *)
Definition lines (OBJString : string) : list string := split_on "010" OBJString.

(** Field [j] of a corner [v/vt/vn] selects a record of [data]: the field,
    read as a number, is an index of [data], and the record is the entry
    there. *)
Definition selects {num : Type} `{JSNumber num} (data : list (list num)) (corner : string)
  (j : nat) (record : list num) : Prop :=
  exists (field : string) (i : nat),
    split_on "/" corner !! j = Some field
    /\ index (Number field) = Some i
    /\ data !! i = Some record.

End OBJRecords.

(** The arithmetic of [loadOBJ], written infix. *)
Declare Scope js_scope.
Delimit Scope js_scope with js.
Infix "-" := OBJ.sub : js_scope.
Infix "*" := OBJ.mul : js_scope.
Infix "/" := OBJ.div : js_scope.

(** ** The cube of [cubeVerts], vertex by vertex *)

Module CubeGeometry.
Local Open Scope Q_scope.

(** Vertex [i] of a flat array of triples, and of pairs. *)
Definition vertex3 (arr : list Q) (i : nat) : Q * Q * Q :=
  (nth (3 * i) arr 0, nth (3 * i + 1) arr 0, nth (3 * i + 2) arr 0).

Definition vertex2 (arr : list Q) (i : nat) : Q * Q :=
  (nth (2 * i) arr 0, nth (2 * i + 1) arr 0).

Definition dot (a b : Q * Q * Q) : Q :=
  let '(ax, ay, az) := a in let '(bx, b_y, bz) := b in ax * bx + ay * b_y + az * bz.

Definition minus (a b : Q * Q * Q) : Q * Q * Q :=
  let '(ax, ay, az) := a in let '(bx, b_y, bz) := b in (ax - bx, ay - b_y, az - bz).

Definition cross (a b : Q * Q * Q) : Q * Q * Q :=
  let '(ax, ay, az) := a in let '(bx, b_y, bz) := b in
  (ay * bz - az * b_y, az * bx - ax * bz, ax * b_y - ay * bx).

Definition scaled (k : Q) (a : Q * Q * Q) : Q * Q * Q :=
  let '(ax, ay, az) := a in (k * ax, k * ay, k * az).

Definition same (a b : Q * Q * Q) : Prop :=
  let '(ax, ay, az) := a in let '(bx, b_y, bz) := b in ax == bx /\ ay == b_y /\ az == bz.

(** The four arrays [main.js] asks for. *)
Definition arrays_of (size : Q) : list Q * list Q * list Q * list Q :=
  let get (type : string) := default [] (Cube.cubeVerts type size) in
  (get "position", get "normal", get "tangent", get "uv").

(** The tangent the formula of [loadOBJ] gives triangle [t] of the cube. *)
Definition derived_tangent (size : Q) (t : nat) : list (option Q) :=
  let '(pos, _, _, uv) := arrays_of size in
  let p (i : nat) := let '(x, y, z) := vertex3 pos (3 * t + i) in [Some x; Some y; Some z] in
  let u (i : nat) := let '(a, b) := vertex2 uv (3 * t + i) in [Some a; Some b] in
  @OBJ.tangent_of _ OBJ.finite (p 0%nat) (p 1%nat) (p 2%nat) (u 0%nat) (u 1%nat) (u 2%nat).

End CubeGeometry.

(** ** Changes of the scene between frames *)

Module Animation.

(** A sequence of method calls on one instance, [m[name](...args)] one after
    the other; [None] as soon as one of them throws. *)
Definition calls (steps : list (string * list Q)) (m : MeshInstance.t)
  : option MeshInstance.t :=
  fold_left (fun acc step => acc ≫= MeshInstance.call (fst step) (snd step)) steps (Some m).

(** The names of the methods that move, turn or scale the instance and
    touch nothing else: those of the prototype other than [setBaseTexture],
    which writes to the material the instance shares, and [bind] and
    [draw], which call into WebGL. *)
Definition transform (name : string) : bool :=
  match MeshInstance.method name with
  | Some (MeshInstance.def_setPosition | MeshInstance.def_translate
         | MeshInstance.def_translateX_first | MeshInstance.def_translateY
         | MeshInstance.def_translateX_second | MeshInstance.def_rotateX
         | MeshInstance.def_rotateY | MeshInstance.def_rotateZ
         | MeshInstance.def_setScale) => true
  | _ => false
  end.


End Animation.

Module SceneLights.

(** What the page does to the lights of the scene: [scene.addLight], and the
    setters and the visibility switch on the light at a position of
    [scene.lights] (the objects [main.js] keeps are those of the array). *)
Inductive op :=
| AddLight (r g b : Q)
| SetColor (i : nat) (r g b : Q)
| SetPosition (i : nat) (x y z : Q)
| SetAttenuation (i : nat) (constant linear quadratic : Q)
| SetVisible (i : nat) (b : bool).

(** [None]: there is no light at that position, and the call is on
    [undefined]. *)
Definition step (ls : list Light.t) (o : op) : option (list Light.t) :=
  match o with
  | AddLight r g b => Some (Scene.lights (fst (Scene.addLight [r; g; b] (Scene.mk [] ls))))
  | SetColor i r g b => l ← ls !! i; Some (<[i := Light.setColor [r; g; b] l]> ls)
  | SetPosition i x y z => l ← ls !! i; Some (<[i := Light.setPosition x y z l]> ls)
  | SetAttenuation i c l' q =>
      l ← ls !! i; Some (<[i := Light.setAttenuation c l' q l]> ls)
  | SetVisible i b => l ← ls !! i; Some (<[i := Light.with_visible b l]> ls)
  end.

Definition run (ops : list op) (ls : list Light.t) : option (list Light.t) :=
  fold_left (fun acc o => acc ≫= fun ls' => step ls' o) ops (Some ls).

Definition is_add (o : op) : bool :=
  match o with AddLight _ _ _ => true | _ => false end.

End SceneLights.

(** ** Meshes built from [loadOBJ] *)

Module OBJMesh.

(** The numbers handed to [Float32Array]; a buffer is modelled by the number
    of its items only. *)
Definition floats (l : list (option Q)) : list Q := map (default 0%Q) l.

(** The mesh [main.js] builds from what [loadOBJ] returns, given four fresh
    buffer handles. *)
Definition of_result (b1 b2 b3 b4 : nat) (r : @OBJ.result (option Q)) : Mesh.t :=
  Mesh.addBuffer b4 (floats (OBJ.tangent r)) "tangent" 3
    (Mesh.addBuffer b3 (floats (OBJ.uv r)) "uv" 2
       (Mesh.addBuffer b2 (floats (OBJ.normal r)) "normal" 3
          (Mesh.addBuffer b1 (floats (OBJ.position r)) "position" 3
             (Mesh.mk Mesh.Mesh [])))).

End OBJMesh.

(** * Properties *)

(** ** Doubles: order, [Math.min], [Math.max], and [NaN] *)

Section SpecFloatOrder.

Import SpecFloat.

Ltac sf_cases :=
  cbv beta iota delta [SFcompare SFleb SFltb SFeqb SFopp option_map negb];
  repeat match goal with
         | |- context [PosDef.Pos.compare_cont Eq ?p ?q] =>
             change (PosDef.Pos.compare_cont Eq p q) with (Pos.compare p q)
         end.

Lemma SFcompare_antisym (x y : spec_float) :
  SFcompare y x = option_map CompOpp (SFcompare x y).
Proof.
  destruct x as [sx | sx | | sx mx ex], y as [sy | sy | | sy my ey]; sf_cases;
    try reflexivity;
    try (destruct sx; reflexivity); try (destruct sy; reflexivity);
    try (destruct sx, sy; reflexivity).
  rewrite (Z.compare_antisym ex ey), (Pos.compare_antisym mx my).
  destruct sx, sy; try reflexivity;
    destruct (ex ?= ey)%Z, (mx ?= my)%positive; reflexivity.
Qed.

Lemma SFcompare_opp (x y : spec_float) :
  SFcompare (SFopp x) (SFopp y) = SFcompare y x.
Proof.
  destruct x as [sx | sx | | sx mx ex], y as [sy | sy | | sy my ey]; sf_cases;
    try reflexivity;
    try (destruct sx; reflexivity); try (destruct sy; reflexivity);
    try (destruct sx, sy; reflexivity).
  rewrite (Z.compare_antisym ex ey), (Pos.compare_antisym mx my).
  destruct sx, sy; try reflexivity;
    destruct (ex ?= ey)%Z, (mx ?= my)%positive; reflexivity.
Qed.

Lemma SFcompare_refl (x : spec_float) :
  x <> S754_nan -> SFcompare x x = Some Eq.
Proof.
  destruct x as [sx | sx | | sx mx ex]; sf_cases; intros H; try reflexivity.
  - destruct sx; reflexivity.
  - congruence.
  - rewrite Z.compare_refl, Pos.compare_refl. destruct sx; reflexivity.
Qed.

Lemma SFleb_trans (x y z : spec_float) :
  SFleb x y = true -> SFleb y z = true -> SFleb x z = true.
Proof.
  destruct x as [sx | sx | | sx mx ex], y as [sy | sy | | sy my ey],
           z as [sz | sz | | sz mz ez]; sf_cases;
    try discriminate; try reflexivity;
    try (destruct sx; try discriminate; try reflexivity);
    try (destruct sy; try discriminate; try reflexivity);
    try (destruct sz; try discriminate; try reflexivity).
  all: destruct (Z.compare_spec ex ey), (Z.compare_spec ey ez), (Z.compare_spec ex ez);
    try discriminate; try reflexivity; try lia; subst.
  all: destruct (Pos.compare_spec mx my), (Pos.compare_spec my mz), (Pos.compare_spec mx mz);
    simpl; try discriminate; try reflexivity; try lia.
Qed.

End SpecFloatOrder.

Section DoubleOrder.

Import FloatClass PrimFloat FloatOps FloatAxioms SpecFloat Double.
Local Open Scope float_scope.

Lemma is_nan_spec (x : float) : is_nan x = true <-> Prim2SF x = S754_nan.
Proof.
  unfold is_nan. rewrite eqb_spec. unfold SFeqb.
  destruct (Prim2SF x) as [s | s | | s m e] eqn:Hx.
  - simpl. split; discriminate.
  - rewrite SFcompare_refl by discriminate. simpl. split; discriminate.
  - simpl. split; reflexivity.
  - rewrite SFcompare_refl by discriminate. simpl. split; discriminate.
Qed.

Lemma is_nan_false (x : float) : is_nan x = false <-> Prim2SF x <> S754_nan.
Proof.
  rewrite <- is_nan_spec. destruct (is_nan x); split; congruence.
Qed.

Lemma le_spec (a b : float) : le a b <-> SFleb (Prim2SF a) (Prim2SF b) = true.
Proof. unfold le. rewrite leb_spec. reflexivity. Qed.

Lemma le_not_nan (a b : float) : le a b -> is_nan a = false /\ is_nan b = false.
Proof.
  rewrite le_spec, !is_nan_false. unfold SFleb.
  destruct (Prim2SF a), (Prim2SF b); simpl; try discriminate; split; discriminate.
Qed.

Lemma le_refl (a : float) : is_nan a = false -> le a a.
Proof.
  rewrite le_spec, is_nan_false. intros H. unfold SFleb.
  rewrite SFcompare_refl by exact H. reflexivity.
Qed.

Lemma le_trans (a b c : float) : le a b -> le b c -> le a c.
Proof. rewrite !le_spec. apply SFleb_trans. Qed.

Lemma lt_le (a b : float) : (a <? b) = true -> le a b.
Proof.
  rewrite le_spec, ltb_spec. unfold SFltb, SFleb.
  destruct (SFcompare (Prim2SF a) (Prim2SF b)) as [[| |] |]; congruence.
Qed.

Lemma not_lt_le (a b : float) :
  is_nan a = false -> is_nan b = false -> (a <? b) = false -> le b a.
Proof.
  rewrite le_spec, ltb_spec, !is_nan_false. unfold SFltb, SFleb.
  rewrite (SFcompare_antisym (Prim2SF a) (Prim2SF b)).
  destruct (Prim2SF a), (Prim2SF b); simpl; try congruence;
    match goal with
    | |- context [match ?c with _ => _ end] => destruct c; simpl; congruence
    end.
Qed.

Lemma le_opp (a b : float) : le a b -> le (- b) (- a).
Proof.
  rewrite !le_spec, !opp_spec. unfold SFleb. rewrite SFcompare_opp. tauto.
Qed.

Lemma is_nan_opp (a : float) : is_nan (- a) = is_nan a.
Proof.
  apply eq_true_iff_eq. rewrite !is_nan_spec, opp_spec.
  destruct (Prim2SF a); simpl; split; congruence.
Qed.

Lemma neg_zero_spec (a : float) : is_neg_zero a = true <-> Prim2SF a = S754_zero true.
Proof.
  unfold is_neg_zero. rewrite classify_spec. unfold SF64classify, SFclassify.
  destruct (Prim2SF a) as [[|] | [|] | | [|] m e]; simpl;
    try (split; congruence);
    match goal with |- context [if ?c then _ else _] => destruct c end;
    split; congruence.
Qed.

Lemma pos_zero_spec (a : float) : is_pos_zero a = true <-> Prim2SF a = S754_zero false.
Proof.
  unfold is_pos_zero. rewrite classify_spec. unfold SF64classify, SFclassify.
  destruct (Prim2SF a) as [[|] | [|] | | [|] m e]; simpl;
    try (split; congruence);
    match goal with |- context [if ?c then _ else _] => destruct c end;
    split; congruence.
Qed.

Lemma zeros_le (a b : float) (s t : bool) :
  Prim2SF a = S754_zero s -> Prim2SF b = S754_zero t -> le a b.
Proof. rewrite le_spec. intros -> ->. reflexivity. Qed.

(** [Math.max] and [Math.min] of two numbers are one of them, and bound
    both. *)
Lemma Math_max_spec (a b : float) :
  is_nan a = false -> is_nan b = false ->
  (Math_max a b = a \/ Math_max a b = b)
  /\ le a (Math_max a b) /\ le b (Math_max a b).
Proof.
  intros Ha Hb. unfold Math_max. rewrite Ha, Hb. simpl.
  destruct (is_neg_zero a && is_pos_zero b) eqn:Hz.
  - apply andb_true_iff in Hz. destruct Hz as [Hza Hzb].
    apply neg_zero_spec in Hza. apply pos_zero_spec in Hzb.
    split; [right; reflexivity |]. split; [| apply le_refl; exact Hb].
    exact (zeros_le _ _ _ _ Hza Hzb).
  - destruct (a <? b) eqn:Hlt.
    + split; [right; reflexivity |]. split; [apply lt_le; exact Hlt | apply le_refl; exact Hb].
    + split; [left; reflexivity |]. split; [apply le_refl; exact Ha |].
      apply not_lt_le; assumption.
Qed.

Lemma Math_min_spec (a b : float) :
  is_nan a = false -> is_nan b = false ->
  (Math_min a b = a \/ Math_min a b = b)
  /\ le (Math_min a b) a /\ le (Math_min a b) b.
Proof.
  intros Ha Hb. unfold Math_min. rewrite Ha, Hb. simpl.
  destruct (is_pos_zero a && is_neg_zero b) eqn:Hz.
  - apply andb_true_iff in Hz. destruct Hz as [Hza Hzb].
    apply pos_zero_spec in Hza. apply neg_zero_spec in Hzb.
    split; [right; reflexivity |]. split; [| apply le_refl; exact Hb].
    exact (zeros_le _ _ _ _ Hzb Hza).
  - destruct (b <? a) eqn:Hlt.
    + split; [right; reflexivity |]. split; [apply lt_le; exact Hlt | apply le_refl; exact Hb].
    + split; [left; reflexivity |]. split; [apply le_refl; exact Ha |].
      apply not_lt_le; assumption.
Qed.

Lemma nan_is_nan : is_nan nan = true.
Proof. reflexivity. Qed.

Lemma Math_max_nan (a b : float) :
  is_nan (Math_max a b) = is_nan a || is_nan b.
Proof.
  destruct (is_nan a) eqn:Ha; [unfold Math_max; rewrite Ha; reflexivity |].
  destruct (is_nan b) eqn:Hb; [unfold Math_max; rewrite Ha, Hb; reflexivity |].
  destruct (Math_max_spec a b Ha Hb) as [[-> | ->] _]; simpl; assumption.
Qed.

Lemma Math_min_nan (a b : float) :
  is_nan (Math_min a b) = is_nan a || is_nan b.
Proof.
  destruct (is_nan a) eqn:Ha; [unfold Math_min; rewrite Ha; reflexivity |].
  destruct (is_nan b) eqn:Hb; [unfold Math_min; rewrite Ha, Hb; reflexivity |].
  destruct (Math_min_spec a b Ha Hb) as [[-> | ->] _]; simpl; assumption.
Qed.

(** The clamp of a number between ordered bounds lies between them; with
    [NaN] anywhere it is [NaN]. *)
Lemma clamp_nan (v lo hi : float) :
  is_nan (clamp v lo hi) = is_nan v || is_nan lo || is_nan hi.
Proof. unfold clamp. rewrite Math_min_nan, Math_max_nan. reflexivity. Qed.

Lemma clamp_between (v lo hi : float) :
  is_nan v = false -> le lo hi -> between lo (clamp v lo hi) hi.
Proof.
  intros Hv Hle. destruct (le_not_nan _ _ Hle) as [Hlo Hhi].
  unfold clamp, between.
  destruct (Math_max_spec v lo Hv Hlo) as (Hmax & _ & Hlomax).
  assert (Hm : is_nan (Math_max v lo) = false).
  { rewrite Math_max_nan, Hv, Hlo. reflexivity. }
  destruct (Math_min_spec (Math_max v lo) hi Hm Hhi) as (Hmin & _ & Hminhi).
  split; [| exact Hminhi].
  destruct Hmin as [-> | ->]; assumption.
Qed.

End DoubleOrder.

Section Rounding.

Import SpecFloat Double.
Variables prec emax : Z.

Lemma iter_pos_keeps {A : Type} (P : A -> Prop) (f : A -> A) :
  (forall x, P x -> P (f x)) -> forall n x, P x -> P (iter_pos f n x).
Proof.
  intros Hf. induction n as [n IH | n IH |]; intros x Hx; simpl; auto.
Qed.

Lemma shr_1_nonneg (mrs : shr_record) : (0 <= shr_m mrs)%Z -> (0 <= shr_m (shr_1 mrs))%Z.
Proof.
  destruct mrs as [m r s]. simpl.
  destruct m as [| [p | p |] | p]; simpl; lia.
Qed.

Lemma shr_fexp_nonneg (m e : Z) (l : location) :
  (0 <= m)%Z -> (0 <= shr_m (fst (shr_fexp prec emax m e l)))%Z.
Proof.
  intros Hm. unfold shr_fexp, shr.
  assert (H0 : (0 <= shr_m (shr_record_of_loc m l))%Z).
  { destruct l as [| [| |]]; exact Hm. }
  destruct (fexp prec emax (Zdigits2 m + e) - e)%Z; simpl; try exact H0.
  apply (iter_pos_keeps (fun r => 0 <= shr_m r)%Z); [exact shr_1_nonneg | exact H0].
Qed.

Lemma round_nearest_even_nonneg (m : Z) (l : location) :
  (0 <= m)%Z -> (0 <= round_nearest_even m l)%Z.
Proof.
  intros Hm. destruct l as [| [| |]]; simpl; try lia.
  destruct (Z.even m); lia.
Qed.

Lemma binary_round_aux_not_nan (sx : bool) (mx ex : Z) (lx : location) :
  (0 <= mx)%Z -> binary_round_aux prec emax sx mx ex lx <> S754_nan.
Proof.
  intros Hm. unfold binary_round_aux.
  pose proof (shr_fexp_nonneg mx ex lx Hm) as H1.
  destruct (shr_fexp prec emax mx ex lx) as [mrs' e']. simpl in H1.
  pose proof (shr_fexp_nonneg _ e' loc_Exact
                (round_nearest_even_nonneg _ (loc_of_shr_record mrs') H1)) as H2.
  destruct (shr_fexp prec emax _ e' loc_Exact) as [mrs'' e'']. simpl in H2.
  destruct (shr_m mrs'') as [| p | p]; try discriminate; [| lia].
  destruct (e'' <=? emax - prec)%Z; discriminate.
Qed.

Lemma binary_normalize_not_nan (m e : Z) (szero : bool) :
  binary_normalize prec emax m e szero <> S754_nan.
Proof.
  unfold binary_normalize, binary_round.
  destruct m as [| p | p]; try discriminate;
    match goal with
    | |- context [shl_align ?a ?b ?c] => destruct (shl_align a b c) as [mz ez]
    end; apply binary_round_aux_not_nan; lia.
Qed.

Lemma SFadd_not_nan (x y : spec_float) :
  SFfinite x = true -> y <> S754_nan -> SFadd prec emax x y <> S754_nan.
Proof.
  destruct x as [sx | sx | | sx mx ex], y as [sy | sy | | sy my ey]; simpl;
    try discriminate; try congruence;
    try (destruct sx, sy; discriminate).
  intros _ _. apply binary_normalize_not_nan.
Qed.

Lemma SFsub_not_nan (x y : spec_float) :
  SFfinite x = true -> y <> S754_nan -> SFsub prec emax x y <> S754_nan.
Proof.
  destruct x as [sx | sx | | sx mx ex], y as [sy | sy | | sy my ey]; simpl;
    try discriminate; try congruence;
    try (destruct sx, sy; discriminate).
  intros _ _. apply binary_normalize_not_nan.
Qed.

Lemma SFmul_not_nan (x y : spec_float) :
  SFfinite x = true -> SFnonzero x = true -> y <> S754_nan ->
  SFmul prec emax x y <> S754_nan.
Proof.
  destruct x as [sx | sx | | sx mx ex], y as [sy | sy | | sy my ey]; simpl;
    try discriminate; try congruence.
  intros _ _ _. apply binary_round_aux_not_nan. lia.
Qed.

Lemma SFmul_not_nan_r (x y : spec_float) :
  SFfinite y = true -> SFnonzero y = true -> x <> S754_nan ->
  SFmul prec emax x y <> S754_nan.
Proof.
  destruct x as [sx | sx | | sx mx ex], y as [sy | sy | | sy my ey]; simpl;
    try discriminate; try congruence.
  intros _ _ _. apply binary_round_aux_not_nan. lia.
Qed.

Lemma SFleb_finite (lo x hi : spec_float) :
  SFfinite lo = true -> SFfinite hi = true ->
  SFleb lo x = true -> SFleb x hi = true -> SFfinite x = true.
Proof.
  destruct lo as [sl | sl | | sl ml el], x as [sx | sx | | sx mx ex],
           hi as [sh | sh | | sh mh eh]; simpl; try discriminate; try reflexivity;
    unfold SFleb; simpl; destruct sx; discriminate.
Qed.

End Rounding.

Section DoubleArithmetic.

Import FloatClass PrimFloat FloatOps FloatAxioms SpecFloat Double.
Local Open Scope float_scope.

Lemma is_finite_spec (x : float) : is_finite x = true <-> SFfinite (Prim2SF x) = true.
Proof.
  unfold is_finite, is_infinity. rewrite negb_true_iff, orb_false_iff, is_nan_false.
  rewrite eqb_spec, abs_spec.
  change (Prim2SF infinity) with (S754_infinity false).
  destruct (Prim2SF x) as [s | s | | s m e]; unfold SFeqb; simpl.
  - split; [reflexivity | split; [discriminate | reflexivity]].
  - split; [intros [_ H]; discriminate H | discriminate].
  - split; [intros [H _]; congruence | discriminate].
  - split; [reflexivity | split; [discriminate | reflexivity]].
Qed.

Lemma is_zero_spec (x : float) : is_zero x = false <-> SFnonzero (Prim2SF x) = true.
Proof.
  unfold is_zero. rewrite eqb_spec.
  change (Prim2SF zero) with (S754_zero false).
  destruct (Prim2SF x) as [s | s | | s m e]; unfold SFeqb; simpl;
    try (split; congruence); destruct s; split; congruence.
Qed.

Lemma is_finite_nonzero_spec (x : float) :
  is_finite_nonzero x = true ->
  SFfinite (Prim2SF x) = true /\ SFnonzero (Prim2SF x) = true.
Proof.
  unfold is_finite_nonzero. rewrite andb_true_iff, negb_true_iff.
  rewrite is_finite_spec, is_zero_spec. tauto.
Qed.

Lemma is_finite_not_nan (x : float) : is_finite x = true -> is_nan x = false.
Proof.
  unfold is_finite. rewrite negb_true_iff, orb_false_iff. tauto.
Qed.

Lemma add_not_nan (a b : float) :
  is_finite a = true -> is_nan b = false -> is_nan (a + b) = false.
Proof.
  rewrite is_finite_spec, !is_nan_false, add_spec. apply SFadd_not_nan.
Qed.

Lemma sub_not_nan (a b : float) :
  is_finite a = true -> is_nan b = false -> is_nan (a - b) = false.
Proof.
  rewrite is_finite_spec, !is_nan_false, sub_spec. apply SFsub_not_nan.
Qed.

Lemma mul_not_nan (a b : float) :
  is_finite_nonzero a = true -> is_nan b = false -> is_nan (a * b) = false.
Proof.
  intros Ha. apply is_finite_nonzero_spec in Ha. destruct Ha as [Hf Hz].
  rewrite !is_nan_false, mul_spec. apply SFmul_not_nan; assumption.
Qed.

Lemma mul_not_nan_r (a b : float) :
  is_finite_nonzero b = true -> is_nan a = false -> is_nan (a * b) = false.
Proof.
  intros Hb. apply is_finite_nonzero_spec in Hb. destruct Hb as [Hf Hz].
  rewrite !is_nan_false, mul_spec. apply SFmul_not_nan_r; assumption.
Qed.

Lemma between_finite (lo x hi : float) :
  is_finite lo = true -> is_finite hi = true -> between lo x hi -> is_finite x = true.
Proof.
  unfold between. rewrite !is_finite_spec, !le_spec.
  intros Hlo Hhi [H1 H2]. exact (SFleb_finite _ _ _ Hlo Hhi H1 H2).
Qed.

Lemma is_finite_opp (a : float) : is_finite (- a) = is_finite a.
Proof.
  apply eq_true_iff_eq. rewrite !is_finite_spec, opp_spec.
  destruct (Prim2SF a); simpl; tauto.
Qed.

(** A number between two zeros is a zero. *)
Lemma between_zeros (lo x hi : float) :
  (lo =? 0) = true -> (hi =? 0) = true -> between lo x hi -> (x =? 0) = true.
Proof.
  unfold between. rewrite !eqb_spec, !le_spec.
  change (Prim2SF 0) with (S754_zero false).
  destruct (Prim2SF lo) as [sl | sl | | sl ml el], (Prim2SF x) as [sx | sx | | sx mx ex],
           (Prim2SF hi) as [sh | sh | | sh mh eh]; unfold SFeqb, SFleb; simpl;
    try discriminate; try reflexivity;
    repeat match goal with s : bool |- _ => destruct s end;
    try discriminate; try reflexivity; intros _ _ [? ?]; discriminate.
Qed.

Lemma eq_zero_opp (a : float) : (a =? 0) = true -> (- a =? 0) = true.
Proof.
  rewrite !eqb_spec, opp_spec.
  change (Prim2SF 0) with (S754_zero false).
  destruct (Prim2SF a) as [s | s | | s m e]; unfold SFeqb; simpl;
    try discriminate; try reflexivity; destruct s; discriminate.
Qed.

Lemma zero_le_opp (a : float) : le 0 a -> le (- a) a.
Proof.
  rewrite !le_spec, opp_spec.
  change (Prim2SF 0) with (S754_zero false).
  destruct (Prim2SF a) as [s | s | | s m e]; unfold SFleb; simpl;
    try discriminate; try reflexivity; destruct s; try discriminate; reflexivity.
Qed.

Lemma eq_zero_le (a b : float) : (a =? 0) = true -> (b =? 0) = true -> le a b.
Proof.
  rewrite !eqb_spec, le_spec.
  change (Prim2SF 0) with (S754_zero false).
  destruct (Prim2SF a) as [s | s | | s m e], (Prim2SF b) as [t | t | | t n f];
    unfold SFeqb, SFleb; simpl; try discriminate; try reflexivity;
    try (destruct s; discriminate); try (destruct t; discriminate).
Qed.

End DoubleArithmetic.

(** ** Orbit controller: clamps and bounds *)

Section OrbitBounds.

Import PrimFloat Double OrbitController64.
Local Open Scope float_scope.

Lemma Math_min_between (x lo hi : float) :
  le lo hi -> le lo x -> between lo (Math_min x hi) hi.
Proof.
  intros Hle Hx.
  destruct (le_not_nan _ _ Hle) as [_ Hhi]. destruct (le_not_nan _ _ Hx) as [_ Hxn].
  destruct (Math_min_spec x hi Hxn Hhi) as (Hmin & _ & Hminhi).
  split; [| exact Hminhi]. destruct Hmin as [-> | ->]; assumption.
Qed.

Lemma Math_min_between_l (x lo hi : float) :
  le lo hi -> le lo x -> between lo (Math_min hi x) hi.
Proof.
  intros Hle Hx.
  destruct (le_not_nan _ _ Hle) as [_ Hhi]. destruct (le_not_nan _ _ Hx) as [_ Hxn].
  destruct (Math_min_spec hi x Hhi Hxn) as (Hmin & Hminhi & _).
  split; [| exact Hminhi]. destruct Hmin as [-> | ->]; assumption.
Qed.

Lemma handleZoom_boom (d : float) (o : t) :
  is_nan (boomLength o + d * 0.2) = false -> boom_in_bounds (handleZoom d o).
Proof.
  intros Hv. unfold boom_in_bounds, handleZoom; simpl.
  apply Math_min_between; [reflexivity |].
  apply (Math_max_spec 80 _ eq_refl Hv).
Qed.

Lemma handleZoom_boom_nan (d : float) (o : t) :
  is_nan (boomLength o + d * 0.2) = true -> is_nan (boomLength (handleZoom d o)) = true.
Proof.
  intros Hv. unfold handleZoom; simpl.
  rewrite Math_min_nan, Math_max_nan, Hv. reflexivity.
Qed.

Lemma handleRotate_pitch (vx vy : float) (o : t) :
  le (- pitchMax o) (pitchMax o) ->
  is_nan (pitch o + pitchSpd o * (vy - yawRot o)) = false ->
  pitch_in_bounds (handleRotate vx vy o).
Proof.
  intros Hmax Hv. unfold pitch_in_bounds, handleRotate; simpl.
  apply clamp_between; assumption.
Qed.

Lemma handleRotate_pitch_nan (vx vy : float) (o : t) :
  is_nan (pitch o + pitchSpd o * (vy - yawRot o)) = true ->
  is_nan (pitch (handleRotate vx vy o)) = true.
Proof.
  intros Hv. unfold handleRotate; simpl. rewrite clamp_nan, Hv. reflexivity.
Qed.

Lemma drive_pitchMax (cs : list call) (o : t) :
  pitchMax (drive cs o) = pitchMax o /\ pitchSpd (drive cs o) = pitchSpd o.
Proof.
  unfold drive. revert o. induction cs as [| c cs IH]; intros o; [split; reflexivity |].
  simpl. destruct (IH (step o c)) as [-> ->]. destruct c; split; reflexivity.
Qed.

Lemma step_nan_or_bounds (o : t) (c : call) :
  le (- pitchMax o) (pitchMax o) ->
  is_nan (pitch o) = true \/ pitch_in_bounds o ->
  is_nan (boomLength o) = true \/ boom_in_bounds o ->
  (is_nan (pitch (step o c)) = true \/ pitch_in_bounds (step o c))
  /\ (is_nan (boomLength (step o c)) = true \/ boom_in_bounds (step o c)).
Proof.
  intros Hmax Hp Hb. destruct c as [vx vy | d].
  - split; [| exact Hb].
    destruct (is_nan (pitch o + pitchSpd o * (vy - yawRot o))) eqn:Hv.
    + left. apply handleRotate_pitch_nan. exact Hv.
    + right. apply handleRotate_pitch; assumption.
  - split; [exact Hp |].
    destruct (is_nan (boomLength o + d * 0.2)) eqn:Hv.
    + left. apply handleZoom_boom_nan. exact Hv.
    + right. apply handleZoom_boom. exact Hv.
Qed.

Lemma drive_nan_or_bounds (cs : list call) (o : t) :
  le (- pitchMax o) (pitchMax o) ->
  is_nan (pitch o) = true \/ pitch_in_bounds o ->
  is_nan (boomLength o) = true \/ boom_in_bounds o ->
  (is_nan (pitch (drive cs o)) = true \/ pitch_in_bounds (drive cs o))
  /\ (is_nan (boomLength (drive cs o)) = true \/ boom_in_bounds (drive cs o)).
Proof.
  unfold drive. revert o.
  induction cs as [| c cs IH]; intros o Hmax Hp Hb; simpl.
  - split; assumption.
  - destruct (step_nan_or_bounds o c Hmax Hp Hb) as [Hp' Hb'].
    apply IH; try assumption. destruct c; exact Hmax.
Qed.

Lemma step_numeric (o : t) (c : call) :
  is_finite_nonzero (pitchSpd o) = true -> is_finite (pitchMax o) = true ->
  is_finite (yawRot o) = true -> numeric c = true ->
  pitch_in_bounds o -> boom_in_bounds o ->
  pitch_in_bounds (step o c) /\ boom_in_bounds (step o c)
  /\ is_finite (yawRot (step o c)) = true.
Proof.
  intros Hspd Hmax Hrot Hc Hp Hb.
  destruct c as [vx vy | d]; simpl in Hc |- *.
  - split; [| split; [exact Hb | exact Hc]].
    apply handleRotate_pitch.
    + exact (le_trans _ _ _ (proj1 Hp) (proj2 Hp)).
    + apply add_not_nan.
      * apply (between_finite _ _ _) with (3 := Hp); [| exact Hmax].
        rewrite is_finite_opp. exact Hmax.
      * apply mul_not_nan; [exact Hspd |].
        apply sub_not_nan; [exact Hc | apply is_finite_not_nan; exact Hrot].
  - split; [exact Hp |]. split; [| exact Hrot].
    apply handleZoom_boom. apply add_not_nan.
    + apply (between_finite 80 _ 500); [reflexivity | reflexivity | exact Hb].
    + apply mul_not_nan_r; [reflexivity |].
      apply negb_true_iff. exact Hc.
Qed.

Lemma drive_numeric (cs : list call) (o : t) :
  is_finite_nonzero (pitchSpd o) = true -> is_finite (pitchMax o) = true ->
  is_finite (yawRot o) = true -> forallb numeric cs = true ->
  pitch_in_bounds o -> boom_in_bounds o ->
  pitch_in_bounds (drive cs o) /\ boom_in_bounds (drive cs o).
Proof.
  unfold drive. revert o.
  induction cs as [| c cs IH]; intros o Hspd Hmax Hrot Hcs Hp Hb; simpl.
  - split; assumption.
  - simpl in Hcs. apply andb_true_iff in Hcs. destruct Hcs as [Hc Hcs].
    destruct (step_numeric o c Hspd Hmax Hrot Hc Hp Hb) as (Hp' & Hb' & Hrot').
    apply IH; try assumption; destruct c; assumption.
Qed.

(** C4. Starting with the pitch within [[-pitchMax, pitchMax]] and the boom
    length within [[80, 500]], after every sequence of [handleRotate] and
    [handleZoom] calls, whatever their arguments, the pitch is [NaN] or
    within [[-pitchMax, pitchMax]] and the boom length is [NaN] or within
    [[80, 500]]; neither is [NaN], so both are within their bounds, when the
    pitch speed is finite and not zero, the limit and the stored vertical
    reference are finite, every vertical coordinate given is finite and every
    wheel delta is a number. *)
Theorem drive_stays_in_bounds (cs : list call) (o : t) :
  pitch_in_bounds o -> boom_in_bounds o ->
  let o' := drive cs o in
  pitchMax o' = pitchMax o
  /\ (is_nan (pitch o') = true \/ pitch_in_bounds o')
  /\ (is_nan (boomLength o') = true \/ boom_in_bounds o')
  /\ (is_finite_nonzero (pitchSpd o) = true -> is_finite (pitchMax o) = true ->
      is_finite (yawRot o) = true -> forallb numeric cs = true ->
      pitch_in_bounds o' /\ boom_in_bounds o').
Proof.
  intros Hp Hb o'. subst o'.
  split; [apply drive_pitchMax |].
  assert (Hmax : le (- pitchMax o) (pitchMax o)).
  { exact (le_trans _ _ _ (proj1 Hp) (proj2 Hp)). }
  destruct (drive_nan_or_bounds cs o Hmax (or_intror Hp) (or_intror Hb)) as [Hp' Hb'].
  split; [exact Hp' |]. split; [exact Hb' |].
  intros Hspd Hfin Hrot Hcs. apply drive_numeric; assumption.
Qed.

Lemma drive_stays_in_bounds_witness :
  pitch_in_bounds (drive [Rotate 0 100000; Zoom 5000; Rotate 3 (-100000); Zoom (-9000)]
                     (new 300))
  /\ boom_in_bounds (drive [Rotate 0 100000; Zoom 5000; Rotate 3 (-100000); Zoom (-9000)]
                       (new 300)).
Proof.
  apply (drive_stays_in_bounds
           [Rotate 0 100000; Zoom 5000; Rotate 3 (-100000); Zoom (-9000)] (new 300));
    try reflexivity; split; reflexivity.
Defined.

(** C4, as stated, fails.  With pitch speed 0, two finite vertical
    coordinates whose difference overflows leave the pitch [NaN]; a wheel
    delta that is [NaN] leaves the boom length [NaN]; and so does the pitch
    after a vertical coordinate that is [NaN], with the speeds of the
    constructor.  [NaN] is within no bounds. *)
Theorem drive_leaves_bounds :
  let o := setSpeed 0 0.2 (new 300) in
  let cs := [Rotate 0 (-1.7e308); Rotate 0 1.7e308; Zoom nan] in
  pitch_in_bounds o /\ boom_in_bounds o
  /\ ~ pitch_in_bounds (drive cs o) /\ ~ boom_in_bounds (drive cs o)
  /\ ~ pitch_in_bounds (drive [Rotate 0 nan] (new 300)).
Proof.
  cbv zeta. split; [split; reflexivity |]. split; [split; reflexivity |].
  split; [| split]; intros [H _]; vm_compute in H; discriminate H.
Qed.

(** C9. [setRotations] assigns the yaw as given and clamps the requested
    pitch between minus the current pitch and the current pitch; the
    configured [pitchMax] plays no part.  A controller whose pitch is 0
    keeps a pitch that is 0 for every requested pitch that is a number, and
    gets the pitch [NaN] when [NaN] is requested. *)
Theorem setRotations_clamps_by_current_pitch (p y : float) (o : t) :
  yaw (setRotations p y o) = y
  /\ pitch (setRotations p y o) = Math_min (Math_max p (- pitch o)) (pitch o)
  /\ (forall o', pitch o' = pitch o ->
        pitch (setRotations p y o') = pitch (setRotations p y o))
  /\ (is_nan p = false -> le 0 (pitch o) ->
        between (- pitch o) (pitch (setRotations p y o)) (pitch o))
  /\ (is_nan p = false -> (pitch o =? 0) = true ->
        (pitch (setRotations p y o) =? 0) = true)
  /\ (is_nan p = true -> is_nan (pitch (setRotations p y o)) = true).
Proof.
  split; [reflexivity |]. split; [reflexivity |].
  split; [intros o' Ho'; simpl; rewrite Ho'; reflexivity |].
  split; [| split].
  - intros Hp Hpos. simpl. apply clamp_between; [exact Hp |].
    apply zero_le_opp. exact Hpos.
  - intros Hp H0. simpl.
    apply (between_zeros (- pitch o) _ (pitch o)); [apply eq_zero_opp; exact H0 | exact H0 |].
    apply clamp_between; [exact Hp |].
    apply eq_zero_le; [apply eq_zero_opp; exact H0 | exact H0].
  - intros Hp. simpl. rewrite clamp_nan, Hp. reflexivity.
Qed.

Lemma setRotations_clamps_by_current_pitch_witness :
  (pitch (setRotations 45 10 (new 300)) =? 0) = true.
Proof.
  apply (setRotations_clamps_by_current_pitch 45 10 (new 300)); reflexivity.
Defined.

(** C9, as stated, fails for the argument [NaN]: a controller whose pitch
    is 0, asked for the pitch [NaN], gets the pitch [NaN], which is not 0. *)
Theorem setRotations_nan_is_kept :
  let o := new 300 in
  (pitch o =? 0) = true
  /\ is_nan (pitch (setRotations nan 10 o)) = true
  /\ (pitch (setRotations nan 10 o) =? 0) = false.
Proof. cbv zeta. repeat split; reflexivity. Qed.

(** A controller dragged to pitch 80 whose limit is then lowered to 10 is
    set to pitch 50 by [setRotations 50 0]: the limit is not consulted. *)
Example setRotations_beyond_pitchMax :
  let o := setPitchMax 10 (handleRotate 0 400 (new 300)) in
  pitch o = 80 /\ pitchMax o = 10 /\ pitch (setRotations 50 0 o) = 50.
Proof. cbv zeta. repeat split; reflexivity. Qed.

(** X3. [setPitchMax] leaves the pitch as it is and stores a limit
    between 0 and 89 for every limit that is a number, [NaN] when given
    [NaN].  After it the next [handleRotate] leaves a pitch that is [NaN] or
    within the limit, hence within 89 degrees, wherever the pitch was
    before; the pitch is within the limit, and not [NaN], when the pitch
    before, the vertical coordinate and the stored reference are finite and
    the pitch speed is finite and not zero.  With the limit [NaN] the next
    [handleRotate] leaves the pitch [NaN]. *)
Theorem setPitchMax_limits_next_rotation (m vx vy : float) (o : t) :
  let o1 := setPitchMax m o in
  let o2 := handleRotate vx vy o1 in
  pitch o1 = pitch o
  /\ (is_nan m = true -> is_nan (pitchMax o1) = true /\ is_nan (pitch o2) = true)
  /\ (is_nan m = false ->
      between 0 (pitchMax o1) 89
      /\ (is_nan (pitch o2) = true
          \/ (pitch_in_bounds o2 /\ between (-89) (pitch o2) 89))
      /\ (is_finite (pitch o) = true -> is_finite_nonzero (pitchSpd o) = true ->
          is_finite vy = true -> is_finite (yawRot o) = true ->
          pitch_in_bounds o2 /\ between (-89) (pitch o2) 89)).
Proof.
  cbv zeta. split; [reflexivity |]. split.
  - intros Hm. simpl. rewrite clamp_nan, Math_min_nan, Math_max_nan, Hm.
    split; [reflexivity |]. rewrite !orb_true_r. reflexivity.
  - intros Hm.
    assert (Hlim : between 0 (pitchMax (setPitchMax m o)) 89).
    { simpl. apply Math_min_between_l; [reflexivity |].
      apply (Math_max_spec 0 m eq_refl Hm). }
    split; [exact Hlim |].
    assert (Hmax : le (- pitchMax (setPitchMax m o)) (pitchMax (setPitchMax m o))).
    { apply zero_le_opp. apply Hlim. }
    assert (Hwide : forall x, between (- pitchMax (setPitchMax m o)) x
                                (pitchMax (setPitchMax m o)) ->
                              between (-89) x 89).
    { intros x [Hlo Hhi]. split.
      - apply le_trans with (2 := Hlo). apply (le_opp _ 89). apply Hlim.
      - apply le_trans with (1 := Hhi). apply Hlim. }
    split.
    + destruct (is_nan (pitch (setPitchMax m o)
                        + pitchSpd (setPitchMax m o) * (vy - yawRot (setPitchMax m o))))
        eqn:Hv.
      * left. apply handleRotate_pitch_nan. exact Hv.
      * right. pose proof (handleRotate_pitch vx vy _ Hmax Hv) as Hb.
        split; [exact Hb | apply Hwide; exact Hb].
    + intros Hfp Hspd Hvy Hrot.
      assert (Hb : pitch_in_bounds (handleRotate vx vy (setPitchMax m o))).
      { apply handleRotate_pitch; [exact Hmax |]. simpl.
        apply add_not_nan; [exact Hfp |].
        apply mul_not_nan; [exact Hspd |].
        apply sub_not_nan; [exact Hvy | apply is_finite_not_nan; exact Hrot]. }
      split; [exact Hb | apply Hwide; exact Hb].
Qed.

Lemma setPitchMax_limits_next_rotation_witness :
  between 0 (pitchMax (setPitchMax 1000 (new 300))) 89.
Proof.
  destruct (setPitchMax_limits_next_rotation 1000 0 0 (new 300)) as (_ & _ & H).
  destruct (H eq_refl) as [Hlim _]. exact Hlim.
Defined.

End OrbitBounds.

(** ** Orthographic camera *)

Section OrthographicFrustum.

Import OrthographicCamera.
Local Open Scope Q_scope.

Lemma gt_true (a b : Q) : b < a -> Num.gt a b = true.
Proof.
  intros H. unfold Num.gt. destruct (Qlt_le_dec b a) as [_ | Hle]; [reflexivity | lra].
Qed.

Lemma gt_false (a b : Q) : a <= b -> Num.gt a b = false.
Proof.
  intros H. unfold Num.gt. destruct (Qlt_le_dec b a) as [Hlt | _]; [lra | reflexivity].
Qed.

Lemma setOrthographic_wide (w : Window.t) (width' height' : Q) (c : t) :
  Window.innerHeight w < Window.innerWidth w ->
  right (setOrthographic w width' height' c) = width' * 0.5
  /\ top (setOrthographic w width' height' c)
     = width' * (Window.innerHeight w / Window.innerWidth w) * 0.5.
Proof.
  intros H. unfold setOrthographic. rewrite (gt_true _ _ H). split; reflexivity.
Qed.

Lemma setOrthographic_tall (w : Window.t) (width' height' : Q) (c : t) :
  Window.innerWidth w <= Window.innerHeight w ->
  right (setOrthographic w width' height' c)
  = height' * (Window.innerWidth w / Window.innerHeight w) * 0.5
  /\ top (setOrthographic w width' height' c) = height' * 0.5.
Proof.
  intros H. unfold setOrthographic. rewrite (gt_false _ _ H). split; reflexivity.
Qed.

Lemma setOrthographic_symmetric (w : Window.t) (width' height' : Q) (c : t) :
  left (setOrthographic w width' height' c) = - right (setOrthographic w width' height' c)
  /\ bottom (setOrthographic w width' height' c) = - top (setOrthographic w width' height' c).
Proof.
  unfold setOrthographic.
  destruct (Num.gt (Window.innerWidth w) (Window.innerHeight w)); split; reflexivity.
Qed.




(** In a window 100 wide and 200 high a request for 50 by 80 yields a
    frustum 40 wide and 80 high: the height, the longer side, is kept. *)
Example setOrthographic_tall_window :
  let c := setOrthographic (Window.mk 100 200) 50 80 (new (Window.mk 100 200) 100 200) in
  frustum_width c == 40 /\ frustum_height c == 80.
Proof. vm_compute. split; reflexivity. Qed.

End OrthographicFrustum.

(** ** Dictionaries *)

Lemma dict_get_values {V : Type} (k : string) (v : V) (d : Dict.t V) :
  Dict.get k d = Some v -> In v (map snd d).
Proof.
  induction d as [| [k' v'] d IH]; simpl; [discriminate |].
  destruct (decide (k = k')) as [_ | _].
  - intros [= ->]. left; reflexivity.
  - intros H. right. apply IH, H.
Qed.

Lemma dict_get_set_ne {V : Type} (k k' : string) (v : V) (d : Dict.t V) :
  k <> k' -> Dict.get k (Dict.set k' v d) = Dict.get k d.
Proof.
  intros Hne. induction d as [| [k0 v0] d IH]; simpl.
  - destruct (decide (k = k')); [contradiction | reflexivity].
  - destruct (decide (k' = k0)) as [-> | Hk0]; simpl.
    + destruct (decide (k = k0)); [contradiction | reflexivity].
    + destruct (decide (k = k0)); [reflexivity | exact IH].
Qed.

Lemma dict_get_keys {V : Type} (k : string) (d : Dict.t V) :
  In k (Dict.keys d) -> exists v, Dict.get k d = Some v.
Proof.
  unfold Dict.keys. induction d as [| [k' v'] d IH]; simpl; [contradiction |].
  intros Hin. destruct (decide (k = k')) as [_ | Hne].
  - exists v'; reflexivity.
  - destruct Hin as [Heq | Hin]; [congruence | apply IH, Hin].
Qed.

(** ** Mesh instances *)

Section MeshInstanceMethods.

Import GLMatrix MeshInstance.
Local Open Scope Q_scope.

Lemma prototype_value :
  prototype =
  [("constructor", def_constructor); ("setBaseTexture", def_setBaseTexture);
   ("setPosition", def_setPosition); ("translate", def_translate);
   ("translateX", def_translateX_second); ("translateY", def_translateY);
   ("rotateX", def_rotateX); ("rotateY", def_rotateY); ("rotateZ", def_rotateZ);
   ("setScale", def_setScale); ("bind", def_bind); ("draw", def_draw)]%string.
Proof. vm_compute. reflexivity. Qed.

Lemma method_in_prototype (n : string) (d : member) :
  method n = Some d -> In d (map snd prototype).
Proof. unfold method. apply dict_get_values. Qed.

(** C10. [translateX] resolves to the second of its two definitions: calling
    it with [d] adds [d] to [position[2]] and leaves [position[0]] and
    [position[1]] alone.  The prototype has no [translateZ], the definition
    that adds to [position[0]] is bound to no name, and no method of one
    parameter changes [position[0]]. *)
Theorem translateX_adds_to_z (m : t) (d : Q) :
  method "translateX" = Some def_translateX_second
  /\ (exists m', call "translateX" [d] m = Some m'
        /\ v2 (position m') = v2 (position m) + d
        /\ v0 (position m') = v0 (position m)
        /\ v1 (position m') = v1 (position m))
  /\ method "translateZ" = None
  /\ (forall n, method n <> Some def_translateX_first)
  /\ (forall n k x m', method n = Some k -> arity k = 1%nat ->
        run k [x] m = Some m' -> v0 (position m') = v0 (position m)).
Proof.
  split; [vm_compute; reflexivity |].
  split.
  { exists (translateX_second d m). repeat split. }
  split; [vm_compute; reflexivity |].
  split.
  - intros n Hn. apply method_in_prototype in Hn.
    rewrite prototype_value in Hn. simpl in Hn.
    repeat (destruct Hn as [Hn | Hn]; [discriminate Hn |]). exact Hn.
  - intros n k x m' Hn Har Hrun. apply method_in_prototype in Hn.
    rewrite prototype_value in Hn. simpl in Hn.
    repeat (destruct Hn as [Hn | Hn];
            [subst k; simpl in Har, Hrun; try discriminate Har;
             injection Hrun as <-; reflexivity |]).
    contradiction.
Qed.

Lemma translateX_adds_to_z_witness :
  v0 (position (rotateY 90 (new (Mesh.mk Mesh.Mesh []) (GLShader.mk 0 [] []) 0 None)))
  = v0 (position (new (Mesh.mk Mesh.Mesh []) (GLShader.mk 0 [] []) 0 None)).
Proof.
  set (m := new (Mesh.mk Mesh.Mesh []) (GLShader.mk 0 [] []) 0 None).
  destruct (translateX_adds_to_z m 5) as (_ & _ & _ & _ & H).
  apply (H "rotateY"%string def_rotateY 90 (rotateY 90 m)); reflexivity.
Defined.

End MeshInstanceMethods.

(** ** The light uniform *)

Section LightUniform.

Import Renderer.
Local Open Scope Q_scope.

Lemma fold_add_light (lights : list Light.t) (arr : list Q) (k : Z) :
  fold_left add_light lights (arr, inject_Z k)
  = (arr ++ flat_map light_entries (visible_lights lights),
     inject_Z (k + Z.of_nat (length (visible_lights lights)))).
Proof.
  revert arr k. induction lights as [| l lights IH]; intros arr k; simpl.
  - rewrite app_nil_r, Z.add_0_r. reflexivity.
  - unfold add_light at 2, Light.addToArray. simpl.
    destruct (Light.visible l); simpl.
    + replace (inject_Z k + 1) with (inject_Z (k + 1)).
      2:{ unfold inject_Z, Qplus; simpl. f_equal. lia. }
      rewrite IH. unfold light_entries at 2. rewrite <- !app_assoc.
      f_equal. f_equal. lia.
    + replace (inject_Z k + 0) with (inject_Z k).
      2:{ unfold inject_Z, Qplus; simpl. f_equal. lia. }
      apply IH.
Qed.

Lemma lightArr_value (a : Attributes.t) (lights : list Light.t) :
  lightArr a lights
  = [inject_Z (3 * Z.of_nat (length (visible_lights lights)));
     (Attributes.lightAmbience a * 0.1 * 4) ^ 2;
     (1 - Attributes.lightIntensity a) * 0.1 + 0.001]
    ++ flat_map light_entries (visible_lights lights).
Proof.
  unfold lightArr. change 0 with (inject_Z 0) at 2.
  rewrite fold_add_light. simpl. f_equal.
  unfold inject_Z, Qmult; simpl. f_equal. lia.
Qed.

Lemma flat_map_drop_chunks {A B : Type} (f : A -> list B) (n : nat) (l : list A) (i : nat) :
  Forall (fun x => length (f x) = n) l ->
  drop (n * i) (flat_map f l) = flat_map f (drop i l).
Proof.
  intros Hall. revert i. induction Hall as [| x l Hx Hall IH]; intros i.
  - simpl. rewrite !drop_nil. reflexivity.
  - destruct i as [| i].
    + rewrite Nat.mul_0_r. reflexivity.
    + simpl. replace (n * S i)%nat with (length (f x) + n * i)%nat by lia.
      rewrite drop_app_add. apply IH.
Qed.

Lemma flat_map_length_chunks {A B : Type} (f : A -> list B) (n : nat) (l : list A) :
  Forall (fun x => length (f x) = n) l ->
  length (flat_map f l) = (n * length l)%nat.
Proof.
  induction 1 as [| x l Hx Hall IH]; simpl; [lia |].
  rewrite length_app, IH, Hx. lia.
Qed.

Lemma light_entries_length (l : Light.t) :
  Light.triples l -> length (light_entries l) = 9%nat.
Proof.
  intros (Hp & Hc & Ha). unfold light_entries. rewrite !length_app. lia.
Qed.

Lemma visible_lights_triples (lights : list Light.t) :
  Forall Light.triples lights ->
  Forall (fun l => length (light_entries l) = 9%nat) (visible_lights lights).
Proof.
  intros Hall. unfold visible_lights.
  induction Hall as [| l lights Hl Hall IH]; simpl; [constructor |].
  destruct (Light.visible l); [constructor; [apply light_entries_length, Hl | exact IH] | exact IH].
Qed.

Lemma visible_lights_idem (lights : list Light.t) :
  visible_lights (visible_lights lights) = visible_lights lights.
Proof.
  unfold visible_lights. induction lights as [| l lights IH]; simpl; [reflexivity |].
  destruct (Light.visible l) eqn:Hv; simpl; [rewrite Hv, IH; reflexivity | exact IH].
Qed.

Lemma visible_lights_skip (pre post : list Light.t) (l : Light.t) :
  Light.visible l = false ->
  visible_lights (pre ++ l :: post) = visible_lights (pre ++ post).
Proof.
  intros Hv. unfold visible_lights. rewrite !List.filter_app. simpl. rewrite Hv. reflexivity.
Qed.

Lemma lights_at (a : Attributes.t) (lights : list Light.t) (i : nat) (l : Light.t) :
  Forall Light.triples lights ->
  visible_lights lights !! i = Some l ->
  drop (3 + 9 * i) (lightArr a lights)
  = Light.position l ++ Light.color l ++ Light.attenuation l
    ++ flat_map light_entries (drop (S i) (visible_lights lights)).
Proof.
  intros Hall Hi. rewrite lightArr_value.
  change (3 + 9 * i)%nat with (S (S (S (9 * i)))).
  cbn [app drop].
  rewrite (flat_map_drop_chunks _ 9) by (apply visible_lights_triples, Hall).
  rewrite (drop_S _ _ _ Hi). simpl. unfold light_entries at 1.
  rewrite <- !app_assoc. reflexivity.
Qed.

(** C1. In the array that [renderScene] uploads as the uniform [lights],
    when every light carries three triples: the first component of element 0
    is three times the number of visible lights; the array has 3 + 9 numbers
    per visible light and nothing else; the i-th visible light fills
    elements 1+3i, 2+3i and 3+3i with its position, its colour as stored and
    its attenuation; and a light that is not visible changes nothing, neither
    the entries nor the count. *)
Theorem lightArr_serializes_visible_lights (a : Attributes.t) (lights : list Light.t) :
  Forall Light.triples lights ->
  let arr := lightArr a lights in
  let vis := visible_lights lights in
  arr !! 0%nat = Some (inject_Z (3 * Z.of_nat (length vis)))
  /\ length arr = (3 + 9 * length vis)%nat
  /\ drop 3 arr = flat_map light_entries vis
  /\ (forall i l, vis !! i = Some l ->
        element (1 + 3 * i) arr = Light.position l
        /\ element (2 + 3 * i) arr = Light.color l
        /\ element (3 + 3 * i) arr = Light.attenuation l)
  /\ arr = lightArr a vis
  /\ (forall pre l post, lights = pre ++ l :: post -> Light.visible l = false ->
        arr = lightArr a (pre ++ post)).
Proof.
  intros Hall arr vis. subst arr vis.
  split; [rewrite lightArr_value; reflexivity |].
  split.
  { rewrite lightArr_value, length_app.
    rewrite (flat_map_length_chunks _ 9) by (apply visible_lights_triples, Hall).
    reflexivity. }
  split; [rewrite lightArr_value; reflexivity |].
  split.
  { intros i l Hi.
    assert (Hl : Light.triples l).
    { apply list_elem_of_lookup_2 in Hi. unfold visible_lights in Hi.
      apply list_elem_of_In, List.filter_In in Hi. destruct Hi as [Hin _].
      rewrite Forall_forall in Hall. apply Hall, list_elem_of_In, Hin. }
    destruct Hl as (Hp & Hc & Ha).
    pose proof (lights_at a lights i l Hall Hi) as Hdrop.
    unfold element.
    split; [| split].
    - replace (3 * (1 + 3 * i))%nat with (3 + 9 * i)%nat by lia.
      rewrite Hdrop, <- Hp. apply take_app_length.
    - replace (3 * (2 + 3 * i))%nat with ((3 + 9 * i) + length (Light.position l))%nat by lia.
      rewrite <- drop_drop, Hdrop, drop_app_length.
      rewrite <- Hc. apply take_app_length.
    - replace (3 * (3 + 3 * i))%nat
        with ((3 + 9 * i) + length (Light.position l ++ Light.color l))%nat
        by (rewrite length_app; lia).
      rewrite <- drop_drop, Hdrop.
      rewrite (app_assoc (Light.position l)), drop_app_length.
      rewrite <- Ha. apply take_app_length. }
  split.
  { rewrite !lightArr_value, visible_lights_idem. reflexivity. }
  intros pre l post -> Hv.
  rewrite !lightArr_value, (visible_lights_skip pre post l Hv). reflexivity.
Qed.

Lemma lightArr_serializes_visible_lights_witness :
  lightArr (attributes Demo.renderer) Demo.lights_red_off !! 0%nat = Some 9
  /\ length (lightArr (attributes Demo.renderer) Demo.lights_red_off) = 30%nat.
Proof.
  assert (Htriples : Forall Light.triples Demo.lights_red_off).
  { repeat constructor. }
  destruct (lightArr_serializes_visible_lights (attributes Demo.renderer)
              Demo.lights_red_off Htriples) as (Hcount & Hlen & _).
  split; [exact Hcount | exact Hlen].
Defined.

(** C7. Whatever the two settings and whatever the lights, the second and
    third components of element 0 of the uploaded array are
    [(lightAmbience * 0.1 * 4)^2] and [(1 - lightIntensity) * 0.1 + 0.001]. *)
Theorem lightArr_shaping_terms (a : Attributes.t) (lights : list Light.t) :
  lightArr a lights !! 1%nat = Some ((Attributes.lightAmbience a * 0.1 * 4) ^ 2)
  /\ lightArr a lights !! 2%nat = Some ((1 - Attributes.lightIntensity a) * 0.1 + 0.001).
Proof. rewrite lightArr_value. split; reflexivity. Qed.

(** The array for the lights of [main.js] with the red one switched off
    and the default settings. *)
Example lightArr_red_off :
  lightArr (attributes Demo.renderer) Demo.lights_red_off
  = [9; 0.0400; 0.02100;
     0; 50; 100; 255; 255; 255; 0.05; 0.02; 0.01;
     0; 0; 50; 0; 255; 0; 0.05; 0.02; 0.01;
     50; 0; 0; 0; 0; 255; 0.05; 0.02; 0.01].
Proof. vm_compute. reflexivity. Qed.

End LightUniform.

(** ** The geometry pass *)

Section GeometryPass.

Import Renderer.

Lemma geometry_pass_invisible (hp : gmap nat Material.t) (att : Attributes.t)
  (m : MeshInstance.t) :
  MeshInstance.visible m = false -> geometry_pass hp att [m] = ([], true).
Proof. intros Hv. simpl. rewrite Hv. reflexivity. Qed.

Lemma geometry_pass_skip (hp : gmap nat Material.t) (att : Attributes.t)
  (pre post : list MeshInstance.t) (m : MeshInstance.t) :
  MeshInstance.visible m = false ->
  geometry_pass hp att (pre ++ m :: post) = geometry_pass hp att (pre ++ post).
Proof.
  intros Hv. induction pre as [| x pre IH]; simpl.
  - rewrite Hv. reflexivity.
  - rewrite IH. reflexivity.
Qed.

Lemma renderScene_scene (win : Window.t) (r : t) :
  scene (after (renderScene win r)) = scene r.
Proof.
  unfold renderScene.
  destruct (Dict.get "gBuffer" (materials r)); [| reflexivity].
  destruct (PerspectiveCamera.update (attributes r) (camera r)) as [cam att1].
  destruct (geometry_pass (heap r) att1 (Scene.meshes (scene r))) as [geometry ok].
  destruct ok; simpl; [| reflexivity].
  destruct (OrthographicCamera.update att1 (postCamera r)) as [post att2].
  destruct (MeshInstance.draw _); [| reflexivity].
  destruct (Attributes.drawGbuffer _); reflexivity.
Qed.

(** C5. A mesh of the scene with [visible = false] takes no part in a frame:
    the loop issues no call for it, the calls of the whole frame (and so the
    draw calls among them, and the GPU state they lead to) are those of the
    frame rendered without that mesh, and the scene after the frame holds the
    mesh as it was. *)
Theorem invisible_mesh_is_skipped (win : Window.t) (r : t)
  (pre post : list MeshInstance.t) (m : MeshInstance.t) :
  Scene.meshes (scene r) = pre ++ m :: post ->
  MeshInstance.visible m = false ->
  let without := with_scene (Scene.with_meshes (pre ++ post) (scene r)) r in
  (forall hp att, geometry_pass hp att [m] = ([], true))
  /\ calls (renderScene win r) = calls (renderScene win without)
  /\ completed (renderScene win r) = completed (renderScene win without)
  /\ (forall s, GLState.run (calls (renderScene win r)) s
                = GLState.run (calls (renderScene win without)) s)
  /\ Scene.meshes (scene (after (renderScene win r))) = pre ++ m :: post.
Proof.
  intros Hmeshes Hv without.
  assert (Hcalls : calls (renderScene win r) = calls (renderScene win without)
                   /\ completed (renderScene win r) = completed (renderScene win without)).
  { unfold renderScene, without; simpl.
    destruct (Dict.get "gBuffer" (materials r)); [| split; reflexivity].
    destruct (PerspectiveCamera.update (attributes r) (camera r)) as [cam att1].
    rewrite Hmeshes, geometry_pass_skip by exact Hv.
    destruct (geometry_pass (heap r) att1 (pre ++ post)) as [geometry ok].
    destruct ok; simpl; [| split; reflexivity].
    destruct (OrthographicCamera.update att1 (postCamera r)) as [post' att2].
    destruct (MeshInstance.draw _); [| split; reflexivity].
    destruct (Attributes.drawGbuffer _); split; reflexivity. }
  destruct Hcalls as [Hcalls Hcompleted].
  split; [intros hp att; apply geometry_pass_invisible, Hv |].
  split; [exact Hcalls |].
  split; [exact Hcompleted |].
  split; [intros s; rewrite Hcalls; reflexivity |].
  rewrite renderScene_scene. exact Hmeshes.
Qed.

Lemma invisible_mesh_is_skipped_witness :
  calls (renderScene Demo.win Demo.renderer_panel_hidden)
  = calls (renderScene Demo.win
             (with_scene (Scene.with_meshes ([Demo.pirate] ++ [Demo.celtic])
                            (scene Demo.renderer_panel_hidden))
                Demo.renderer_panel_hidden)).
Proof.
  apply (invisible_mesh_is_skipped Demo.win Demo.renderer_panel_hidden
           [Demo.pirate] [Demo.celtic] Demo.panel_hidden).
  - reflexivity.
  - reflexivity.
Defined.

(** The frame of the scene of [main.js] draws the three cubes, the resolved
    image and the four quads of the overlay; with the panel hidden, one draw
    less. *)
Example demo_frame_draws :
  List.filter GL.is_draw (calls (renderScene Demo.win Demo.renderer))
  = [GL.drawArrays_TRIANGLES (108 # 3); GL.drawArrays_TRIANGLES (108 # 3);
     GL.drawArrays_TRIANGLES (108 # 3); GL.drawElements_TRIANGLES 6;
     GL.drawElements_TRIANGLES 6; GL.drawElements_TRIANGLES 6;
     GL.drawElements_TRIANGLES 6; GL.drawElements_TRIANGLES 6]
  /\ length (List.filter GL.is_draw
               (calls (renderScene Demo.win Demo.renderer_panel_hidden))) = 7.
Proof. vm_compute. split; reflexivity. Qed.

End GeometryPass.


(** ** The overlay *)

Section OverlayQuads.

Import GLMatrix Renderer.
Local Open Scope Q_scope.

Lemma setBaseTexture_other_keys (tx : Texture.t) (q : MeshInstance.t)
  (hp : gmap nat Material.t) (texref : nat) (k : string) :
  k <> "base"%string ->
  Dict.get k (Material.textures (MeshInstance.setBaseTexture tx q hp !!! texref))
  = Dict.get k (Material.textures (hp !!! texref)).
Proof.
  intros Hk. unfold MeshInstance.setBaseTexture.
  destruct (decide (MeshInstance.material q = texref)) as [<- | Hne].
  - rewrite lookup_total_insert_eq. simpl. apply dict_get_set_ne, Hk.
  - rewrite lookup_total_insert_ne by exact Hne. reflexivity.
Qed.

Lemma overlay_loop_draws (texref : nat) (att : Attributes.t) (dx height : Q)
  (keys : list string) :
  forall (dy : Q) (q : MeshInstance.t) (hp : gmap nat Material.t),
  (forall k, In k keys -> k <> "base"%string ->
     is_Some (Dict.get k (Material.textures (hp !!! texref)))) ->
  is_Some (MeshInstance.draw q) ->
  let o := overlay_loop keys texref att dx dy height q hp in
  ov_completed o = true
  /\ map qd_key (ov_drawn o) = List.filter not_base keys
  /\ (forall i d, ov_drawn o !! i = Some d ->
        qd_key d <> "base"%string
        /\ Dict.get (qd_key d) (Material.textures (hp !!! texref)) = Some (qd_texture d)
        /\ v0 (MeshInstance.position (qd_quad d)) = dx
        /\ v1 (MeshInstance.position (qd_quad d)) == dy - inject_Z (Z.of_nat i) * height
        /\ MeshInstance.scale (qd_quad d) = MeshInstance.scale q).
Proof.
  induction keys as [| k keys IH]; intros dy q hp Hkeys Hdraw; simpl.
  - split; [reflexivity |]. split; [reflexivity |].
    intros i d Hi. destruct i; discriminate Hi.
  - unfold not_base at 1. destruct (decide (k = "base"%string)) as [Hbase | Hbase].
    + apply IH; [| exact Hdraw]. intros k' Hin. apply Hkeys. right; exact Hin.
    + destruct (Hkeys k (or_introl eq_refl) Hbase) as [tx Htx]. rewrite Htx.
      destruct Hdraw as [c Hc].
      change (MeshInstance.draw (MeshInstance.setPosition dx dy 0 q))
        with (MeshInstance.draw q).
      rewrite Hc. simpl.
      set (q1 := MeshInstance.setPosition dx dy 0 q).
      set (hp1 := MeshInstance.setBaseTexture tx q hp).
      destruct (IH (dy - height) q1 hp1) as (Hok & Hk & Hd).
      { intros k' Hin Hk'. unfold hp1. rewrite setBaseTexture_other_keys by exact Hk'.
        apply Hkeys; [right; exact Hin | exact Hk']. }
      { exists c. exact Hc. }
      split; [exact Hok |]. split; [rewrite Hk; reflexivity |].
      intros i d Hi. destruct i as [| i]; simpl in Hi.
      * injection Hi as <-. simpl.
        split; [exact Hbase |]. split; [exact Htx |]. split; [reflexivity |].
        split; [| reflexivity]. change (inject_Z (Z.of_nat 0)) with 0. ring.
      * destruct (Hd i d Hi) as (Hnb & Hget & Hx & Hy & Hs).
        split; [exact Hnb |].
        split; [rewrite <- Hget; unfold hp1;
                symmetry; apply setBaseTexture_other_keys, Hnb |].
        split; [exact Hx |]. split; [| exact Hs].
        rewrite Hy, Nat2Z.inj_succ. unfold Z.succ. rewrite inject_Z_plus.
        change (inject_Z 1) with 1. ring.
Qed.

(** The post camera, resized to the window, looks at the rectangle from
    (-w/2, -h/2) to (w/2, h/2). *)
Lemma post_camera_edges (win : Window.t) (c : OrthographicCamera.t) :
  0 < Window.innerWidth win -> 0 < Window.innerHeight win ->
  let c' := OrthographicCamera.onWindowResize win c in
  OrthographicCamera.left c' == - (Window.innerWidth win / 2)
  /\ OrthographicCamera.right c' == Window.innerWidth win / 2
  /\ OrthographicCamera.bottom c' == - (Window.innerHeight win / 2)
  /\ OrthographicCamera.top c' == Window.innerHeight win / 2.
Proof.
  intros HW HH c'. subst c'. unfold OrthographicCamera.onWindowResize.
  destruct (setOrthographic_symmetric win (Window.innerWidth win) (Window.innerHeight win) c)
    as [Hl Hb].
  rewrite Hl, Hb.
  destruct (Qlt_le_dec (Window.innerHeight win) (Window.innerWidth win)) as [Hwide | Htall].
  - destruct (setOrthographic_wide win (Window.innerWidth win) (Window.innerHeight win) c Hwide)
      as [Hr Ht].
    rewrite Hr, Ht. repeat split; field; lra.
  - destruct (setOrthographic_tall win (Window.innerWidth win) (Window.innerHeight win) c Htall)
      as [Hr Ht].
    rewrite Hr, Ht. repeat split; field; lra.
Qed.

Lemma geometry_pass_completes (hp : gmap nat Material.t) (att : Attributes.t)
  (meshes : list MeshInstance.t) :
  Forall (fun m => MeshInstance.visible m = true -> drawable m) meshes ->
  snd (geometry_pass hp att meshes) = true.
Proof.
  induction 1 as [| m meshes Hm Hall IH]; simpl; [reflexivity |].
  destruct (MeshInstance.visible m); simpl; [| exact IH].
  destruct (Hm eq_refl) as [c Hc]. rewrite Hc.
  destruct (geometry_pass hp att meshes) as [cs ok]. exact IH.
Qed.

Lemma draw_gbuffer_tiles (win : Window.t) (texref : nat) (att : Attributes.t)
  (q : MeshInstance.t) (hp : gmap nat Material.t) :
  0 < Window.innerHeight win ->
  Dict.keys (Material.textures (hp !!! texref))
  = ["albedo"; "normal"; "material"; "base"; "position"]%string ->
  drawable q ->
  let o := draw_gbuffer win texref att q hp in
  let winW := Window.innerWidth win in
  let winH := Window.innerHeight win in
  ov_completed o = true
  /\ map qd_key (ov_drawn o) = ["albedo"; "normal"; "material"; "position"]%string
  /\ (forall i d, ov_drawn o !! i = Some d ->
        Dict.get (qd_key d) (Material.textures (hp !!! texref)) = Some (qd_texture d)
        /\ MeshInstance.quad_top (qd_quad d) - MeshInstance.quad_bottom (qd_quad d) == winH / 4
        /\ (MeshInstance.quad_right (qd_quad d) - MeshInstance.quad_left (qd_quad d)) * winH
           == (MeshInstance.quad_top (qd_quad d) - MeshInstance.quad_bottom (qd_quad d)) * winW
        /\ MeshInstance.quad_left (qd_quad d) == - (winW / 2)
        /\ MeshInstance.quad_top (qd_quad d) == winH / 2 - inject_Z (Z.of_nat i) * (winH / 4)
        /\ MeshInstance.quad_bottom (qd_quad d)
           == winH / 2 - inject_Z (Z.of_nat (S i)) * (winH / 4)).
Proof.
  intros HH Hkeys Hq o winW winH. subst o. unfold draw_gbuffer. fold winW winH.
  rewrite Hkeys.
  match goal with
  | |- context [overlay_loop ?ks texref att ?dx ?dy ?h ?q1 hp] =>
      destruct (overlay_loop_draws texref att dx h ks dy q1 hp) as (Hok & Hk & Hd)
  end.
  { intros k Hin _. apply dict_get_keys. rewrite Hkeys. exact Hin. }
  { exact Hq. }
  split; [exact Hok |]. split; [rewrite Hk; reflexivity |].
  intros i d Hi. destruct (Hd i d Hi) as (_ & Hget & Hx & Hy & Hs).
  split; [exact Hget |].
  unfold MeshInstance.quad_top, MeshInstance.quad_bottom,
    MeshInstance.quad_left, MeshInstance.quad_right.
  rewrite Hs, Hx, Hy. simpl. rewrite Nat2Z.inj_succ. unfold Z.succ.
  rewrite inject_Z_plus. change (inject_Z 1) with 1.
  assert (Hne : ~ winH == 0) by (unfold winH; lra).
  repeat split; field; exact Hne.
Qed.

(** C2, as stated, fails: in the frame of the scene of [main.js] the overlay
    draws four quads, for the keys albedo, normal, material and position in
    that order, not three in the order position, normal, material. *)
Lemma overlay_order_not_position_normal_material :
  map qd_key (overlay_drawn (renderScene Demo.win Demo.renderer))
  <> ["position"; "normal"; "material"]%string.
Proof. vm_compute. discriminate. Qed.

(** The quads of the overlay in a window of 800 by 600: 200 by 150 each,
    centred at x = -300 and y = 225, 75, -75, -225. *)
Example demo_overlay_positions :
  map (fun d => (Qred (v0 (MeshInstance.position (qd_quad d))),
                 Qred (v1 (MeshInstance.position (qd_quad d))),
                 Qred (v0 (MeshInstance.scale (qd_quad d))),
                 Qred (v1 (MeshInstance.scale (qd_quad d)))))
      (overlay_drawn (renderScene Demo.win Demo.renderer))
  = [(-300, 225, 200, 150); (-300, 75, 200, 150);
     (-300, -75, 200, 150); (-300, -225, 200, 150)].
Proof. vm_compute. reflexivity. Qed.

Lemma demo_ready : ready Demo.renderer 0.
Proof.
  unfold ready. split; [vm_compute; reflexivity |]. split; [vm_compute; reflexivity |].
  split; [eexists; vm_compute; reflexivity |].
  split; [eexists; vm_compute; reflexivity |].
  repeat constructor; intros _; eexists; vm_compute; reflexivity.
Defined.

End OverlayQuads.

(** ** Resizing *)

Section Resize.

Import Renderer.
Local Open Scope Q_scope.

Lemma fold_insert_lookup {A : Type} (ids : list nat) (v : A) (m : gmap nat A) (k : nat) :
  fold_left (fun m id => <[id := v]> m) ids m !! k
  = if decide (k ∈ ids) then Some v else m !! k.
Proof.
  revert m. induction ids as [| id ids IH]; intros m; simpl.
  - destruct (decide (k ∈ [])) as [Hin | _]; [inversion Hin | reflexivity].
  - rewrite IH. destruct (decide (k ∈ ids)) as [Hin | Hnin].
    + rewrite decide_True by (right; exact Hin). reflexivity.
    + destruct (decide (k = id)) as [-> | Hne].
      * rewrite decide_True by left. apply lookup_insert_eq.
      * rewrite decide_False by (intros Hin; inversion Hin; subst; contradiction).
        apply lookup_insert_ne. congruence.
Qed.

Lemma fold_insert_idem {A : Type} (ids : list nat) (v : A) (m : gmap nat A) :
  fold_left (fun m id => <[id := v]> m) ids (fold_left (fun m id => <[id := v]> m) ids m)
  = fold_left (fun m id => <[id := v]> m) ids m.
Proof.
  apply map_eq. intros k. rewrite !fold_insert_lookup.
  destruct (decide (k ∈ ids)); reflexivity.
Qed.

Lemma fold_bind_delete (u : nat) (ids : list nat) (b : gmap nat nat) :
  delete u (fold_left (fun b id => <[u := id]> b) ids b) = delete u b.
Proof.
  revert b. induction ids as [| id ids IH]; intros b; simpl; [reflexivity |].
  rewrite IH. apply delete_insert_eq.
Qed.

(** The state after the loop of [onWindowResize] over the textures. *)
Lemma run_resize_textures (w h : Q) (tex : Dict.t Texture.t) (s : GLState.t) :
  GLState.run (flat_map (resize_texture w h) tex) s
  = GLState.mk (GLState.viewport_box s) (GLState.active_unit s)
      (fold_left (fun b id => <[GLState.active_unit s := id]> b)
         (map (fun e => Texture.index (snd e)) tex) (GLState.texture_binding s))
      (GLState.renderbuffer_binding s) (GLState.framebuffer_binding s)
      (fold_left (fun m id => <[id := (w, h)]> m)
         (map (fun e => Texture.index (snd e)) tex) (GLState.texture_size s))
      (GLState.renderbuffer_size s) (GLState.color_attachment s).
Proof.
  revert s. induction tex as [| e tex IH]; intros s.
  - destruct s; reflexivity.
  - unfold GLState.run in *. simpl. rewrite lookup_insert_eq. rewrite IH. reflexivity.
Qed.

(** The GPU state after [onWindowResize] on an initialised renderer. *)
Lemma run_onWindowResize (win : Window.t) (r : t) (s : GLState.t) :
  init r = true ->
  GLState.run (snd (onWindowResize win r)) s
  = GLState.mk (0, 0, Window.innerWidth win, Window.innerHeight win)
      (GLState.active_unit s)
      (delete (GLState.active_unit s) (GLState.texture_binding s))
      None (GLState.framebuffer_binding s)
      (fold_left (fun m id => <[id := (Window.innerWidth win, Window.innerHeight win)]> m)
         (gBuffer_textures r) (GLState.texture_size s))
      (<[depth (gBuffer r) := (Window.innerWidth win, Window.innerHeight win)]>
         (GLState.renderbuffer_size s))
      (GLState.color_attachment s).
Proof.
  intros Hinit. unfold onWindowResize. rewrite Hinit. simpl.
  unfold GLState.run. simpl. rewrite fold_left_app.
  pose proof run_resize_textures as Hloop. unfold GLState.run in Hloop.
  rewrite Hloop. simpl. rewrite fold_bind_delete. reflexivity.
Qed.

Lemma run_onWindowResize_uninitialised (win : Window.t) (r : t) (s : GLState.t) :
  init r = false ->
  GLState.run (snd (onWindowResize win r)) s
  = GLState.mk (0, 0, Window.innerWidth win, Window.innerHeight win)
      (GLState.active_unit s) (GLState.texture_binding s)
      (GLState.renderbuffer_binding s) (GLState.framebuffer_binding s)
      (GLState.texture_size s) (GLState.renderbuffer_size s) (GLState.color_attachment s).
Proof. intros Hinit. unfold onWindowResize. rewrite Hinit. reflexivity. Qed.

Lemma run_onWindowResize_idem (win : Window.t) (r : t) (s : GLState.t) :
  GLState.run (snd (onWindowResize win r)) (GLState.run (snd (onWindowResize win r)) s)
  = GLState.run (snd (onWindowResize win r)) s.
Proof.
  destruct (init r) eqn:Hinit.
  - rewrite !(run_onWindowResize win r _ Hinit). simpl.
    rewrite delete_delete_eq, fold_insert_idem, insert_insert_eq. reflexivity.
  - rewrite !(run_onWindowResize_uninitialised win r _ Hinit). reflexivity.
Qed.

Lemma on_resize_idem (win : Window.t) (x : world) :
  on_resize win (on_resize win x) = on_resize win x.
Proof.
  destruct x as [r cv s]. unfold on_resize. simpl.
  f_equal.
  - f_equal.
    + unfold OrthographicCamera.onWindowResize, OrthographicCamera.setOrthographic.
      destruct (Num.gt (Window.innerWidth win) (Window.innerHeight win)); reflexivity.
  - pose proof (run_onWindowResize_idem win r s) as Hidem.
    unfold onWindowResize in Hidem |- *. simpl in Hidem |- *. exact Hidem.
Qed.

Lemma on_resize_sizes (win : Window.t) (x : world) :
  init (w_renderer x) = true ->
  let once := on_resize win x in
  let size := (Window.innerWidth win, Window.innerHeight win) in
  w_canvas once = Canvas (Window.innerWidth win) (Window.innerHeight win)
  /\ GLState.renderbuffer_size (w_gl once) !! depth (gBuffer (w_renderer once)) = Some size
  /\ (forall tex, In tex (gBuffer_textures (w_renderer once)) ->
        GLState.texture_size (w_gl once) !! tex = Some size)
  /\ gBuffer_textures (w_renderer once) = gBuffer_textures (w_renderer x)
  /\ (forall tex, attached (w_renderer once) (w_gl once) tex
                  <-> attached (w_renderer x) (w_gl x) tex).
Proof.
  intros Hinit once size. destruct x as [r cv s]. simpl in Hinit.
  assert (Hgl : w_gl once = GLState.run (snd (onWindowResize win r)) s) by reflexivity.
  rewrite (run_onWindowResize win r s Hinit) in Hgl.
  split; [reflexivity |].
  split; [rewrite Hgl; simpl; apply lookup_insert_eq |].
  split.
  { intros tex Hin. rewrite Hgl. simpl. rewrite fold_insert_lookup.
    rewrite decide_True; [reflexivity |]. apply list_elem_of_In. exact Hin. }
  split; [reflexivity |].
  intros tex. unfold attached. rewrite Hgl. simpl. reflexivity.
Qed.

(** C6. On an initialised renderer whose framebuffer has for colour
    attachments textures of the G-buffer material, handling a resize to a
    window (W, H) twice leaves the renderer, the canvas and the GPU state
    exactly as handling it once does; and in that state the depth
    renderbuffer, every texture of the G-buffer material and so every colour
    attachment has storage of size (W, H). *)
Theorem resize_twice_same_as_once (win : Window.t) (x : world) :
  init (w_renderer x) = true ->
  (forall tex, attached (w_renderer x) (w_gl x) tex ->
               In tex (gBuffer_textures (w_renderer x))) ->
  let once := on_resize win x in
  let twice := on_resize win once in
  let size := (Window.innerWidth win, Window.innerHeight win) in
  twice = once
  /\ w_canvas twice = Canvas (Window.innerWidth win) (Window.innerHeight win)
  /\ GLState.renderbuffer_size (w_gl twice) !! depth (gBuffer (w_renderer twice)) = Some size
  /\ (forall tex, In tex (gBuffer_textures (w_renderer twice)) ->
        GLState.texture_size (w_gl twice) !! tex = Some size)
  /\ (forall tex, attached (w_renderer twice) (w_gl twice) tex ->
        GLState.texture_size (w_gl twice) !! tex = Some size).
Proof.
  intros Hinit Hgrouped once twice size.
  assert (Hidem : twice = once) by apply on_resize_idem.
  rewrite Hidem.
  destruct (on_resize_sizes win x Hinit) as (Hcv & Hrb & Htex & Hsame & Hatt).
  fold once in Hcv, Hrb, Htex, Hsame, Hatt.
  split; [reflexivity |]. split; [exact Hcv |]. split; [exact Hrb |].
  split; [exact Htex |].
  intros tex Ha. apply Htex. rewrite Hsame. apply Hgrouped, Hatt, Ha.
Qed.

Lemma demo_attachments_grouped (tex : nat) :
  attached (w_renderer Demo.world) (w_gl Demo.world) tex ->
  In tex (gBuffer_textures (w_renderer Demo.world)).
Proof.
  intros [i Hi].
  change (gBuffer_textures (w_renderer Demo.world)) with [2; 3; 4; 1; 1]%nat.
  change (FBO (gBuffer (w_renderer Demo.world))) with 1%nat in Hi.
  assert (Hca : GLState.color_attachment (w_gl Demo.world)
                = <[(1, 3)%nat := 4%nat]> (<[(1, 2)%nat := 3%nat]>
                    (<[(1, 1)%nat := 2%nat]> (<[(1, 0)%nat := 1%nat]> ∅)))).
  { vm_compute. reflexivity. }
  rewrite Hca in Hi.
  repeat (apply lookup_insert_Some in Hi;
          destruct Hi as [[_ <-] | [_ Hi]]; [simpl; tauto |]).
  rewrite lookup_empty in Hi. discriminate Hi.
Defined.

Lemma resize_twice_same_as_once_witness :
  on_resize (Window.mk 1024 768) (on_resize (Window.mk 1024 768) Demo.world)
  = on_resize (Window.mk 1024 768) Demo.world.
Proof.
  apply (resize_twice_same_as_once (Window.mk 1024 768) Demo.world).
  - vm_compute; reflexivity.
  - exact demo_attachments_grouped.
Defined.

End Resize.


(** ** The OBJ parser *)

Section LoadOBJ.

Import OBJ OBJRecords.
Context {num : Type} `{JSNumber num}.

Lemma parse_line_kind (p : @parsed num) (line : string) :
  parse_line p line
  = match kind_of line with
    | Ignored => p
    | Vertex => Parsed (vertexData p ++ [map Number (tokens line)]) (uvData p) (normalData p)
                  (faces p) (polyCount p)
    | Normal => Parsed (vertexData p) (uvData p) (normalData p ++ [map Number (tokens line)])
                  (faces p) (polyCount p)
    | TexCoord => Parsed (vertexData p) (uvData p ++ [map Number (tokens line)]) (normalData p)
                    (faces p) (polyCount p)
    | Face => Parsed (vertexData p) (uvData p) (normalData p) (faces p ++ [tokens line])
                (S (polyCount p))
    end.
Proof.
  unfold parse_line, kind_of, tokens.
  destruct (decide (trim line = EmptyString)); [reflexivity |].
  destruct (startsWith_hash (trim line)); [reflexivity |].
  destruct (VERT (trim line)); [reflexivity |].
  destruct (NORM (trim line)); [reflexivity |].
  destruct (UV (trim line)); [reflexivity |].
  destruct (FACE (trim line)); reflexivity.
Qed.

Lemma parse_lines_kind (ls : list string) :
  forall p : @parsed num,
  fold_left parse_line ls p
  = Parsed (vertexData p ++ map (fun l => map Number (tokens l)) (of_kind Vertex ls))
           (uvData p ++ map (fun l => map Number (tokens l)) (of_kind TexCoord ls))
           (normalData p ++ map (fun l => map Number (tokens l)) (of_kind Normal ls))
           (faces p ++ map tokens (of_kind Face ls))
           (polyCount p + length (of_kind Face ls)).
Proof.
  induction ls as [| l ls IH]; intros p.
  - cbn. rewrite !app_nil_r, Nat.add_0_r. destruct p; reflexivity.
  - cbn [fold_left]. rewrite IH, parse_line_kind. unfold of_kind. cbn [List.filter].
    destruct (kind_of l); cbn [kind_eqb map length vertexData uvData normalData faces polyCount];
      rewrite <- ?app_assoc; cbn [app]; rewrite ?Nat.add_succ_r; reflexivity.
Qed.


Lemma FACE_excludes (line : string) :
  FACE line = true ->
  line <> EmptyString /\ startsWith_hash line = false
  /\ VERT line = false /\ NORM line = false /\ UV line = false.
Proof.
  destruct line as [| a [| b rest]]; simpl; try discriminate.
  intros Hf. apply andb_true_iff in Hf as [Ha _].
  apply Ascii.eqb_eq in Ha. subst a. simpl.
  split; [discriminate |]. split; [reflexivity |]. split; [reflexivity |].
  destruct rest; split; reflexivity.
Qed.

Lemma parse_line_faces (p : @parsed num) (line : string) :
  polyCount (parse_line p line)
  = (polyCount p + if is_face_line line then 1 else 0)%nat
  /\ length (faces (parse_line p line))
     = (length (faces p) + if is_face_line line then 1 else 0)%nat.
Proof.
  unfold parse_line, is_face_line.
  destruct (FACE (trim line)) eqn:Hface.
  - destruct (FACE_excludes _ Hface) as (Hne & Hhash & Hv & Hn & Hu).
    rewrite decide_False by exact Hne. rewrite Hhash, Hv, Hn, Hu. simpl.
    rewrite length_app. simpl. split; lia.
  - destruct (decide (trim line = EmptyString)); [split; lia |].
    destruct (startsWith_hash (trim line)); [split; lia |].
    destruct (VERT (trim line)); [simpl; split; lia |].
    destruct (NORM (trim line)); [simpl; split; lia |].
    destruct (UV (trim line)); simpl; split; lia.
Qed.

Lemma parse_lines_faces (lines : list string) (p : @parsed num) :
  polyCount (fold_left parse_line lines p)
  = (polyCount p + length (List.filter is_face_line lines))%nat
  /\ length (faces (fold_left parse_line lines p))
     = (length (faces p) + length (List.filter is_face_line lines))%nat.
Proof.
  revert p. induction lines as [| line lines IH]; intros p; simpl; [split; lia |].
  destruct (IH (parse_line p line)) as [Hc Hf].
  destruct (parse_line_faces p line) as [Hc1 Hf1].
  rewrite Hc, Hf, Hc1, Hf1.
  destruct (is_face_line line); simpl; split; lia.
Qed.

Lemma push_corners_value (acc : @arrays num) (k : @corners num) :
  push_corners acc k
  = Arrays (vertexArr acc ++ face_positions k) (uvArr acc ++ face_uvs k)
           (normalArr acc ++ face_normals k) (tangentArr acc ++ face_tangents k).
Proof.
  unfold push_corners, face_tangents, face_tangent. simpl.
  rewrite <- !app_assoc. reflexivity.
Qed.

Lemma build_value (p : @parsed num) (fs : list (list string)) (ks : list (@corners num)) (acc : @arrays num) :
  Forall2 (fun face k => retrieve p face = Some k) fs ks ->
  build p fs acc
  = Some (Arrays (vertexArr acc ++ flat_map face_positions ks)
                 (uvArr acc ++ flat_map face_uvs ks)
                 (normalArr acc ++ flat_map face_normals ks)
                 (tangentArr acc ++ flat_map face_tangents ks)).
Proof.
  intros Hall. revert acc. induction Hall as [| face k fs ks Hk Hall IH]; intros acc; simpl.
  - rewrite !app_nil_r. destruct acc; reflexivity.
  - rewrite Hk, IH, push_corners_value. simpl. rewrite <- !app_assoc. reflexivity.
Qed.

Lemma at_key_elem {A : Type} (data : list A) (key : option num) (v : A) :
  at_key data key = Some v -> In v data.
Proof.
  unfold at_key. destruct key as [x |]; [| discriminate].
  destruct (index x) as [i |]; [| discriminate].
  intros Hi. apply list_elem_of_In. eapply list_elem_of_lookup_2, Hi.
Qed.

Lemma forallb_lengths (n : nat) (data : list (list num)) :
  forallb (fun v => Nat.eqb (length v) n) data = true ->
  forall v, In v data -> length v = n.
Proof.
  intros Hall v Hin. rewrite forallb_forall in Hall.
  apply Nat.eqb_eq, Hall, Hin.
Qed.

Lemma retrieve_well_formed (p : @parsed num) (face : list string) :
  (forall v, In v (vertexData p) -> length v = 3) ->
  (forall v, In v (uvData p) -> length v = 2) ->
  (forall v, In v (normalData p) -> length v = 3) ->
  Nat.eqb (length face) 3 && forallb (corner_selects p) face = true ->
  exists k, retrieve p face = Some k /\ shaped k.
Proof.
  intros Hv Hu Hn Hface. apply andb_true_iff in Hface as [Hlen Hsel].
  apply Nat.eqb_eq in Hlen.
  destruct face as [| a [| b [| c [| d face]]]]; try discriminate Hlen.
  simpl in Hsel. unfold corner_selects in Hsel.
  repeat match goal with
         | Hx : _ && _ = true |- _ => apply andb_true_iff in Hx as [? ?]
         | Hx : bool_decide _ = true |- _ => apply bool_decide_eq_true in Hx as [? Hx]
         end.
  unfold retrieve. simpl.
  repeat match goal with
         | Hx : at_key _ _ = Some _ |- _ => rewrite Hx; simpl; revert Hx
         end.
  intros. eexists. split; [reflexivity |].
  unfold shaped; simpl.
  repeat split;
    first [ solve [apply Hv; eapply at_key_elem; eassumption]
          | solve [apply Hu; eapply at_key_elem; eassumption]
          | solve [apply Hn; eapply at_key_elem; eassumption] ].
Qed.

Lemma Forall_exists_Forall2 {A B : Type} (P : A -> B -> Prop) (l : list A) :
  (forall x, In x l -> exists y, P x y) -> exists l', Forall2 P l l'.
Proof.
  induction l as [| x l IH]; intros Hall.
  - exists []. constructor.
  - destruct (Hall x (or_introl eq_refl)) as [y Hy].
    destruct IH as [l' Hl']; [intros z Hz; apply Hall; right; exact Hz |].
    exists (y :: l'). constructor; assumption.
Qed.

Lemma Forall2_Forall_right {A B : Type} (P : A -> B -> Prop) (Q : B -> Prop)
  (l : list A) (l' : list B) :
  Forall2 P l l' -> (forall x y, P x y -> Q y) -> Forall Q l'.
Proof.
  intros Hall Himp. induction Hall as [| x y l l' Hxy _ IH]; constructor.
  - eapply Himp, Hxy.
  - exact IH.
Qed.

Lemma face_tangents_length (k : @corners num) : length (face_tangents k) = 9.
Proof. reflexivity. Qed.

Lemma shaped_lengths (k : @corners num) :
  shaped k ->
  length (face_positions k) = 9 /\ length (face_uvs k) = 6 /\ length (face_normals k) = 9.
Proof.
  intros ((? & ? & ?) & (? & ? & ?) & (? & ? & ?)).
  unfold face_positions, face_uvs, face_normals. rewrite !length_app. lia.
Qed.

Lemma block_at {A : Type} (f : A -> list num) (n : nat) (ks : list A) (i : nat) (k : A) :
  Forall (fun x => length (f x) = n) ks ->
  ks !! i = Some k ->
  take n (drop (n * i) (flat_map f ks)) = f k.
Proof.
  intros Hall Hi. rewrite (flat_map_drop_chunks f n ks i Hall).
  rewrite (drop_S _ _ _ Hi). simpl.
  apply take_app_length'. symmetry.
  rewrite Forall_forall in Hall. apply Hall. eapply list_elem_of_lookup_2, Hi.
Qed.

Lemma at_key_selects (data : list (list num)) (corner : string) (j : nat) (v : list num) :
  at_key data (indices corner !! j) = Some v -> selects data corner j v.
Proof.
  unfold at_key, indices, selects.
  change (map Number (split_on "/" corner)) with (Number <$> split_on "/" corner).
  rewrite list_lookup_fmap.
  destruct (split_on "/" corner !! j) as [field |]; [| discriminate]. cbn.
  destruct (index (Number field)) as [i |] eqn:Hi; [| discriminate].
  intros Hv. exists field, i. auto.
Qed.

Lemma retrieve_selects (p : @parsed num) (a b c : string) (k : @corners num) :
  retrieve p [a; b; c] = Some k ->
  (selects (vertexData p) a 0 (c_v0 k) /\ selects (vertexData p) b 0 (c_v1 k)
   /\ selects (vertexData p) c 0 (c_v2 k))
  /\ (selects (uvData p) a 1 (c_u0 k) /\ selects (uvData p) b 1 (c_u1 k)
      /\ selects (uvData p) c 1 (c_u2 k))
  /\ (selects (normalData p) a 2 (c_n0 k) /\ selects (normalData p) b 2 (c_n1 k)
      /\ selects (normalData p) c 2 (c_n2 k)).
Proof.
  unfold retrieve. cbn [lookup list_lookup mbind option_bind].
  repeat match goal with
         | |- context [at_key ?d ?key] =>
             lazymatch goal with
             | _ : at_key d key = Some _ |- _ => fail
             | _ => destruct (at_key d key) eqn:?; cbn [mbind option_bind];
                    [| discriminate]
             end
         end.
  intros [= <-]. cbn.
  repeat split; apply at_key_selects; assumption.
Qed.

Lemma shaped_corners (k : @corners num) :
  shaped k ->
  exists x0 y0 z0 x1 y1 z1 x2 y2 z2 s0 t0 s1 t1 s2 t2 a0 b0 c0 a1 b1 c1 a2 b2 c2 : num,
    k = Corners [x0; y0; z0] [x1; y1; z1] [x2; y2; z2]
                [s0; t0] [s1; t1] [s2; t2]
                [a0; b0; c0] [a1; b1; c1] [a2; b2; c2].
Proof.
  destruct k as [v0 v1 v2 u0 u1 u2 n0 n1 n2].
  intros ((Hv0 & Hv1 & Hv2) & (Hu0 & Hu1 & Hu2) & (Hn0 & Hn1 & Hn2)). cbn in *.
  repeat match goal with
         | Hl : length ?l = _ |- _ =>
             is_var l; destruct l as [| ? [| ? [| ? [| ? ?]]]]; try discriminate Hl; clear Hl
         end.
  repeat eexists.
Qed.


(** C8. On a well-formed triangulated input [loadOBJ] returns.  Its count
    is the number of face lines.  The four arrays run in parallel, nine
    positions, nine normals, six texture coordinates and nine tangent
    components per face.  For the face of the [i]-th face line, whose three
    corners [v/vt/vn] select by index (counted from 1 over the records of
    each kind in the file, 0 selecting a record of zeros) three positions,
    three texture coordinates and three normals, the block of each array is
    that data in the order of the corners; and the block of the tangents is
    one triple, [inv * (uv2[1] * edge1 - uv1[1] * edge2)] with
    [inv = 1 / (uv1[0] * uv2[1] - uv2[0] * uv1[1])], where [edge1], [edge2]
    and [uv1], [uv2] lead from the first corner to the other two in
    position and in texture, stored three times, once for each vertex of
    the face: what a vertex receives depends on the face alone. *)
Theorem loadOBJ_parallel_arrays (OBJString : string) :
  well_formed OBJString = true ->
  let ls := lines OBJString in
  let records (k : kind) := map (fun l => map Number (tokens l)) (of_kind k ls) in
  let vs := [zero; zero; zero] :: records Vertex in
  let ts := [zero; zero] :: records TexCoord in
  let ns := [zero; zero; zero] :: records Normal in
  exists r : result,
    loadOBJ OBJString = Some r
    /\ count r = length (of_kind Face ls)
    /\ count r = length (List.filter is_face_line (split_on "010" OBJString))
    /\ length (position r) = (9 * count r)%nat
    /\ length (normal r) = (9 * count r)%nat
    /\ length (uv r) = (6 * count r)%nat
    /\ length (tangent r) = (9 * count r)%nat
    /\ (forall (i : nat) (line : string), of_kind Face ls !! i = Some line ->
        exists (a b c : string)
               (x0 y0 z0 x1 y1 z1 x2 y2 z2 s0 t0 s1 t1 s2 t2 : num) (n0 n1 n2 : list num),
          tokens line = [a; b; c]
          /\ (selects vs a 0 [x0; y0; z0] /\ selects vs b 0 [x1; y1; z1]
              /\ selects vs c 0 [x2; y2; z2])
          /\ (selects ts a 1 [s0; t0] /\ selects ts b 1 [s1; t1]
              /\ selects ts c 1 [s2; t2])
          /\ (selects ns a 2 n0 /\ selects ns b 2 n1 /\ selects ns c 2 n2)
          /\ take 9 (drop (9 * i) (position r)) = [x0; y0; z0; x1; y1; z1; x2; y2; z2]
          /\ take 6 (drop (6 * i) (uv r)) = [s0; t0; s1; t1; s2; t2]
          /\ take 9 (drop (9 * i) (normal r)) = n0 ++ n1 ++ n2
          /\ (let inv := (one / ((s1 - s0) * (t2 - t0) - (s2 - s0) * (t1 - t0)))%js in
              let tx := (inv * ((t2 - t0) * (x1 - x0) - (t1 - t0) * (x2 - x0)))%js in
              let ty := (inv * ((t2 - t0) * (y1 - y0) - (t1 - t0) * (y2 - y0)))%js in
              let tz := (inv * ((t2 - t0) * (z1 - z0) - (t1 - t0) * (z2 - z0)))%js in
              take 9 (drop (9 * i) (tangent r)) = [tx; ty; tz; tx; ty; tz; tx; ty; tz])).
Proof.
  intros Hwf ls records vs ts ns. unfold well_formed in Hwf.
  assert (Hparse : parse OBJString
                   = Parsed vs ts ns (map tokens (of_kind Face ls))
                       (length (of_kind Face ls))).
  { unfold parse. fold (lines OBJString). fold ls. rewrite parse_lines_kind. reflexivity. }
  set (p := parse OBJString) in *.
  apply andb_true_iff in Hwf as [Hwf Hfaces].
  apply andb_true_iff in Hwf as [Hwf Hn].
  apply andb_true_iff in Hwf as [Hv Hu].
  pose proof (forallb_lengths 3 _ Hv) as Hv'.
  pose proof (forallb_lengths 2 _ Hu) as Hu'.
  pose proof (forallb_lengths 3 _ Hn) as Hn'.
  rewrite forallb_forall in Hfaces.
  destruct (Forall_exists_Forall2
              (fun face k => retrieve p face = Some k /\ shaped k) (faces p))
    as [ks Hks].
  { intros face Hin. apply retrieve_well_formed; auto. }
  assert (Hret : Forall2 (fun face k => retrieve p face = Some k) (faces p) ks).
  { eapply Forall2_impl; [exact Hks |]. intros face k [Hk _]. exact Hk. }
  assert (Hshaped : Forall shaped ks).
  { eapply Forall2_Forall_right; [exact Hks |]. intros face k [_ Hk]. exact Hk. }
  assert (Hpos : Forall (fun k => length (face_positions k) = 9%nat) ks).
  { eapply Forall_impl; [exact Hshaped |]. intros k Hk. apply (shaped_lengths k Hk). }
  assert (Huv : Forall (fun k => length (face_uvs k) = 6%nat) ks).
  { eapply Forall_impl; [exact Hshaped |]. intros k Hk. apply (shaped_lengths k Hk). }
  assert (Hnor : Forall (fun k => length (face_normals k) = 9%nat) ks).
  { eapply Forall_impl; [exact Hshaped |]. intros k Hk. apply (shaped_lengths k Hk). }
  assert (Htan : Forall (fun k => length (face_tangents k) = 9%nat) ks).
  { apply Forall_forall. intros k _. apply face_tangents_length. }
  destruct (parse_lines_faces (split_on "010" OBJString) start) as [Hcount Hlen].
  fold (parse OBJString) in Hcount, Hlen. fold p in Hcount, Hlen. simpl in Hcount, Hlen.
  assert (Hks_len : length ks = polyCount p).
  { rewrite <- (Forall2_length _ _ _ Hret). congruence. }
  exists (Result (flat_map face_positions ks) (flat_map face_normals ks)
                 (flat_map face_uvs ks) (flat_map face_tangents ks) (polyCount p)).
  split.
  { unfold loadOBJ. fold p. rewrite (build_value p (faces p) ks _ Hret). reflexivity. }
  cbn [position normal uv tangent count].
  split; [rewrite Hparse; reflexivity |].
  split; [exact Hcount |].
  rewrite <- Hks_len.
  split; [apply flat_map_length_chunks, Hpos |].
  split; [apply flat_map_length_chunks, Hnor |].
  split; [apply flat_map_length_chunks, Huv |].
  split; [apply flat_map_length_chunks, Htan |].
  intros i line Hline.
  assert (Hface : faces p !! i = Some (tokens line)).
  { rewrite Hparse. cbn [faces].
    change (map tokens (of_kind Face ls)) with (tokens <$> of_kind Face ls).
    rewrite list_lookup_fmap, Hline. reflexivity. }
  destruct (Forall2_lookup_l _ _ _ _ _ Hks Hface) as (k & Hi & Hk & Hsh).
  assert (Hthree : length (tokens line) = 3%nat).
  { assert (Hin : In (tokens line) (faces p)).
    { apply list_elem_of_In. eapply list_elem_of_lookup_2, Hface. }
    specialize (Hfaces _ Hin). apply andb_true_iff in Hfaces as [Hl _].
    apply Nat.eqb_eq, Hl. }
  destruct (tokens line) as [| a [| b [| c [| d rest]]]] eqn:Htok; try discriminate Hthree.
  destruct (retrieve_selects p a b c k Hk) as (Sv & Su & Sn).
  rewrite Hparse in Sv, Su, Sn. cbn [vertexData uvData normalData] in Sv, Su, Sn.
  destruct (shaped_corners k Hsh)
    as (x0 & y0 & z0 & x1 & y1 & z1 & x2 & y2 & z2 & s0 & t0 & s1 & t1 & s2 & t2
        & a0 & b0 & c0 & a1 & b1 & c1 & a2 & b2 & c2 & ->).
  cbn [c_v0 c_v1 c_v2 c_u0 c_u1 c_u2 c_n0 c_n1 c_n2] in Sv, Su, Sn.
  exists a, b, c, x0, y0, z0, x1, y1, z1, x2, y2, z2, s0, t0, s1, t1, s2, t2,
    [a0; b0; c0], [a1; b1; c1], [a2; b2; c2].
  split; [reflexivity |]. split; [exact Sv |]. split; [exact Su |]. split; [exact Sn |].
  split; [rewrite (block_at face_positions 9 ks i _ Hpos Hi); reflexivity |].
  split; [rewrite (block_at face_uvs 6 ks i _ Huv Hi); reflexivity |].
  split; [rewrite (block_at face_normals 9 ks i _ Hnor Hi); reflexivity |].
  rewrite (block_at face_tangents 9 ks i _ Htan Hi). reflexivity.
Qed.

End LoadOBJ.

Lemma loadOBJ_parallel_arrays_witness :
  exists r : OBJ.result,
    @OBJ.loadOBJ _ OBJ.finite OBJ.square = Some r /\ OBJ.count r = 2%nat
    /\ length (OBJ.tangent r) = 18%nat.
Proof.
  destruct (@loadOBJ_parallel_arrays _ OBJ.finite OBJ.square)
    as (r & Hr & Hcount & _ & _ & _ & _ & Htan & _).
  - vm_compute. reflexivity.
  - exists r. split; [exact Hr |].
    assert (Hc : OBJ.count r = 2%nat) by (rewrite Hcount; vm_compute; reflexivity).
    split; [exact Hc |]. rewrite Htan, Hc. reflexivity.
Defined.

(** The corner shared by the two triangles of the square receives the
    tangent (1, 0, 0) in the first and (1, 1/2, 0) in the second. *)
Example square_shared_corner_tangents :
  (fun r => (take 3 (OBJ.tangent r), take 3 (drop 9 (OBJ.tangent r))))
    <$> @OBJ.loadOBJ _ OBJ.finite OBJ.square
  = Some ([Some 1%Q; Some 0%Q; Some 0%Q], [Some (2 # 2)%Q; Some (1 # 2)%Q; Some (0 # 2)%Q]).
Proof. vm_compute. reflexivity. Qed.

(** ** Frames of a constructed renderer *)

Section Frames.

Import Renderer.
Local Open Scope Q_scope.

Ltac find_in :=
  repeat match goal with
         | |- In _ (_ :: _) => first [left; reflexivity | right]
         | |- In _ (_ ++ _) => apply in_or_app; first [left; solve [find_in] | right]
         end.

Lemma lightArr_settings (a b : Attributes.t) (lights : list Light.t) :
  Attributes.lightAmbience a = Attributes.lightAmbience b ->
  Attributes.lightIntensity a = Attributes.lightIntensity b ->
  lightArr a lights = lightArr b lights.
Proof. intros Ha Hi. rewrite !lightArr_value, Ha, Hi. reflexivity. Qed.

(** The array of [lightArr] is what a frame uploads as [lights]. *)
Lemma renderScene_uploads_lightArr (win : Window.t) (r : t) (texref : nat) :
  ready r texref ->
  In (GL.uniform3fv (GLShader.uniform "lights" (sh_deferred (shaders r)))
        (GL.floats_array (lightArr (attributes r) (Scene.lights (scene r)))))
     (calls (renderScene win r)).
Proof.
  intros (Hmat & _ & _ & Hdq & Hmeshes).
  unfold renderScene. rewrite Hmat.
  destruct (PerspectiveCamera.update (attributes r) (camera r)) as [cam att1] eqn:Hcam.
  assert (Hsame : Attributes.lightAmbience att1 = Attributes.lightAmbience (attributes r)
                  /\ Attributes.lightIntensity att1 = Attributes.lightIntensity (attributes r)).
  { unfold PerspectiveCamera.update in Hcam.
    destruct (PerspectiveCamera.orbit (camera r)); injection Hcam as <- <-; split; reflexivity. }
  destruct Hsame as [Hamb Hint].
  pose proof (geometry_pass_completes (heap r) att1 _ Hmeshes) as Hgeo.
  destruct (geometry_pass (heap r) att1 (Scene.meshes (scene r))) as [geometry ok].
  simpl in Hgeo. subst ok. simpl.
  destruct Hdq as [c Hc].
  change (MeshInstance.draw
            (MeshInstance.setPosition 0 0 0
               (MeshInstance.setScale (Window.innerWidth win) (Window.innerHeight win) 1
                  (defferedQuad r))))
    with (MeshInstance.draw (defferedQuad r)).
  rewrite Hc.
  match goal with
  | |- context [lightArr ?a3 _] =>
      rewrite (lightArr_settings a3 (attributes r)) by (simpl; assumption)
  end.
  unfold GLShader.setUniformFloat3.
  destruct (Attributes.drawGbuffer _); cbn [calls]; find_in.
Qed.

Lemma dict_keys_set_in {V : Type} (k : string) (v : V) (d : Dict.t V) :
  In k (Dict.keys d) -> Dict.keys (Dict.set k v d) = Dict.keys d.
Proof.
  unfold Dict.keys. induction d as [| [k' v'] d IH]; simpl; [contradiction |].
  intros Hin. destruct (decide (k = k')) as [-> | Hne]; simpl; [reflexivity |].
  f_equal. apply IH. destruct Hin as [Heq | Hin]; [congruence | exact Hin].
Qed.

Lemma setBaseTexture_keys (tx : Texture.t) (q : MeshInstance.t)
  (hp : gmap nat Material.t) (a : nat) :
  In "base"%string (Dict.keys (Material.textures (hp !!! a))) ->
  Dict.keys (Material.textures (MeshInstance.setBaseTexture tx q hp !!! a))
  = Dict.keys (Material.textures (hp !!! a)).
Proof.
  intros Hin. unfold MeshInstance.setBaseTexture.
  destruct (decide (MeshInstance.material q = a)) as [<- | Hne].
  - rewrite lookup_total_insert_eq. simpl. apply dict_keys_set_in, Hin.
  - rewrite lookup_total_insert_ne by exact Hne. reflexivity.
Qed.

(** What the overlay leaves: the quad keeps its mesh, every material keeps
    its entries other than [base], and a material that has the key [base]
    keeps its keys. *)
Lemma overlay_loop_leaves (texref : nat) (att : Attributes.t) (dx height : Q)
  (keys : list string) :
  forall (dy : Q) (q : MeshInstance.t) (hp : gmap nat Material.t),
  let o := overlay_loop keys texref att dx dy height q hp in
  MeshInstance.mesh (ov_quad o) = MeshInstance.mesh q
  /\ (forall a k, k <> "base"%string ->
        Dict.get k (Material.textures (ov_heap o !!! a))
        = Dict.get k (Material.textures (hp !!! a)))
  /\ (forall a, In "base"%string (Dict.keys (Material.textures (hp !!! a))) ->
        Dict.keys (Material.textures (ov_heap o !!! a))
        = Dict.keys (Material.textures (hp !!! a))).
Proof.
  induction keys as [| k keys IH]; intros dy q hp; simpl.
  - repeat split.
  - destruct (decide (k = "base"%string)); [apply IH |].
    destruct (Dict.get k (Material.textures (hp !!! texref))) as [tx |]; [| repeat split].
    assert (Hone : (forall a k', k' <> "base"%string ->
                      Dict.get k' (Material.textures
                                     (MeshInstance.setBaseTexture tx q hp !!! a))
                      = Dict.get k' (Material.textures (hp !!! a)))
                   /\ (forall a, In "base"%string (Dict.keys (Material.textures (hp !!! a))) ->
                         Dict.keys (Material.textures
                                      (MeshInstance.setBaseTexture tx q hp !!! a))
                         = Dict.keys (Material.textures (hp !!! a)))).
    { split; [intros a k' Hk'; apply setBaseTexture_other_keys, Hk' |].
      intros a Hin. apply setBaseTexture_keys, Hin. }
    destruct Hone as [Hget Hkeys].
    destruct (MeshInstance.draw (MeshInstance.setPosition dx dy 0 q)) as [c |]; simpl.
    + destruct (IH (dy - height) (MeshInstance.setPosition dx dy 0 q)
                  (MeshInstance.setBaseTexture tx q hp)) as (Hm & Hg & Hk).
      split; [rewrite Hm; reflexivity |].
      split.
      * intros a k' Hk'. rewrite Hg by exact Hk'. apply Hget, Hk'.
      * intros a Hin. rewrite Hk by (rewrite Hkeys; exact Hin). apply Hkeys, Hin.
    + split; [reflexivity |]. split; [exact Hget | exact Hkeys].
Qed.

(** What a frame leaves of the renderer: everything but the attribute bag,
    the cameras, the position and scale of the two quads and the [base]
    entry of materials. *)
Lemma renderScene_leaves (win : Window.t) (r : t) :
  let r' := after (renderScene win r) in
  init r' = init r /\ materials r' = materials r /\ gBuffer r' = gBuffer r
  /\ scene r' = scene r
  /\ MeshInstance.mesh (bufferQuad r') = MeshInstance.mesh (bufferQuad r)
  /\ MeshInstance.mesh (defferedQuad r') = MeshInstance.mesh (defferedQuad r)
  /\ (forall a k, k <> "base"%string ->
        Dict.get k (Material.textures (heap r' !!! a))
        = Dict.get k (Material.textures (heap r !!! a)))
  /\ (forall a, In "base"%string (Dict.keys (Material.textures (heap r !!! a))) ->
        Dict.keys (Material.textures (heap r' !!! a))
        = Dict.keys (Material.textures (heap r !!! a))).
Proof.
  unfold renderScene.
  destruct (Dict.get "gBuffer" (materials r)) as [texref |]; [| simpl; repeat split].
  destruct (PerspectiveCamera.update (attributes r) (camera r)) as [cam att1].
  destruct (geometry_pass (heap r) att1 (Scene.meshes (scene r))) as [geometry ok].
  destruct ok; simpl; [| repeat split].
  destruct (OrthographicCamera.update att1 (postCamera r)) as [post att2].
  destruct (MeshInstance.draw _); [| simpl; repeat split].
  destruct (Attributes.drawGbuffer _); simpl; [| repeat split].
  unfold draw_gbuffer.
  match goal with
  | |- context [overlay_loop ?ks ?a ?att ?dx ?dy ?h ?q ?hp] =>
      destruct (overlay_loop_leaves a att dx h ks dy q hp) as (Hm & Hg & Hk)
  end.
  repeat split; assumption.
Qed.

(** A renderer that is ready for a frame is ready for the next. *)
Lemma renderScene_ready (win : Window.t) (r : t) (texref : nat) :
  ready r texref -> ready (after (renderScene win r)) texref.
Proof.
  intros (Hmat & Hkeys & Hbq & Hdq & Hmeshes).
  destruct (renderScene_leaves win r) as (_ & Hm & _ & Hs & Hb & Hd & _ & Hk).
  unfold ready, drawable, MeshInstance.draw in *.
  rewrite Hm, Hs, Hb, Hd, Hk by (rewrite Hkeys; simpl; tauto).
  repeat split; assumption.
Qed.

(** The constructor leaves a renderer that is ready. *)
Lemma new_ready (win : Window.t) (sh : shaders_t)
  (hpos halb hnrm hmat hdepth hfbo addr b1 b2 b3 : nat) :
  ready (fst (fst (new win sh hpos halb hnrm hmat hdepth hfbo addr b1 b2 b3))) addr.
Proof.
  unfold ready, new, init_gBuffer, drawable; simpl.
  rewrite lookup_total_insert_eq.
  split; [reflexivity |]. split; [reflexivity |].
  split; [eexists; reflexivity |]. split; [eexists; reflexivity |]. constructor.
Qed.

Lemma exec_framebuffer_view (s : GLState.t) (c : GL.command) :
  GLState.framebuffer_view (GLState.exec s c)
  = GLState.exec_framebuffer (GLState.framebuffer_view s) c.
Proof.
  unfold GLState.framebuffer_view. destruct s as [vb u tb rb fb ts rs ca].
  destruct c; simpl; try reflexivity.
  - destruct rb; reflexivity.
  - destruct fb; reflexivity.
  - destruct tex; reflexivity.
  - destruct (tb !! u); reflexivity.
  - destruct (tb !! u); reflexivity.
Qed.

Lemma run_framebuffer_view (cs : list GL.command) (s : GLState.t) :
  GLState.framebuffer_view (GLState.run cs s)
  = fold_left GLState.exec_framebuffer cs (GLState.framebuffer_view s).
Proof.
  unfold GLState.run. revert s. induction cs as [| c cs IH]; intros s; simpl; [reflexivity |].
  rewrite IH, exec_framebuffer_view. reflexivity.
Qed.

Lemma run_no_attach (cs : list GL.command) (s : GLState.t) :
  Forall (fun c => attaches c = false) cs ->
  GLState.color_attachment (GLState.run cs s) = GLState.color_attachment s.
Proof.
  intros Hall.
  change (snd (GLState.framebuffer_view (GLState.run cs s))
          = snd (GLState.framebuffer_view s)).
  rewrite run_framebuffer_view. generalize (GLState.framebuffer_view s).
  induction Hall as [| c cs Hc Hall IH]; intros v; simpl; [reflexivity |].
  rewrite IH. destruct c; try reflexivity. discriminate Hc.
Qed.

(** No call of a frame attaches anything to a framebuffer. *)
Lemma shader_bind_no_attach (bs : Dict.t Mesh.buffer) (sh : GLShader.t) :
  Forall (fun c => attaches c = false) (ShaderBind.bind bs sh).
Proof.
  unfold ShaderBind.bind. apply Forall_app. split; [| repeat constructor].
  apply Forall_flat_map. apply Forall_forall. intros [b buff] _.
  unfold ShaderBind.bind_buffer.
  destruct (decide (b = "index"%string)); [repeat constructor |].
  destruct (decide (Dict.get b (GLShader.locations sh) = Some (-1)%Z)); repeat constructor.
Qed.

Lemma material_bind_no_attach (sh : GLShader.t) (texs : Dict.t Texture.t) (n : nat) :
  Forall (fun c => attaches c = false) (Material.bind_from n texs sh).
Proof.
  revert n. induction texs as [| [k tex] texs IH]; intros n; simpl; [constructor |].
  repeat constructor. apply IH.
Qed.

Lemma instance_bind_no_attach (hp : gmap nat Material.t) (att : Attributes.t)
  (m : MeshInstance.t) :
  Forall (fun c => attaches c = false) (MeshInstance.bind hp att m).
Proof.
  unfold MeshInstance.bind.
  apply Forall_app; split; [apply shader_bind_no_attach |].
  apply Forall_app; split; [repeat constructor |].
  apply Forall_app; split; [repeat constructor | apply material_bind_no_attach].
Qed.

Ltac no_attach :=
  repeat first
    [ apply instance_bind_no_attach
    | exact I
    | assumption
    | apply Forall_nil
    | apply List.Forall_cons; [first [reflexivity | assumption] |]
    | apply Forall_app; split ].

Lemma instance_draw_no_attach (m : MeshInstance.t) (c : GL.command) :
  MeshInstance.draw m = Some c -> attaches c = false.
Proof.
  unfold MeshInstance.draw, Mesh.draw.
  destruct (Mesh.kind (MeshInstance.mesh m));
    destruct (Dict.get _ _); intros [= <-] || discriminate; reflexivity.
Qed.

Lemma geometry_pass_no_attach (hp : gmap nat Material.t) (att : Attributes.t)
  (meshes : list MeshInstance.t) :
  Forall (fun c => attaches c = false) (fst (geometry_pass hp att meshes)).
Proof.
  induction meshes as [| m meshes IH]; simpl; [constructor |].
  destruct (MeshInstance.visible m); simpl; [| exact IH].
  destruct (MeshInstance.draw m) as [c |] eqn:Hc.
  - destruct (geometry_pass hp att meshes) as [cs ok]. simpl in *.
    apply instance_draw_no_attach in Hc. no_attach.
  - apply instance_bind_no_attach.
Qed.

Lemma overlay_loop_no_attach (texref : nat) (att : Attributes.t) (dx height : Q)
  (keys : list string) :
  forall (dy : Q) (q : MeshInstance.t) (hp : gmap nat Material.t),
  Forall (fun c => attaches c = false)
         (ov_calls (overlay_loop keys texref att dx dy height q hp)).
Proof.
  induction keys as [| k keys IH]; intros dy q hp; simpl; [constructor |].
  destruct (decide (k = "base"%string)); [apply IH |].
  destruct (Dict.get k (Material.textures (hp !!! texref))) as [tx |]; [| constructor].
  destruct (MeshInstance.draw (MeshInstance.setPosition dx dy 0 q)) as [c |] eqn:Hc; simpl.
  - apply instance_draw_no_attach in Hc. specialize (IH (dy - height)). no_attach.
    apply IH.
  - apply instance_bind_no_attach.
Qed.

Lemma renderScene_no_attach (win : Window.t) (r : t) :
  Forall (fun c => attaches c = false) (calls (renderScene win r)).
Proof.
  unfold renderScene.
  destruct (Dict.get "gBuffer" (materials r)) as [texref |]; [| constructor].
  destruct (PerspectiveCamera.update (attributes r) (camera r)) as [cam att1].
  pose proof (geometry_pass_no_attach (heap r) att1 (Scene.meshes (scene r))) as Hgeo.
  destruct (geometry_pass (heap r) att1 (Scene.meshes (scene r))) as [geometry ok].
  simpl in Hgeo.
  unfold gBuffer_bind, GLShader.setUniformFloat3.
  destruct ok; cbn [negb calls]; [| no_attach].
  destruct (OrthographicCamera.update att1 (postCamera r)) as [post att2].
  destruct (MeshInstance.draw _) as [c |] eqn:Hc; cbn [calls]; [| no_attach].
  apply instance_draw_no_attach in Hc.
  destruct (Attributes.drawGbuffer _); cbn [calls]; [| no_attach].
  match goal with
  | |- context [ov_calls ?o] =>
      assert (Hov : Forall (fun c => attaches c = false) (ov_calls o))
        by (unfold draw_gbuffer; apply overlay_loop_no_attach)
  end.
  no_attach.
Qed.

(** The grouping of the attachments holds after the constructor, and frames
    and resizes keep it; it gives what the resize needs. *)
Lemma on_frame_grouped (win : Window.t) (x : world) :
  attachments_grouped x -> attachments_grouped (on_frame win x).
Proof.
  intros Hgrouped tex [i Hi]. unfold on_frame in *. simpl in *.
  destruct (renderScene_leaves win (w_renderer x)) as (_ & _ & Hgb & _ & _ & _ & Hget & _).
  rewrite Hgb in *.
  rewrite (run_no_attach _ _ (renderScene_no_attach win (w_renderer x))) in Hi.
  destruct (Hgrouped tex (ex_intro _ i Hi)) as (k & t & Hk & Hkt & Ht).
  exists k, t. split; [exact Hk |]. split; [| exact Ht].
  rewrite Hget by exact Hk. exact Hkt.
Qed.

Lemma on_resize_grouped (win : Window.t) (x : world) :
  init (w_renderer x) = true ->
  attachments_grouped x -> attachments_grouped (on_resize win x).
Proof.
  intros Hinit Hgrouped tex Ha.
  destruct (on_resize_sizes win x Hinit) as (_ & _ & _ & _ & Hatt).
  apply Hatt in Ha. destruct (Hgrouped tex Ha) as (k & t & Hk & Hkt & Ht).
  exists k, t. destruct x as [r cv s]. repeat split; assumption.
Qed.

Lemma grouped_textures (x : world) (tex : nat) :
  attachments_grouped x ->
  attached (w_renderer x) (w_gl x) tex -> In tex (gBuffer_textures (w_renderer x)).
Proof.
  intros Hgrouped Ha. destruct (Hgrouped tex Ha) as (k & t & _ & Hkt & <-).
  unfold gBuffer_textures.
  generalize dependent (Material.textures
                          (heap (w_renderer x) !!! gb_material (gBuffer (w_renderer x)))).
  intros d. induction d as [| [k' t'] d IH]; simpl; [discriminate |].
  destruct (decide (k = k')); [intros [= ->]; left; reflexivity | intros Hd; right; auto].
Qed.

Lemma color_attachment_view (s : GLState.t) :
  GLState.color_attachment s = snd (GLState.framebuffer_view s).
Proof. reflexivity. Qed.

Lemma new_grouped (win : Window.t) (sh : shaders_t)
  (hpos halb hnrm hmat hdepth hfbo addr b1 b2 b3 : nat) :
  let built := new win sh hpos halb hnrm hmat hdepth hfbo addr b1 b2 b3 in
  attachments_grouped
    (World (fst (fst built)) (snd (fst built)) (GLState.run (snd built) GLState.initial)).
Proof.
  intros built tex [i Hi].
  cbn [w_renderer w_gl] in Hi.
  assert (Hfbo : FBO (gBuffer (fst (fst built))) = hfbo) by reflexivity.
  rewrite Hfbo, color_attachment_view, run_framebuffer_view in Hi.
  pose (cs := snd built).
  assert (Hcs : snd built = cs) by reflexivity.
  vm_compute in cs. rewrite Hcs in Hi. subst cs. clear Hcs Hfbo.
  unfold GLState.framebuffer_view, GLState.initial in Hi.
  cbn [fold_left GLState.exec_framebuffer fst snd
       GLState.framebuffer_binding GLState.color_attachment] in Hi.
  assert (Hheap : Material.textures
                    (heap (fst (fst built)) !!! gb_material (gBuffer (fst (fst built))))
                  = [("albedo", Texture.mk "buffer" halb);
                     ("normal", Texture.mk "buffer" hnrm);
                     ("material", Texture.mk "buffer" hmat);
                     ("base", Texture.mk "buffer" hpos);
                     ("position", Texture.mk "buffer" hpos)]%string).
  { unfold built, new, init_gBuffer. simpl. rewrite lookup_total_insert_eq. reflexivity. }
  cbn [w_renderer w_gl]. rewrite Hheap. clear Hheap.
  repeat (apply lookup_insert_Some in Hi; destruct Hi as [[_ <-] | [_ Hi]];
          [first [ exists "position"%string, (Texture.mk "buffer" hpos);
                   repeat split; congruence
                 | exists "albedo"%string, (Texture.mk "buffer" halb);
                   repeat split; congruence
                 | exists "normal"%string, (Texture.mk "buffer" hnrm);
                   repeat split; congruence
                 | exists "material"%string, (Texture.mk "buffer" hmat);
                   repeat split; congruence ]
          |]).
  rewrite lookup_empty in Hi. discriminate Hi.
Qed.

End Frames.

(** * Further properties *)

(** ** Orbit controller: rotation, in exact arithmetic *)

Section OrbitInput.

Import OrbitController.
Local Open Scope Q_scope.





End OrbitInput.

(** ** Orbit controller: pointer input *)

Section PointerInput.

Import PrimFloat Double OrbitController64 OrbitEvents.
Local Open Scope float_scope.

(** A press followed by a drag, from any state in which no button is held. *)
Lemma press_then_drag (e1 e2 : pointer) (o : t) :
  mouseHeld o = false ->
  onMouseDrag e2 (onMouseDown e1 o)
  = handleRotate (clientX e2 - bounds_left e2) (clientY e2 - bounds_top e2)
      (with_pointer (clientX e1 - bounds_left e1) (clientY e1 - bounds_top e1)
         true (touchStarted o) o).
Proof. intros Hheld. unfold onMouseDrag, onMouseDown. rewrite Hheld. reflexivity. Qed.

(** X4. With no button held, a press followed by a drag rotates by the
    displacement of the pointer on the canvas between the two events: the
    yaw moves by the yaw speed times the displacement in x, the pitch by the
    pitch speed times the displacement in y (then clamped), whatever
    references were stored before; a drag with no button held does nothing,
    and neither does a press while a button is held.  Releasing the button
    clears [mouseHeld] and leaves [touchStarted], the pitch and the yaw as
    they were. *)
Theorem mouse_drag_rotates_by_displacement (e1 e2 : pointer) (o : t) :
  mouseHeld o = false ->
  let x1 := clientX e1 - bounds_left e1 in
  let y1 := clientY e1 - bounds_top e1 in
  let x2 := clientX e2 - bounds_left e2 in
  let y2 := clientY e2 - bounds_top e2 in
  let o' := onMouseDrag e2 (onMouseDown e1 o) in
  yaw o' = yaw o + yawSpd o * (x2 - x1)
  /\ pitch o' = clamp (pitch o + pitchSpd o * (y2 - y1)) (- pitchMax o) (pitchMax o)
  /\ mouseHeld o' = true
  /\ onMouseDrag e2 o = o
  /\ onMouseDown e2 o' = o'
  /\ mouseHeld (onMouseUp o') = false
  /\ (touchStarted (onMouseUp o') = touchStarted o
      /\ pitch (onMouseUp o') = pitch o' /\ yaw (onMouseUp o') = yaw o').
Proof.
  intros Hheld x1 y1 x2 y2 o'. subst o'.
  rewrite (press_then_drag e1 e2 o Hheld).
  split; [reflexivity |]. split; [reflexivity |]. split; [reflexivity |].
  split; [unfold onMouseDrag; rewrite Hheld; reflexivity |].
  split; [reflexivity |]. split; [reflexivity |]. repeat split.
Qed.

Lemma mouse_drag_rotates_by_displacement_witness :
  yaw (onMouseDrag (Pointer 130 90 10 20) (onMouseDown (Pointer 30 40 10 20) (new 300)))
  = yaw (new 300) + yawSpd (new 300) * ((130 - 10) - (30 - 10)).
Proof.
  apply (mouse_drag_rotates_by_displacement
           (Pointer 30 40 10 20) (Pointer 130 90 10 20) (new 300)).
  reflexivity.
Defined.

(** X5. A touch gesture rotates only with exactly one finger after a start
    with exactly one finger: started so, a move of that finger rotates by
    its displacement; a start or a move with any other number of fingers
    cancels the gesture and changes neither pitch nor yaw, and so does a move
    that no start preceded.  Cancelling clears [touchStarted]; no touch
    handler changes [mouseHeld]. *)
Theorem touch_rotates_with_one_finger (e1 e2 : pointer) (touches : list pointer) (o : t) :
  length touches <> 1%nat ->
  let x1 := clientX e1 - bounds_left e1 in
  let y1 := clientY e1 - bounds_top e1 in
  let x2 := clientX e2 - bounds_left e2 in
  let y2 := clientY e2 - bounds_top e2 in
  let o' := onTouchMove [e2] (onTouchStart [e1] o) in
  (yaw o' = yaw o + yawSpd o * (x2 - x1)
   /\ pitch o' = clamp (pitch o + pitchSpd o * (y2 - y1)) (- pitchMax o) (pitchMax o))
  /\ (touchStarted (onTouchStart touches o) = false
      /\ pitch (onTouchStart touches o) = pitch o /\ yaw (onTouchStart touches o) = yaw o)
  /\ (touchStarted (onTouchMove touches o) = false
      /\ pitch (onTouchMove touches o) = pitch o /\ yaw (onTouchMove touches o) = yaw o)
  /\ (touchStarted o = false -> onTouchMove [e2] o = o)
  /\ touchStarted (onTouchEnd o') = false
  /\ (forall (ts : list pointer) (x : t),
        mouseHeld (onTouchStart ts x) = mouseHeld x
        /\ mouseHeld (onTouchMove ts x) = mouseHeld x
        /\ mouseHeld (onTouchEnd x) = mouseHeld x
        /\ mouseHeld (onTouchCancel x) = mouseHeld x).
Proof.
  intros Hlen x1 y1 x2 y2 o'. subst o'.
  assert (Hcancel : touchStarted (onTouchCancel o) = false
                    /\ pitch (onTouchCancel o) = pitch o /\ yaw (onTouchCancel o) = yaw o).
  { unfold onTouchCancel. destruct (touchStarted o) eqn:Hs; simpl; auto. }
  split; [split; reflexivity |].
  split.
  { destruct touches as [| e [| e' touches]]; simpl; try exact Hcancel.
    exfalso. apply Hlen. reflexivity. }
  split.
  { destruct touches as [| e [| e' touches]]; simpl; try exact Hcancel.
    exfalso. apply Hlen. reflexivity. }
  split.
  { intros Hs. unfold onTouchMove, onTouchCancel. rewrite Hs. reflexivity. }
  split; [reflexivity |].
  assert (Hheld : forall x, mouseHeld (onTouchCancel x) = mouseHeld x).
  { intros x. unfold onTouchCancel. destruct (touchStarted x); reflexivity. }
  intros ts x. split; [| split; [| split]]; try apply Hheld.
  - destruct ts as [| e [| e' ts]]; simpl; try apply Hheld. reflexivity.
  - destruct ts as [| e [| e' ts]]; simpl; try apply Hheld.
    destruct (touchStarted x) eqn:Hs; simpl; [reflexivity |].
    unfold onTouchCancel. rewrite Hs. reflexivity.
Qed.

Lemma touch_rotates_with_one_finger_witness :
  touchStarted (onTouchMove [Pointer 1 2 0 0; Pointer 5 6 0 0]
                  (onTouchStart [Pointer 1 2 0 0] (new 300))) = false.
Proof.
  apply (touch_rotates_with_one_finger (Pointer 0 0 0 0) (Pointer 0 0 0 0)
           [Pointer 1 2 0 0; Pointer 5 6 0 0]
           (onTouchStart [Pointer 1 2 0 0] (new 300))).
  simpl. lia.
Defined.

End PointerInput.

(** ** Orbit controller: the view matrix *)

Section OrbitViewMatrix.

Import GLMatrix OrbitController OrbitView.
Local Open Scope Q_scope.

(** X6. Whatever the pitch and the yaw, the matrix of [getViewMatrix] sends
    the rotation centre (c0, c1, c2) to the point (c0, c1, c2 - boomLength)
    of view space: for the centre at the origin, straight ahead of the camera
    at the boom length; for another centre, off the axis by (c0, c1). *)
Theorem getViewMatrix_sends_centre (cosX sinX cosY sinY c0 c1 c2 : Q) (o : t) :
  exists view,
    getViewMatrix cosX sinX cosY sinY (setRotationCenter c0 c1 c2 o) = Some view
    /\ length view = 16%nat
    /\ v0 (transform view (Vec3 c0 c1 c2)) == c0
    /\ v1 (transform view (Vec3 c0 c1 c2)) == c1
    /\ v2 (transform view (Vec3 c0 c1 c2)) == c2 - boomLength o.
Proof.
  eexists. split; [reflexivity |]. split; [reflexivity |].
  simpl. repeat split; ring.
Qed.

Lemma getViewMatrix_centre_values (cosX sinX cosY sinY c0 c1 c2 : Q) (o : t)
  (view : list Q) :
  getViewMatrix cosX sinX cosY sinY (setRotationCenter c0 c1 c2 o) = Some view ->
  v0 (transform view (Vec3 c0 c1 c2)) == c0
  /\ v1 (transform view (Vec3 c0 c1 c2)) == c1
  /\ v2 (transform view (Vec3 c0 c1 c2)) == c2 - boomLength o.
Proof. intros [= <-]. simpl. repeat split; ring. Qed.

Lemma getViewMatrix_linear (cosX sinX cosY sinY c0 c1 c2 : Q) (o : t) (view : list Q)
  (p q : vec3) :
  getViewMatrix cosX sinX cosY sinY (setRotationCenter c0 c1 c2 o) = Some view ->
  v0 (transform view p) - v0 (transform view q)
  == cosY * (v0 p - v0 q) + sinY * (v2 p - v2 q)
  /\ v1 (transform view p) - v1 (transform view q)
     == sinX * sinY * (v0 p - v0 q) + cosX * (v1 p - v1 q) - sinX * cosY * (v2 p - v2 q)
  /\ v2 (transform view p) - v2 (transform view q)
     == - cosX * sinY * (v0 p - v0 q) + sinX * (v1 p - v1 q) + cosX * cosY * (v2 p - v2 q).
Proof.
  intros [= <-]. simpl. repeat split; ring.
Qed.

(** X7. When the four numbers given for the cosines and sines are those of
    two angles (the squares of each pair add up to 1), the matrix of
    [getViewMatrix] keeps distances; so the eye, the point it sends to the
    origin, lies from the rotation centre (c0, c1, c2) at the distance of
    (c0, c1, c2 - boomLength) from the origin: at the boom length when the
    centre is the origin. *)
Theorem getViewMatrix_keeps_distances (cosX sinX cosY sinY c0 c1 c2 : Q) (o : t)
  (view : list Q) :
  cosX * cosX + sinX * sinX == 1 ->
  cosY * cosY + sinY * sinY == 1 ->
  getViewMatrix cosX sinX cosY sinY (setRotationCenter c0 c1 c2 o) = Some view ->
  (forall p q, distance2 (transform view p) (transform view q) == distance2 p q)
  /\ (forall eye,
        v0 (transform view eye) == 0 -> v1 (transform view eye) == 0 ->
        v2 (transform view eye) == 0 ->
        distance2 eye (Vec3 c0 c1 c2)
        == c0 * c0 + c1 * c1 + (c2 - boomLength o) * (c2 - boomLength o)).
Proof.
  intros HX HY Hview.
  assert (Hrigid : forall p q,
             distance2 (transform view p) (transform view q) == distance2 p q).
  { intros p q.
    destruct (getViewMatrix_linear cosX sinX cosY sinY c0 c1 c2 o view p q Hview)
      as (H0 & H1 & H2).
    unfold distance2. rewrite H0, H1, H2.
    set (dx := v0 p - v0 q). set (dy := v1 p - v1 q). set (dz := v2 p - v2 q).
    assert (Ha : cosX * cosX + sinX * sinX - 1 == 0) by lra.
    assert (Hb : cosY * cosY + sinY * sinY - 1 == 0) by lra.
    transitivity
      (dx * dx + dy * dy + dz * dz
       + (cosX * cosX + sinX * sinX - 1)
         * (sinY * sinY * dx * dx + dy * dy + cosY * cosY * dz * dz
            - 2 * dx * dz * cosY * sinY)
       + (cosY * cosY + sinY * sinY - 1) * (dx * dx + dz * dz)).
    - ring.
    - rewrite Ha, Hb. ring. }
  split; [exact Hrigid |].
  intros eye E0 E1 E2.
  rewrite <- (Hrigid eye (Vec3 c0 c1 c2)).
  destruct (getViewMatrix_centre_values cosX sinX cosY sinY c0 c1 c2 o view Hview)
    as (C0 & C1 & C2).
  unfold distance2. rewrite E0, E1, E2, C0, C1, C2. ring.
Qed.

Lemma getViewMatrix_keeps_distances_witness :
  exists view,
    getViewMatrix (3 # 5) (4 # 5) 1 0 (setRotationCenter 0 0 0 (new 300)) = Some view
    /\ distance2 (transform view (Vec3 1 2 3)) (transform view (Vec3 0 0 0))
       == distance2 (Vec3 1 2 3) (Vec3 0 0 0).
Proof.
  eexists. split; [reflexivity |].
  apply (getViewMatrix_keeps_distances (3 # 5) (4 # 5) 1 0 0 0 0 (new 300)).
  - vm_compute; reflexivity.
  - vm_compute; reflexivity.
  - reflexivity.
Defined.

End OrbitViewMatrix.

(** ** Cameras *)

Section CameraCalls.

Import GLMatrix Cameras.
Local Open Scope Q_scope.

Lemma ortho_step_keeps (s : OrthographicCamera.t * Attributes.t) (c : ortho_call) :
  v2 (OrthographicCamera.position (fst s)) = 100 ->
  OrthographicCamera.left (fst s) = - OrthographicCamera.right (fst s) ->
  OrthographicCamera.bottom (fst s) = - OrthographicCamera.top (fst s) ->
  v2 (OrthographicCamera.position (fst (ortho_step s c))) = 100
  /\ OrthographicCamera.left (fst (ortho_step s c))
     = - OrthographicCamera.right (fst (ortho_step s c))
  /\ OrthographicCamera.bottom (fst (ortho_step s c))
     = - OrthographicCamera.top (fst (ortho_step s c)).
Proof.
  intros Hz Hl Hb. destruct s as [cam att].
  destruct c as [x y z | x y z | win w h | win |]; simpl in *; auto.
  - destruct (setOrthographic_symmetric win w h cam) as [Hl' Hb'].
    split; [| split; assumption].
    unfold OrthographicCamera.setOrthographic.
    destruct (Num.gt (Window.innerWidth win) (Window.innerHeight win)); exact Hz.
  - unfold OrthographicCamera.onWindowResize.
    destruct (setOrthographic_symmetric win (Window.innerWidth win) (Window.innerHeight win) cam)
      as [Hl' Hb'].
    split; [| split; assumption].
    unfold OrthographicCamera.setOrthographic.
    destruct (Num.gt (Window.innerWidth win) (Window.innerHeight win)); exact Hz.
Qed.

(** X8. An orthographic camera keeps its depth: from its construction on,
    whatever sequence of [setPosition], [setLookAt], [setOrthographic],
    [onWindowResize] and [update] it goes through and whatever their
    arguments, its position has z = 100 and its frustum extends as far to
    the left as to the right and as far down as up. *)
Theorem orthographic_camera_keeps_depth (win : Window.t) (width height : Q)
  (a : Attributes.t) (cs : list ortho_call) :
  let c := fst (ortho_run cs (OrthographicCamera.new win width height, a)) in
  v2 (OrthographicCamera.position c) = 100
  /\ OrthographicCamera.left c = - OrthographicCamera.right c
  /\ OrthographicCamera.bottom c = - OrthographicCamera.top c.
Proof.
  unfold ortho_run.
  assert (Hstart : v2 (OrthographicCamera.position
                         (fst (OrthographicCamera.new win width height, a))) = 100
                   /\ OrthographicCamera.left (fst (OrthographicCamera.new win width height, a))
                      = - OrthographicCamera.right
                            (fst (OrthographicCamera.new win width height, a))
                   /\ OrthographicCamera.bottom
                        (fst (OrthographicCamera.new win width height, a))
                      = - OrthographicCamera.top
                            (fst (OrthographicCamera.new win width height, a))).
  { simpl. unfold OrthographicCamera.new.
    destruct (setOrthographic_symmetric win width height
                (OrthographicCamera.mk (Vec3 0 0 100) vec3_create mat4_create mat4_create
                   mat4_create 0 0 0 0 0 0)) as [Hl Hb].
    split; [| split; assumption].
    unfold OrthographicCamera.setOrthographic.
    destruct (Num.gt (Window.innerWidth win) (Window.innerHeight win)); reflexivity. }
  generalize dependent (OrthographicCamera.new win width height, a).
  induction cs as [| c cs IH]; intros s (Hz & Hl & Hb); simpl.
  - auto.
  - apply IH. apply ortho_step_keeps; assumption.
Qed.

(** X9. Once an orbit controller is attached, [update] takes the view from
    it alone: what [setPosition] and [setLookAt] stored before has no effect
    on the matrices and the position published, the position being read back
    from the inverted view.  With or without a controller, a second [update]
    changes nothing. *)
Theorem update_follows_orbit (a : Attributes.t) (c : PerspectiveCamera.t)
  (boom x y z : Q) :
  let orbiting := PerspectiveCamera.addOrbitController boom c in
  let view := OrbitController.getViewMatrix (OrbitController.new boom) in
  PerspectiveCamera.update a (PerspectiveCamera.setPosition x y z orbiting)
  = PerspectiveCamera.update a orbiting
  /\ snd (PerspectiveCamera.update a (Perspective_setLookAt x y z orbiting))
     = snd (PerspectiveCamera.update a orbiting)
  /\ Attributes.viewMatrix (snd (PerspectiveCamera.update a orbiting)) = view
  /\ Attributes.cameraPosition (snd (PerspectiveCamera.update a orbiting))
     = point_translation (mat4_invert view)
  /\ PerspectiveCamera.update (snd (PerspectiveCamera.update a orbiting))
       (fst (PerspectiveCamera.update a orbiting))
     = PerspectiveCamera.update a orbiting
  /\ PerspectiveCamera.update (snd (PerspectiveCamera.update a c))
       (fst (PerspectiveCamera.update a c))
     = PerspectiveCamera.update a c.
Proof.
  simpl. repeat split.
  destruct c as [pos look view cam proj asp fv zn zf [o |]]; reflexivity.
Qed.

End CameraCalls.

(** ** Frames: what is drawn where, and what a frame leaves *)

Section FramePasses.

Import GLMatrix Renderer.
Local Open Scope Q_scope.

(** A frame of a ready renderer, written out. *)
Lemma renderScene_shape (win : Window.t) (r : t) (texref : nat) :
  ready r texref ->
  let cam := fst (PerspectiveCamera.update (attributes r) (camera r)) in
  let att1 := snd (PerspectiveCamera.update (attributes r) (camera r)) in
  let post := fst (OrthographicCamera.update att1 (postCamera r)) in
  let att3 := Attributes.set_cameraPosition (PerspectiveCamera.position cam)
                (snd (OrthographicCamera.update att1 (postCamera r))) in
  let dq := MeshInstance.setPosition 0 0 0
              (MeshInstance.setScale (Window.innerWidth win) (Window.innerHeight win) 1
                 (defferedQuad r)) in
  let o := if Attributes.drawGbuffer att3
           then draw_gbuffer win texref att3 (bufferQuad r) (heap r)
           else Overlay [] (bufferQuad r) (heap r) true [] in
  exists d,
    MeshInstance.draw (defferedQuad r) = Some d
    /\ snd (geometry_pass (heap r) att1 (Scene.meshes (scene r))) = true
    /\ renderScene win r
       = Frame ((gBuffer_bind (gBuffer r)
                 ++ [GL.clearColor 0 0 0 1; GL.enable GL.DEPTH_TEST; GL.enable GL.CULL_FACE;
                     GL.cullFace_BACK; GL.clear_COLOR_DEPTH])
                ++ fst (geometry_pass (heap r) att1 (Scene.meshes (scene r)))
                ++ [GL.bindFramebuffer None; GL.clear_COLOR_DEPTH;
                    GL.disable GL.DEPTH_TEST; GL.disable GL.CULL_FACE]
                ++ (MeshInstance.bind (heap r) att3 dq
                    ++ GLShader.setUniformFloat3
                         (GL.floats_array (lightArr att3 (Scene.lights (scene r))))
                         "lights" (sh_deferred (shaders r)))
                ++ d :: ov_calls o)
               (mk (init r) att3 (textures r) (materials r) (ov_heap o) (scene r)
                   (shaders r) (gBuffer r) cam post (ov_quad o) dq)
               (ov_completed o) (ov_drawn o).
Proof.
  intros (Hmat & Hkeys & Hbq & Hdq & Hmeshes). cbv zeta.
  destruct Hdq as [d Hd]. exists d. split; [exact Hd |].
  pose proof (geometry_pass_completes (heap r)
                (snd (PerspectiveCamera.update (attributes r) (camera r))) _ Hmeshes) as Hgeo.
  split; [exact Hgeo |].
  unfold renderScene. rewrite Hmat.
  destruct (PerspectiveCamera.update (attributes r) (camera r)) as [cam att1].
  cbn [fst snd] in *.
  destruct (geometry_pass (heap r) att1 (Scene.meshes (scene r))) as [geometry ok].
  cbn [fst snd] in *. subst ok. cbn [negb].
  destruct (OrthographicCamera.update att1 (postCamera r)) as [post att2].
  cbn [fst snd].
  change (MeshInstance.draw
            (MeshInstance.setPosition 0 0 0
               (MeshInstance.setScale (Window.innerWidth win) (Window.innerHeight win) 1
                  (defferedQuad r))))
    with (MeshInstance.draw (defferedQuad r)).
  rewrite Hd.
  destruct (Attributes.drawGbuffer _); reflexivity.
Qed.





(** The texture units after [Material.bind]. *)
Lemma run_bind_from (sh : GLShader.t) (texs : Dict.t Texture.t) :
  forall (n : nat) (s : GLState.t),
  let s' := GLState.run (Material.bind_from n texs sh) s in
  (forall u, GLState.texture_binding s' !! u
             = if decide (n <= u < n + length texs)%nat
               then (fun e => Texture.index (snd e)) <$> texs !! (u - n)%nat
               else GLState.texture_binding s !! u)
  /\ GLState.viewport_box s' = GLState.viewport_box s
  /\ GLState.renderbuffer_binding s' = GLState.renderbuffer_binding s
  /\ GLState.framebuffer_binding s' = GLState.framebuffer_binding s
  /\ GLState.texture_size s' = GLState.texture_size s
  /\ GLState.renderbuffer_size s' = GLState.renderbuffer_size s
  /\ GLState.color_attachment s' = GLState.color_attachment s.
Proof.
  induction texs as [| [k tex] texs IH]; intros n s s'.
  - subst s'. cbn. split; [| repeat split].
    intros u. rewrite decide_False by lia. reflexivity.
  - subst s'.
    change (GLState.run (Material.bind_from n ((k, tex) :: texs) sh) s)
      with (GLState.run (Material.bind_from (S n) texs sh)
              (GLState.mk (GLState.viewport_box s) n
                 (<[n := Texture.index tex]> (GLState.texture_binding s))
                 (GLState.renderbuffer_binding s) (GLState.framebuffer_binding s)
                 (GLState.texture_size s) (GLState.renderbuffer_size s)
                 (GLState.color_attachment s))).
    destruct (IH (S n) (GLState.mk (GLState.viewport_box s) n
                 (<[n := Texture.index tex]> (GLState.texture_binding s))
                 (GLState.renderbuffer_binding s) (GLState.framebuffer_binding s)
                 (GLState.texture_size s) (GLState.renderbuffer_size s)
                 (GLState.color_attachment s))) as (Hb & Hrest).
    split; [| exact Hrest].
    intros u. rewrite Hb. cbn [GLState.texture_binding length].
    destruct (decide (S n <= u < S n + length texs)%nat) as [Hin | Hout].
    + rewrite decide_True by lia.
      replace (u - n)%nat with (S (u - S n)) by lia. reflexivity.
    + destruct (decide (u = n)) as [-> | Hne].
      * rewrite decide_True by lia. rewrite lookup_insert_eq.
        replace (n - n)%nat with 0%nat by lia. reflexivity.
      * rewrite decide_False by lia. apply lookup_insert_ne. congruence.
Qed.

Lemma bind_from_uniforms (sh : GLShader.t) (texs : Dict.t Texture.t) :
  forall (n i : nat) (k : string) (tex : Texture.t),
  texs !! i = Some (k, tex) ->
  In (GL.uniform1i (GLShader.uniform k sh) (n + i)) (Material.bind_from n texs sh).
Proof.
  induction texs as [| [k' tex'] texs IH]; intros n i k tex Hi; [discriminate Hi |].
  destruct i as [| i]; cbn in Hi |- *.
  - injection Hi as -> ->. right. right. left. f_equal. lia.
  - right. right. right. replace (n + S i)%nat with (S n + i)%nat by lia.
    apply (IH (S n) i k tex Hi).
Qed.

(** X11. [Material.bind] puts the textures of the material on the texture
    units 0, 1, 2, ... in the order of its keys and points the sampler
    uniform named by each key at the unit of its texture; the units from the
    number of keys on, the storage of the textures, the framebuffer and its
    attachments are left as they were. *)
Theorem material_bind_units (sh : GLShader.t) (m : Material.t) (s : GLState.t) :
  let s' := GLState.run (Material.bind sh m) s in
  (forall i k tex, Material.textures m !! i = Some (k, tex) ->
     GLState.texture_binding s' !! i = Some (Texture.index tex)
     /\ In (GL.uniform1i (GLShader.uniform k sh) i) (Material.bind sh m))
  /\ (forall u, (length (Material.textures m) <= u)%nat ->
        GLState.texture_binding s' !! u = GLState.texture_binding s !! u)
  /\ GLState.texture_size s' = GLState.texture_size s
  /\ GLState.framebuffer_binding s' = GLState.framebuffer_binding s
  /\ GLState.color_attachment s' = GLState.color_attachment s.
Proof.
  intros s'. subst s'. unfold Material.bind.
  destruct (run_bind_from sh (Material.textures m) 0 s) as (Hb & _ & _ & Hfb & Hts & _ & Hca).
  split.
  { intros i k tex Hi. split.
    - rewrite Hb. pose proof (lookup_lt_Some _ _ _ Hi) as Hlt.
      rewrite decide_True by lia. rewrite Nat.sub_0_r, Hi. reflexivity.
    - apply (bind_from_uniforms sh (Material.textures m) 0 i k tex Hi). }
  split.
  { intros u Hu. rewrite Hb. rewrite decide_False by lia. reflexivity. }
  repeat split; assumption.
Qed.

(** X12. [GLShader.bind] never hands WebGL the location -1: for every
    buffer of the mesh other than [index] whose role the program has an
    attribute for, it binds the buffer and points the attribute at it with
    the item size of the buffer; a buffer whose attribute the program lacks
    is not bound at all; the buffer called [index] is bound as the element
    array and never as a vertex array; and the last call makes the program
    current. *)
Theorem shader_bind_attributes (bs : Dict.t Mesh.buffer) (sh : GLShader.t) :
  Forall (fun c => match c with
                   | GL.vertexAttribPointer loc _ | GL.enableVertexAttribArray loc =>
                       loc <> Some (-1)%Z
                   | _ => True
                   end) (ShaderBind.bind bs sh)
  /\ last (ShaderBind.bind bs sh) = Some (GL.useProgram (GLShader.program sh))
  /\ (forall b buff l, In (b, buff) bs -> b <> "index"%string ->
        Dict.get b (GLShader.locations sh) = Some l -> l <> (-1)%Z ->
        In (GL.bindBuffer GL.ARRAY_BUFFER (Mesh.handle buff)) (ShaderBind.bind bs sh)
        /\ In (GL.vertexAttribPointer (Some l) (Mesh.itemSize buff)) (ShaderBind.bind bs sh)
        /\ In (GL.enableVertexAttribArray (Some l)) (ShaderBind.bind bs sh))
  /\ (forall buff, In ("index"%string, buff) bs ->
        In (GL.bindBuffer GL.ELEMENT_ARRAY_BUFFER (Mesh.handle buff)) (ShaderBind.bind bs sh))
  /\ (forall h, In (GL.bindBuffer GL.ARRAY_BUFFER h) (ShaderBind.bind bs sh) ->
        exists b buff, In (b, buff) bs /\ Mesh.handle buff = h /\ b <> "index"%string
                       /\ Dict.get b (GLShader.locations sh) <> Some (-1)%Z).
Proof.
  unfold ShaderBind.bind. split; [| split; [| split; [| split]]].
  - apply Forall_app. split; [| repeat constructor].
    apply Forall_flat_map, Forall_forall. intros [b buff] _. unfold ShaderBind.bind_buffer.
    destruct (decide (b = "index"%string)); [repeat constructor |].
    destruct (decide (Dict.get b (GLShader.locations sh) = Some (-1)%Z)) as [| Hne];
      repeat constructor; exact Hne.
  - apply last_snoc.
  - intros b buff l Hin Hb Hl Hl1.
    assert (Hsub : forall c, In c (ShaderBind.bind_buffer sh (b, buff)) ->
                             In c (flat_map (ShaderBind.bind_buffer sh) bs ++
                                   [GL.useProgram (GLShader.program sh)])).
    { intros c Hc. apply in_or_app. left. apply in_flat_map. exists (b, buff). auto. }
    unfold ShaderBind.bind_buffer in Hsub.
    rewrite decide_False in Hsub by exact Hb.
    rewrite decide_False in Hsub by (rewrite Hl; congruence).
    rewrite Hl in Hsub.
    repeat split; apply Hsub; simpl; tauto.
  - intros buff Hin. apply in_or_app. left. apply in_flat_map. exists ("index"%string, buff).
    split; [exact Hin |]. simpl. left. reflexivity.
  - intros h Hin. apply in_app_or in Hin. destruct Hin as [Hin | [Hin | []]]; [| discriminate Hin].
    apply in_flat_map in Hin. destruct Hin as ([b buff] & Hin & Hc).
    unfold ShaderBind.bind_buffer in Hc.
    destruct (decide (b = "index"%string)) as [| Hb].
    { destruct Hc as [Hc | []]. discriminate Hc. }
    destruct (decide (Dict.get b (GLShader.locations sh) = Some (-1)%Z)) as [| Hl];
      [destruct Hc |].
    destruct Hc as [Hc | [Hc | [Hc | []]]]; try discriminate Hc.
    injection Hc as Hh. exists b, buff. repeat split; assumption.
Qed.

Lemma run_app (a b : list GL.command) (s : GLState.t) :
  GLState.run (a ++ b) s = GLState.run b (GLState.run a s).
Proof. apply fold_left_app. Qed.

Lemma run_Texture_buffer (h : nat) (w hh : Q) (s : GLState.t) :
  GLState.run (snd (Texture_buffer h w hh)) s
  = GLState.mk (GLState.viewport_box s) (GLState.active_unit s)
      (delete (GLState.active_unit s) (GLState.texture_binding s))
      (GLState.renderbuffer_binding s) (GLState.framebuffer_binding s)
      (<[h := (w, hh)]> (GLState.texture_size s))
      (GLState.renderbuffer_size s) (GLState.color_attachment s).
Proof.
  unfold GLState.run. simpl. rewrite lookup_insert_eq. simpl.
  rewrite delete_insert_eq. reflexivity.
Qed.

Lemma init_gBuffer_calls (win : Window.t) (hpos halb hnrm hmat hdepth hfbo addr : nat) (r : t) :
  snd (init_gBuffer win hpos halb hnrm hmat hdepth hfbo addr r)
  = snd (Texture_buffer hpos (Window.innerWidth win) (Window.innerHeight win))
    ++ snd (Texture_buffer halb (Window.innerWidth win) (Window.innerHeight win))
    ++ snd (Texture_buffer hnrm (Window.innerWidth win) (Window.innerHeight win))
    ++ snd (Texture_buffer hmat (Window.innerWidth win) (Window.innerHeight win))
    ++ [GL.bindRenderbuffer (Some hdepth);
        GL.renderbufferStorage_DEPTH24 (Window.innerWidth win) (Window.innerHeight win);
        GL.bindRenderbuffer None;
        GL.bindFramebuffer (Some hfbo); GL.framebufferRenderbuffer_DEPTH hdepth;
        GL.framebufferTexture2D 0 hpos; GL.framebufferTexture2D 1 halb;
        GL.framebufferTexture2D 2 hnrm; GL.framebufferTexture2D 3 hmat;
        GL.bindFramebuffer None].
Proof. reflexivity. Qed.

Lemma run_init_gBuffer (win : Window.t) (hpos halb hnrm hmat hdepth hfbo addr : nat) (r : t)
  (s : GLState.t) :
  let size := (Window.innerWidth win, Window.innerHeight win) in
  GLState.run (snd (init_gBuffer win hpos halb hnrm hmat hdepth hfbo addr r)) s
  = GLState.mk (GLState.viewport_box s) (GLState.active_unit s)
      (delete (GLState.active_unit s) (GLState.texture_binding s))
      None None
      (<[hmat := size]> (<[hnrm := size]> (<[halb := size]> (<[hpos := size]>
         (GLState.texture_size s)))))
      (<[hdepth := size]> (GLState.renderbuffer_size s))
      (<[(hfbo, 3%nat) := hmat]> (<[(hfbo, 2%nat) := hnrm]> (<[(hfbo, 1%nat) := halb]>
         (<[(hfbo, 0%nat) := hpos]> (GLState.color_attachment s))))).
Proof.
  intros size. rewrite init_gBuffer_calls.
  rewrite !run_app, !run_Texture_buffer.
  cbn [GLState.viewport_box GLState.active_unit GLState.texture_binding
       GLState.renderbuffer_binding GLState.framebuffer_binding GLState.texture_size
       GLState.renderbuffer_size GLState.color_attachment].
  rewrite !delete_delete_eq.
  reflexivity.
Qed.

(** *** Frames change bindings only *)

Lemma exec_steady (s : GLState.t) (c : GL.command) :
  Bound.steady c = true ->
  GLState.viewport_box (GLState.exec s c) = GLState.viewport_box s
  /\ GLState.renderbuffer_binding (GLState.exec s c) = GLState.renderbuffer_binding s
  /\ GLState.texture_size (GLState.exec s c) = GLState.texture_size s
  /\ GLState.renderbuffer_size (GLState.exec s c) = GLState.renderbuffer_size s
  /\ GLState.color_attachment (GLState.exec s c) = GLState.color_attachment s.
Proof.
  destruct c; intros H; try discriminate H; try (repeat split; fail).
  destruct tex; [repeat split | discriminate H].
Qed.

Lemma run_steady (cs : list GL.command) (s : GLState.t) :
  Forall (fun c => Bound.steady c = true) cs ->
  GLState.viewport_box (GLState.run cs s) = GLState.viewport_box s
  /\ GLState.renderbuffer_binding (GLState.run cs s) = GLState.renderbuffer_binding s
  /\ GLState.texture_size (GLState.run cs s) = GLState.texture_size s
  /\ GLState.renderbuffer_size (GLState.run cs s) = GLState.renderbuffer_size s
  /\ GLState.color_attachment (GLState.run cs s) = GLState.color_attachment s.
Proof.
  intros Hall. revert s. unfold GLState.run.
  induction Hall as [| c cs Hc Hall IH]; intros s; simpl; [repeat split |].
  destruct (IH (GLState.exec s c)) as (H1 & H2 & H3 & H4 & H5).
  destruct (exec_steady s c Hc) as (E1 & E2 & E3 & E4 & E5).
  rewrite H1, H2, H3, H4, H5. repeat split; assumption.
Qed.

Lemma shader_bind_steady (bs : Dict.t Mesh.buffer) (sh : GLShader.t) :
  Forall (fun c => Bound.steady c = true) (ShaderBind.bind bs sh).
Proof.
  unfold ShaderBind.bind. apply Forall_app. split; [| repeat constructor].
  apply Forall_flat_map. apply Forall_forall. intros [b buff] _.
  unfold ShaderBind.bind_buffer.
  destruct (decide (b = "index"%string)); [repeat constructor |].
  destruct (decide (Dict.get b (GLShader.locations sh) = Some (-1)%Z)); repeat constructor.
Qed.

Lemma material_bind_steady (sh : GLShader.t) (texs : Dict.t Texture.t) (n : nat) :
  Forall (fun c => Bound.steady c = true) (Material.bind_from n texs sh).
Proof.
  revert n. induction texs as [| [k tex] texs IH]; intros n; simpl; [constructor |].
  repeat constructor. apply IH.
Qed.

Lemma instance_bind_steady (hp : gmap nat Material.t) (att : Attributes.t)
  (m : MeshInstance.t) :
  Forall (fun c => Bound.steady c = true) (MeshInstance.bind hp att m).
Proof.
  unfold MeshInstance.bind.
  apply Forall_app; split; [apply shader_bind_steady |].
  apply Forall_app; split; [repeat constructor |].
  apply Forall_app; split; [repeat constructor | apply material_bind_steady].
Qed.

Lemma instance_draw_is_draw (m : MeshInstance.t) (c : GL.command) :
  MeshInstance.draw m = Some c -> GL.is_draw c = true.
Proof.
  unfold MeshInstance.draw, Mesh.draw.
  destruct (Mesh.kind (MeshInstance.mesh m));
    destruct (Dict.get _ _); intros [= <-] || discriminate; reflexivity.
Qed.

Lemma is_draw_steady (c : GL.command) : GL.is_draw c = true -> Bound.steady c = true.
Proof. destruct c; try discriminate; reflexivity. Qed.

Ltac steady :=
  repeat first
    [ apply instance_bind_steady
    | exact I
    | assumption
    | apply Forall_nil
    | apply List.Forall_cons; [first [reflexivity | assumption] |]
    | apply Forall_app; split ].

Lemma geometry_pass_steady (hp : gmap nat Material.t) (att : Attributes.t)
  (meshes : list MeshInstance.t) :
  Forall (fun c => Bound.steady c = true) (fst (geometry_pass hp att meshes)).
Proof.
  induction meshes as [| m meshes IH]; simpl; [constructor |].
  destruct (MeshInstance.visible m); simpl; [| exact IH].
  destruct (MeshInstance.draw m) as [c |] eqn:Hc.
  - destruct (geometry_pass hp att meshes) as [cs ok]. simpl in *.
    apply instance_draw_is_draw, is_draw_steady in Hc. steady.
  - apply instance_bind_steady.
Qed.

Lemma overlay_loop_steady (texref : nat) (att : Attributes.t) (dx height : Q)
  (keys : list string) :
  forall (dy : Q) (q : MeshInstance.t) (hp : gmap nat Material.t),
  Forall (fun c => Bound.steady c = true)
         (ov_calls (overlay_loop keys texref att dx dy height q hp)).
Proof.
  induction keys as [| k keys IH]; intros dy q hp; simpl; [constructor |].
  destruct (decide (k = "base"%string)); [apply IH |].
  destruct (Dict.get k (Material.textures (hp !!! texref))) as [tx |]; [| constructor].
  destruct (MeshInstance.draw (MeshInstance.setPosition dx dy 0 q)) as [c |] eqn:Hc; simpl.
  - apply instance_draw_is_draw, is_draw_steady in Hc. specialize (IH (dy - height)). steady.
    apply IH.
  - apply instance_bind_steady.
Qed.

Lemma renderScene_steady (win : Window.t) (r : t) :
  Forall (fun c => Bound.steady c = true) (calls (renderScene win r)).
Proof.
  unfold renderScene.
  destruct (Dict.get "gBuffer" (materials r)) as [texref |]; [| constructor].
  destruct (PerspectiveCamera.update (attributes r) (camera r)) as [cam att1].
  pose proof (geometry_pass_steady (heap r) att1 (Scene.meshes (scene r))) as Hgeo.
  destruct (geometry_pass (heap r) att1 (Scene.meshes (scene r))) as [geometry ok].
  simpl in Hgeo.
  unfold gBuffer_bind, GLShader.setUniformFloat3.
  destruct ok; cbn [negb calls]; [| steady].
  destruct (OrthographicCamera.update att1 (postCamera r)) as [post att2].
  destruct (MeshInstance.draw _) as [c |] eqn:Hc; cbn [calls]; [| steady].
  apply instance_draw_is_draw, is_draw_steady in Hc.
  destruct (Attributes.drawGbuffer _); cbn [calls]; [| steady].
  match goal with
  | |- context [ov_calls ?o] =>
      assert (Hov : Forall (fun c => Bound.steady c = true) (ov_calls o))
        by (unfold draw_gbuffer; apply overlay_loop_steady)
  end.
  steady.
Qed.

(** *** The invariant of a running page *)

Lemma handle_invariant (s : Session.t) (e : Session.event) :
  Session.invariant s -> Session.invariant (Session.handle s e).
Proof.
  intros (Hinit & Hgrouped & Hsized).
  destruct s as [win x]. cbn [Session.world] in *.
  destruct e as [win' | | b | v | v | sc]; cbn [Session.handle Session.world Session.window].
  - (* resize *)
    destruct (on_resize_sizes win' x Hinit) as (Hcv & Hrb & Htex & Hsame & Hatt).
    split; [destruct x; exact Hinit |].
    split; [apply on_resize_grouped; assumption |].
    unfold Session.sized. cbn [Session.world Session.window fst snd].
    split; [exact Hcv |].
    split.
    { destruct x as [r cv gl]. unfold on_resize. cbn [w_renderer w_gl].
      simpl in Hinit.
      pose proof (run_onWindowResize win' r gl Hinit) as Hrun.
      destruct (onWindowResize win' r) as [cv' cs] eqn:Hres. cbn [w_gl].
      simpl in Hrun. rewrite Hrun. reflexivity. }
    split; [exact Hrb |].
    intros tex Ha. apply Htex. rewrite Hsame.
    apply grouped_textures; [exact Hgrouped |]. apply Hatt, Ha.
  - (* frame *)
    destruct (renderScene_leaves win (w_renderer x)) as (Hi & _ & Hgb & _).
    destruct (run_steady _ (w_gl x) (renderScene_steady win (w_renderer x)))
      as (Hvb & _ & Hts & Hrs & Hca).
    split; [change (init (after (renderScene win (w_renderer x))) = true);
            rewrite Hi; exact Hinit |].
    split; [apply on_frame_grouped, Hgrouped |].
    destruct Hsized as (Scv & Svb & Srb & Stex).
    unfold Session.sized, attached in *.
    cbn [Session.world Session.window fst snd] in *.
    change (w_canvas (on_frame win x)) with (w_canvas x).
    change (w_gl (on_frame win x))
      with (GLState.run (calls (renderScene win (w_renderer x))) (w_gl x)).
    change (w_renderer (on_frame win x)) with (after (renderScene win (w_renderer x))).
    rewrite Hvb, Hts, Hrs, Hca, Hgb.
    repeat split; assumption.
  - destruct x as [r cv gl]. split; [exact Hinit |]. split; [exact Hgrouped | exact Hsized].
  - destruct x as [r cv gl]. split; [exact Hinit |]. split; [exact Hgrouped | exact Hsized].
  - destruct x as [r cv gl]. split; [exact Hinit |]. split; [exact Hgrouped | exact Hsized].
  - destruct x as [r cv gl]. split; [exact Hinit |]. split; [exact Hgrouped | exact Hsized].
Qed.

Lemma play_invariant (es : list Session.event) (s : Session.t) :
  Session.invariant s -> Session.invariant (Session.play es s).
Proof.
  unfold Session.play. revert s.
  induction es as [| e es IH]; intros s Hs; simpl; [exact Hs |].
  apply IH, handle_invariant, Hs.
Qed.

Lemma new_calls (win : Window.t) (sh : shaders_t)
  (hpos halb hnrm hmat hdepth hfbo addr b1 b2 b3 : nat) :
  forall r0,
    snd (new win sh hpos halb hnrm hmat hdepth hfbo addr b1 b2 b3)
    = GL.viewport 0 0 (Window.innerWidth win) (Window.innerHeight win)
      :: snd (init_gBuffer win hpos halb hnrm hmat hdepth hfbo addr r0).
Proof. reflexivity. Qed.

Lemma start_gl (win : Window.t) (sh : shaders_t)
  (hpos halb hnrm hmat hdepth hfbo addr b1 b2 b3 : nat) :
  let size := (Window.innerWidth win, Window.innerHeight win) in
  w_gl (Session.world (Session.start win sh hpos halb hnrm hmat hdepth hfbo addr b1 b2 b3))
  = GLState.mk (0, 0, Window.innerWidth win, Window.innerHeight win) 0 (delete 0%nat ∅)
      None None
      (<[hmat := size]> (<[hnrm := size]> (<[halb := size]> (<[hpos := size]> ∅))))
      (<[hdepth := size]> ∅)
      (<[(hfbo, 3%nat) := hmat]> (<[(hfbo, 2%nat) := hnrm]> (<[(hfbo, 1%nat) := halb]>
         (<[(hfbo, 0%nat) := hpos]> ∅)))).
Proof.
  intros size. unfold Session.start. cbn [Session.world w_gl].
  rewrite (new_calls win sh hpos halb hnrm hmat hdepth hfbo addr b1 b2 b3
             (fst (fst (new win sh hpos halb hnrm hmat hdepth hfbo addr b1 b2 b3)))).
  change (GLState.run (?c :: ?cs) ?s) with (GLState.run cs (GLState.exec s c)).
  rewrite run_init_gBuffer. reflexivity.
Qed.

Lemma start_invariant (win : Window.t) (sh : shaders_t)
  (hpos halb hnrm hmat hdepth hfbo addr b1 b2 b3 : nat) :
  Session.invariant (Session.start win sh hpos halb hnrm hmat hdepth hfbo addr b1 b2 b3).
Proof.
  split; [reflexivity |].
  split; [apply new_grouped |].
  unfold Session.sized.
  rewrite start_gl.
  split; [reflexivity |]. split; [reflexivity |].
  split.
  { cbn [GLState.renderbuffer_size]. apply lookup_insert_eq. }
  intros tex [i Hi].
  assert (Hfbo : FBO (gBuffer (w_renderer (Session.world
                   (Session.start win sh hpos halb hnrm hmat hdepth hfbo addr b1 b2 b3))))
                 = hfbo) by reflexivity.
  rewrite Hfbo in Hi. cbn [GLState.color_attachment GLState.texture_size] in *.
  change (Session.window (Session.start win sh hpos halb hnrm hmat hdepth hfbo addr b1 b2 b3))
    with win.
  change (<[hmat := (Window.innerWidth win, Window.innerHeight win)]>
            (<[hnrm := (Window.innerWidth win, Window.innerHeight win)]>
               (<[halb := (Window.innerWidth win, Window.innerHeight win)]>
                  (<[hpos := (Window.innerWidth win, Window.innerHeight win)]> ∅))))
    with (fold_left (fun m id => <[id := (Window.innerWidth win, Window.innerHeight win)]> m)
            [hpos; halb; hnrm; hmat] (∅ : gmap nat (Q * Q))).
  rewrite fold_insert_lookup.
  repeat (apply lookup_insert_Some in Hi; destruct Hi as [[_ <-] | [_ Hi]];
          [rewrite decide_True by (apply list_elem_of_In; simpl; tauto); reflexivity |]).
  rewrite lookup_empty in Hi. discriminate Hi.
Qed.


(** *** What is bound at each call of a frame *)

Lemma annotate_app (a b : list GL.command) (s : Bound.t) :
  Bound.annotate (a ++ b) s
  = Bound.annotate a s ++ Bound.annotate b (fold_left Bound.track a s).
Proof.
  revert s. induction a as [| c a IH]; intros s; simpl; [reflexivity |].
  rewrite IH. reflexivity.
Qed.

Lemma draws_app (a b : list GL.command) (s : Bound.t) :
  Bound.draws (a ++ b) s = Bound.draws a s ++ Bound.draws b (fold_left Bound.track a s).
Proof. unfold Bound.draws. rewrite annotate_app, List.filter_app. reflexivity. Qed.

Lemma track_plain (cs : list GL.command) (s : Bound.t) :
  Forall (fun c => Bound.plain c = true) cs ->
  fold_left Bound.track cs s = s /\ Bound.draws cs s = [].
Proof.
  intros Hall. revert s. induction Hall as [| c cs Hc Hall IH]; intros s; [split; reflexivity |].
  assert (Hs : Bound.track s c = s) by (destruct c; try discriminate Hc; reflexivity).
  assert (Hd : GL.is_draw c = false) by (destruct c; try discriminate Hc; reflexivity).
  unfold Bound.draws. cbn [fold_left Bound.annotate List.filter snd]. rewrite Hs, Hd.
  apply IH.
Qed.

Lemma shader_buffers_plain (bs : Dict.t Mesh.buffer) (sh : GLShader.t) :
  Forall (fun c => Bound.plain c = true) (flat_map (ShaderBind.bind_buffer sh) bs).
Proof.
  apply Forall_flat_map. apply Forall_forall. intros [b buff] _.
  unfold ShaderBind.bind_buffer.
  destruct (decide (b = "index"%string)); [repeat constructor |].
  destruct (decide (Dict.get b (GLShader.locations sh) = Some (-1)%Z)); repeat constructor.
Qed.

Lemma material_bind_plain (sh : GLShader.t) (texs : Dict.t Texture.t) (n : nat) :
  Forall (fun c => Bound.plain c = true) (Material.bind_from n texs sh).
Proof.
  revert n. induction texs as [| [k tex] texs IH]; intros n; simpl; [constructor |].
  repeat constructor. apply IH.
Qed.

Lemma instance_bind_split (hp : gmap nat Material.t) (a : Attributes.t) (m : MeshInstance.t) :
  MeshInstance.bind hp a m
  = flat_map (ShaderBind.bind_buffer (MeshInstance.shader m))
      (Mesh.buffers (MeshInstance.mesh m))
    ++ GL.useProgram (GLShader.program (MeshInstance.shader m)) :: Bound.instance_uniforms hp a m.
Proof.
  unfold MeshInstance.bind, ShaderBind.bind, Bound.instance_uniforms.
  rewrite <- app_assoc. reflexivity.
Qed.

Lemma instance_uniforms_plain (hp : gmap nat Material.t) (a : Attributes.t)
  (m : MeshInstance.t) :
  Forall (fun c => Bound.plain c = true) (Bound.instance_uniforms hp a m).
Proof.
  unfold Bound.instance_uniforms.
  apply Forall_app; split; [repeat constructor |].
  apply Forall_app; split; [repeat constructor | apply material_bind_plain].
Qed.

Lemma instance_bind_track (hp : gmap nat Material.t) (a : Attributes.t) (m : MeshInstance.t)
  (s : Bound.t) :
  fold_left Bound.track (MeshInstance.bind hp a m) s
  = (fst s, Some (GLShader.program (MeshInstance.shader m)))
  /\ Bound.draws (MeshInstance.bind hp a m) s = [].
Proof.
  rewrite instance_bind_split.
  destruct (track_plain _ s (shader_buffers_plain (Mesh.buffers (MeshInstance.mesh m))
                               (MeshInstance.shader m))) as [Ht Hd].
  destruct (track_plain _ (fst s, Some (GLShader.program (MeshInstance.shader m)))
              (instance_uniforms_plain hp a m)) as [Ht' Hd'].
  split.
  - rewrite fold_left_app, Ht. cbn [fold_left Bound.track]. exact Ht'.
  - rewrite draws_app, Hd, Ht. unfold Bound.draws in *.
    cbn [Bound.annotate List.filter snd GL.is_draw app Bound.track]. exact Hd'.
Qed.

Lemma draws_cons_draw (d : GL.command) (cs : list GL.command) (s : Bound.t) :
  GL.is_draw d = true ->
  Bound.draws (d :: cs) s = (s, d) :: Bound.draws cs s.
Proof.
  intros Hd. unfold Bound.draws. cbn [Bound.annotate List.filter snd]. rewrite Hd.
  destruct d; try discriminate Hd; reflexivity.
Qed.

Lemma track_cons_draw (d : GL.command) (s : Bound.t) :
  GL.is_draw d = true -> Bound.track s d = s.
Proof. destruct d; try discriminate; reflexivity. Qed.

Lemma geometry_pass_draws (hp : gmap nat Material.t) (att : Attributes.t)
  (meshes : list MeshInstance.t) (s : Bound.t) :
  Forall (fun m => MeshInstance.visible m = true -> drawable m) meshes ->
  map fst (Bound.draws (fst (geometry_pass hp att meshes)) s)
  = map (fun m => (fst s, Some (GLShader.program (MeshInstance.shader m))))
        (List.filter MeshInstance.visible meshes)
  /\ fst (fold_left Bound.track (fst (geometry_pass hp att meshes)) s) = fst s.
Proof.
  intros Hall. revert s. induction Hall as [| m meshes Hm Hall IH]; intros s.
  - split; reflexivity.
  - cbn [geometry_pass List.filter].
    destruct (MeshInstance.visible m); cbn [negb]; [| apply IH].
    destruct (Hm eq_refl) as [d Hd]. rewrite Hd.
    pose proof (instance_draw_is_draw m d Hd) as Hdraw.
    destruct (geometry_pass hp att meshes) as [cs ok] eqn:Hgeo. cbn [fst] in *.
    destruct (instance_bind_track hp att m s) as [Ht Hb].
    specialize (IH (fst s, Some (GLShader.program (MeshInstance.shader m)))).
    destruct IH as [IHd IHt]. cbn [fst] in *.
    split.
    + rewrite draws_app, Hb, Ht, (draws_cons_draw d cs _ Hdraw). cbn [app map fst].
      rewrite IHd. reflexivity.
    + rewrite fold_left_app, Ht. cbn [fold_left]. rewrite (track_cons_draw d _ Hdraw).
      exact IHt.
Qed.



Lemma uniform_own (sh : GLShader.t) (name : string) (l : GL.uniform_location) :
  Bound.own_locations sh -> GLShader.uniform name sh = Some l ->
  GL.ul_program l = GLShader.program sh.
Proof.
  intros Hown. unfold GLShader.uniform.
  destruct (Dict.get name (GLShader.uniforms sh)) as [o |] eqn:Hget; [| discriminate].
  intros ->. apply (Hown name l Hget).
Qed.

Lemma annotate_plain (cs : list GL.command) (s : Bound.t) :
  Forall (fun c => Bound.plain c = true) cs ->
  Bound.annotate cs s = map (fun c => (s, c)) cs.
Proof.
  intros Hall. revert s. induction Hall as [| c cs Hc Hall IH]; intros s; [reflexivity |].
  assert (Hs : Bound.track s c = s) by (destruct c; try discriminate Hc; reflexivity).
  cbn [Bound.annotate map]. rewrite Hs, IH. reflexivity.
Qed.

Lemma annotate_no_uniform (cs : list GL.command) (s : Bound.t) :
  Forall (fun c => Bound.uniform_target c = None) cs ->
  Forall Bound.on_program (Bound.annotate cs s).
Proof.
  intros Hall. revert s. induction Hall as [| c cs Hc Hall IH]; intros s; [constructor |].
  cbn [Bound.annotate]. constructor; [| apply IH].
  intros l Hl. cbn [snd] in Hl. rewrite Hc in Hl. discriminate Hl.
Qed.

Lemma material_bind_own (sh : GLShader.t) (texs : Dict.t Texture.t) (n : nat) (fb : option nat) :
  Bound.own_locations sh ->
  Forall Bound.on_program
    (map (fun c => ((fb, Some (GLShader.program sh)), c)) (Material.bind_from n texs sh)).
Proof.
  intros Hown. revert n. induction texs as [| [k tex] texs IH]; intros n; simpl; [constructor |].
  constructor; [intros l Hl; discriminate Hl |].
  constructor; [intros l Hl; discriminate Hl |].
  constructor; [| apply IH].
  intros l Hl. cbn in Hl |- *. f_equal. symmetry. apply (uniform_own sh k l Hown Hl).
Qed.

Lemma instance_bind_own (hp : gmap nat Material.t) (a : Attributes.t) (m : MeshInstance.t)
  (s : Bound.t) :
  Bound.own_locations (MeshInstance.shader m) ->
  Forall Bound.on_program (Bound.annotate (MeshInstance.bind hp a m) s).
Proof.
  intros Hown. rewrite instance_bind_split, annotate_app.
  apply Forall_app. split.
  - apply annotate_no_uniform. apply Forall_flat_map, Forall_forall. intros [b buff] _.
    unfold ShaderBind.bind_buffer.
    destruct (decide (b = "index"%string)); [repeat constructor |].
    destruct (decide (Dict.get b (GLShader.locations (MeshInstance.shader m)) = Some (-1)%Z));
      repeat constructor.
  - destruct (track_plain _ s (shader_buffers_plain (Mesh.buffers (MeshInstance.mesh m))
                                 (MeshInstance.shader m))) as [-> _].
    cbn [Bound.annotate Bound.track].
    constructor; [intros l Hl; discriminate Hl |].
    rewrite (annotate_plain _ _ (instance_uniforms_plain hp a m)).
    unfold Bound.instance_uniforms, GLShader.setMatrices, GLShader.setUniformFloat3, Material.bind.
    rewrite !map_app. cbn [map].
    apply Forall_app; split.
    { repeat constructor; intros l Hl; cbn in Hl |- *; f_equal; symmetry;
        apply (uniform_own _ _ l Hown Hl). }
    apply Forall_app; split.
    { repeat constructor; intros l Hl; cbn in Hl |- *; f_equal; symmetry;
        apply (uniform_own _ _ l Hown Hl). }
    apply material_bind_own, Hown.
Qed.

Lemma draw_no_uniform (d : GL.command) :
  GL.is_draw d = true -> Bound.uniform_target d = None.
Proof. destruct d; try discriminate; reflexivity. Qed.

Lemma geometry_pass_own (hp : gmap nat Material.t) (att : Attributes.t)
  (meshes : list MeshInstance.t) :
  Forall (fun m => Bound.own_locations (MeshInstance.shader m)) meshes ->
  forall s, Forall Bound.on_program (Bound.annotate (fst (geometry_pass hp att meshes)) s).
Proof.
  induction 1 as [| m meshes Hm Hall IH]; intros s; [constructor |].
  cbn [geometry_pass].
  destruct (MeshInstance.visible m); cbn [negb]; [| apply IH].
  destruct (MeshInstance.draw m) as [d |] eqn:Hd.
  - destruct (geometry_pass hp att meshes) as [cs ok]. cbn [fst] in *.
    rewrite annotate_app. apply Forall_app. split; [apply instance_bind_own, Hm |].
    cbn [Bound.annotate]. constructor; [| apply IH].
    intros l Hl. cbn [snd] in Hl.
    rewrite (draw_no_uniform d (instance_draw_is_draw m d Hd)) in Hl. discriminate Hl.
  - cbn [fst]. apply instance_bind_own, Hm.
Qed.

Lemma overlay_loop_own (texref : nat) (att : Attributes.t) (dx height : Q)
  (keys : list string) :
  forall (dy : Q) (q : MeshInstance.t) (hp : gmap nat Material.t) (s : Bound.t),
  Bound.own_locations (MeshInstance.shader q) ->
  Forall Bound.on_program
    (Bound.annotate (ov_calls (overlay_loop keys texref att dx dy height q hp)) s).
Proof.
  induction keys as [| k keys IH]; intros dy q hp s Hown; cbn [overlay_loop]; [constructor |].
  destruct (decide (k = "base"%string)); [apply IH, Hown |].
  destruct (Dict.get k (Material.textures (hp !!! texref))) as [tx |]; [| constructor].
  destruct (MeshInstance.draw (MeshInstance.setPosition dx dy 0 q)) as [d |] eqn:Hd;
    cbn [ov_calls].
  - rewrite annotate_app. apply Forall_app. split; [apply instance_bind_own, Hown |].
    cbn [Bound.annotate]. constructor; [| apply IH, Hown].
    intros l Hl. cbn [snd] in Hl.
    rewrite (draw_no_uniform d (instance_draw_is_draw _ d Hd)) in Hl. discriminate Hl.
  - apply instance_bind_own, Hown.
Qed.

Lemma own_app (a b : list GL.command) (s : Bound.t) :
  Forall Bound.on_program (Bound.annotate a s) ->
  (forall s', Forall Bound.on_program (Bound.annotate b s')) ->
  Forall Bound.on_program (Bound.annotate (a ++ b) s).
Proof. intros Ha Hb. rewrite annotate_app. apply Forall_app. split; [exact Ha | apply Hb]. Qed.

(** X17. Uniforms go to the program in use. When the uniform locations of
    every shader are locations of its own program and the deferred quad is
    drawn with the deferred shader, every [uniform*] call of a frame that
    has a location is issued while the program of that location is current:
    the matrices, the camera position and the samplers of each instance
    after the [useProgram] of its [bind], and the array of lights after the
    deferred quad has made the deferred program current. *)
Theorem frame_uniforms_on_current_program (win : Window.t) (r : t) (s : Bound.t) :
  Forall (fun m => Bound.own_locations (MeshInstance.shader m)) (Scene.meshes (scene r)) ->
  Bound.own_locations (MeshInstance.shader (bufferQuad r)) ->
  Bound.own_locations (sh_deferred (shaders r)) ->
  MeshInstance.shader (defferedQuad r) = sh_deferred (shaders r) ->
  Forall Bound.on_program (Bound.annotate (calls (renderScene win r)) s).
Proof.
  intros Hmeshes Hbq Hdef Hdq.
  unfold renderScene.
  destruct (Dict.get "gBuffer" (materials r)) as [texref |]; [| constructor].
  destruct (PerspectiveCamera.update (attributes r) (camera r)) as [cam att1].
  pose proof (geometry_pass_own (heap r) att1 (Scene.meshes (scene r)) Hmeshes) as Hgeo.
  destruct (geometry_pass (heap r) att1 (Scene.meshes (scene r))) as [geometry ok].
  cbn [fst] in Hgeo.
  assert (Hsetup : forall s',
             Forall Bound.on_program
               (Bound.annotate
                  (gBuffer_bind (gBuffer r)
                   ++ [GL.clearColor 0 0 0 1; GL.enable GL.DEPTH_TEST; GL.enable GL.CULL_FACE;
                       GL.cullFace_BACK; GL.clear_COLOR_DEPTH]) s')).
  { intros s'. apply annotate_no_uniform. repeat constructor. }
  destruct ok; cbn [negb calls].
  2:{ rewrite annotate_app. apply Forall_app. split; [apply Hsetup | apply Hgeo]. }
  destruct (OrthographicCamera.update att1 (postCamera r)) as [post att2].
  set (dq := MeshInstance.setPosition 0 0 0
               (MeshInstance.setScale (Window.innerWidth win) (Window.innerHeight win) 1
                  (defferedQuad r))).
  set (att3 := Attributes.set_cameraPosition (PerspectiveCamera.position cam) att2).
  assert (Hresolve : forall s',
             Forall Bound.on_program
               (Bound.annotate
                  (MeshInstance.bind (heap r) att3 dq
                   ++ GLShader.setUniformFloat3
                        (GL.floats_array (lightArr att3 (Scene.lights (scene r))))
                        "lights" (sh_deferred (shaders r))) s')).
  { intros s'. rewrite annotate_app. apply Forall_app. split.
    - apply instance_bind_own. change (MeshInstance.shader dq)
        with (MeshInstance.shader (defferedQuad r)). rewrite Hdq. exact Hdef.
    - destruct (instance_bind_track (heap r) att3 dq s') as [-> _].
      change (MeshInstance.shader dq) with (MeshInstance.shader (defferedQuad r)).
      rewrite Hdq. constructor; [| constructor].
      intros l Hl. cbn in Hl |- *. f_equal. symmetry.
      apply (uniform_own _ _ l Hdef Hl). }
  assert (Hdefault : forall s',
             Forall Bound.on_program
               (Bound.annotate
                  [GL.bindFramebuffer None; GL.clear_COLOR_DEPTH;
                   GL.disable GL.DEPTH_TEST; GL.disable GL.CULL_FACE] s')).
  { intros s'. apply annotate_no_uniform. repeat constructor. }
  assert (Hdraw : forall d s', MeshInstance.draw dq = Some d ->
                               Forall Bound.on_program (Bound.annotate [d] s')).
  { intros d s' Hd. apply annotate_no_uniform. constructor; [| constructor].
    apply draw_no_uniform, (instance_draw_is_draw dq d Hd). }
  destruct (MeshInstance.draw dq) as [d |] eqn:Hd; cbn [calls].
  2:{ apply own_app; [apply Hsetup | intros s1].
      apply own_app; [apply Hgeo | intros s2].
      apply own_app; [apply Hdefault | intros s3]. apply Hresolve. }
  destruct (Attributes.drawGbuffer att3); cbn [calls].
  - change (d :: ov_calls (draw_gbuffer win texref att3 (bufferQuad r) (heap r)))
      with ([d] ++ ov_calls (draw_gbuffer win texref att3 (bufferQuad r) (heap r))).
    apply own_app; [apply Hsetup | intros s1].
    apply own_app; [apply Hgeo | intros s2].
    apply own_app; [apply Hdefault | intros s3].
    apply own_app; [apply Hresolve | intros s4].
    apply own_app; [apply (Hdraw d s4 eq_refl) | intros s5].
    unfold draw_gbuffer. apply overlay_loop_own. exact Hbq.
  - apply own_app; [apply Hsetup | intros s1].
    apply own_app; [apply Hgeo | intros s2].
    apply own_app; [apply Hdefault | intros s3].
    apply own_app; [apply Hresolve | intros s4].
    apply (Hdraw d s4 eq_refl).
Qed.

Lemma update_settings (a : Attributes.t) (c : PerspectiveCamera.t) (p : OrthographicCamera.t) :
  let att := Attributes.set_cameraPosition
               (PerspectiveCamera.position (fst (PerspectiveCamera.update a c)))
               (snd (OrthographicCamera.update (snd (PerspectiveCamera.update a c)) p)) in
  Attributes.drawGbuffer att = Attributes.drawGbuffer a
  /\ Attributes.lightAmbience att = Attributes.lightAmbience a
  /\ Attributes.lightIntensity att = Attributes.lightIntensity a.
Proof.
  unfold PerspectiveCamera.update. destruct (PerspectiveCamera.orbit c); repeat split.
Qed.




(** X14. A frame touches bindings only. Whatever the renderer and the
    scene, and whether the frame runs to its end or stops at a mesh that
    cannot be drawn, its calls leave the viewport, the storage of every
    texture and renderbuffer, the attachments of every framebuffer and the
    renderbuffer binding as they were, and unbind no texture unit. *)
Theorem frame_keeps_storage (win : Window.t) (r : t) (s : GLState.t) :
  let s' := GLState.run (calls (renderScene win r)) s in
  GLState.viewport_box s' = GLState.viewport_box s
  /\ GLState.texture_size s' = GLState.texture_size s
  /\ GLState.renderbuffer_size s' = GLState.renderbuffer_size s
  /\ GLState.color_attachment s' = GLState.color_attachment s
  /\ GLState.renderbuffer_binding s' = GLState.renderbuffer_binding s
  /\ (forall u tex, GLState.texture_binding s !! u = Some tex ->
        is_Some (GLState.texture_binding s' !! u)).
Proof.
  intros s'. subst s'.
  pose proof (renderScene_steady win r) as Hall.
  destruct (run_steady _ s Hall) as (Hvb & Hrb & Hts & Hrs & Hca).
  repeat (split; [assumption |]).
  clear Hvb Hrb Hts Hrs Hca. revert s. unfold GLState.run.
  induction Hall as [| c cs Hc Hall IH]; intros s u tex Hu; simpl; [eexists; exact Hu |].
  assert (Hstep : is_Some (GLState.texture_binding (GLState.exec s c) !! u)).
  { destruct c; try discriminate Hc; try (eexists; exact Hu).
    destruct tex0; [| discriminate Hc]. destruct s as [vb au tb rb fb ts rs ca]. cbn in *.
    destruct (decide (u = au)) as [-> | Hne].
    - rewrite lookup_insert_eq. eexists; reflexivity.
    - rewrite lookup_insert_ne by congruence. eexists; exact Hu. }
  destruct Hstep as [tex' Htex']. apply (IH _ u tex' Htex').
Qed.

Lemma outputs_not_base (i : nat) (k : string) :
  In (i, k) GBufferShader.outputs -> k <> "base"%string.
Proof.
  intros Hin. repeat (destruct Hin as [[= <- <-] | Hin]; [discriminate |]). destruct Hin.
Qed.

Lemma handle_wired (s : Session.t) (e : Session.event) :
  GBufferShader.wired (Session.world s) -> GBufferShader.wired (Session.world (Session.handle s e)).
Proof.
  intros Hw. destruct s as [win x]. cbn [Session.world] in *.
  destruct e as [win' | | b | v | v | sc]; cbn [Session.handle Session.world Session.window].
  - intros i k Hin. destruct (Hw i k Hin) as (t & Hget & Hatt).
    exists t. destruct x as [r cv gl]. split; [exact Hget |].
    unfold on_resize. cbn [w_renderer w_gl] in *.
    destruct (init r) eqn:Hinit.
    + pose proof (run_onWindowResize win' r gl Hinit) as Hrun.
      destruct (onWindowResize win' r) as [cv' cs]. cbn [snd w_gl gBuffer] in *.
      rewrite Hrun. exact Hatt.
    + pose proof (run_onWindowResize_uninitialised win' r gl Hinit) as Hrun.
      destruct (onWindowResize win' r) as [cv' cs]. cbn [snd w_gl gBuffer] in *.
      rewrite Hrun. exact Hatt.
  - intros i k Hin. destruct (Hw i k Hin) as (t & Hget & Hatt).
    destruct (renderScene_leaves win (w_renderer x)) as (_ & _ & Hgb & _ & _ & _ & Hkeep & _).
    destruct (run_steady _ (w_gl x) (renderScene_steady win (w_renderer x)))
      as (_ & _ & _ & _ & Hca).
    exists t. cbn [Session.window].
    change (w_gl (on_frame win x))
      with (GLState.run (calls (renderScene win (w_renderer x))) (w_gl x)).
    change (w_renderer (on_frame win x)) with (after (renderScene win (w_renderer x))).
    rewrite Hca, Hgb, Hkeep by (apply (outputs_not_base i k Hin)).
    split; assumption.
  - destruct x as [r cv gl]. exact Hw.
  - destruct x as [r cv gl]. exact Hw.
  - destruct x as [r cv gl]. exact Hw.
  - destruct x as [r cv gl]. exact Hw.
Qed.

Lemma play_wired (es : list Session.event) (s : Session.t) :
  GBufferShader.wired (Session.world s) -> GBufferShader.wired (Session.world (Session.play es s)).
Proof.
  unfold Session.play. revert s.
  induction es as [| e es IH]; intros s Hs; simpl; [exact Hs |].
  apply IH, handle_wired, Hs.
Qed.

Lemma start_heap (win : Window.t) (sh : shaders_t)
  (hpos halb hnrm hmat hdepth hfbo addr b1 b2 b3 : nat) :
  let r := w_renderer (Session.world
             (Session.start win sh hpos halb hnrm hmat hdepth hfbo addr b1 b2 b3)) in
  Material.textures (heap r !!! gb_material (gBuffer r))
  = [("albedo", Texture.mk "buffer" halb);
     ("normal", Texture.mk "buffer" hnrm);
     ("material", Texture.mk "buffer" hmat);
     ("base", Texture.mk "buffer" hpos);
     ("position", Texture.mk "buffer" hpos)]%string.
Proof.
  unfold Session.start, new, init_gBuffer. simpl. rewrite lookup_total_insert_eq. reflexivity.
Qed.

Lemma start_wired (win : Window.t) (sh : shaders_t)
  (hpos halb hnrm hmat hdepth hfbo addr b1 b2 b3 : nat) :
  GBufferShader.wired (Session.world (Session.start win sh hpos halb hnrm hmat hdepth hfbo addr b1 b2 b3)).
Proof.
  intros i k Hin. rewrite start_heap, start_gl.
  assert (Hfbo : FBO (gBuffer (w_renderer (Session.world
                   (Session.start win sh hpos halb hnrm hmat hdepth hfbo addr b1 b2 b3))))
                 = hfbo) by reflexivity.
  rewrite Hfbo. cbn [GLState.color_attachment].
  destruct Hin as [[= <- <-] | [[= <- <-] | [[= <- <-] | [[= <- <-] | []]]]];
    eexists; (split; [reflexivity |]); cbn [Texture.index].
  - rewrite !lookup_insert_ne by (intros [= ?]; discriminate). apply lookup_insert_eq.
  - rewrite !lookup_insert_ne by (intros [= ?]; discriminate). apply lookup_insert_eq.
  - rewrite lookup_insert_ne by (intros [= ?]; discriminate). apply lookup_insert_eq.
  - apply lookup_insert_eq.
Qed.

(** X15. The G-buffer follows the window. From the constructor on, through
    any sequence of resizes, frames, changes of the three settings and
    changes of the scene: the canvas and the viewport have the size of the
    window as it is now; so have the depth renderbuffer and every colour
    attachment of the framebuffer of the G-buffer; and output [i] of the
    fragment shader of [gbuffer.js] still lands in the texture the G-buffer
    material holds under the key of its channel (position, albedo, normal,
    material for outputs 0 to 3). *)
Theorem session_buffers_match_window (win : Window.t) (sh : shaders_t)
  (hpos halb hnrm hmat hdepth hfbo addr b1 b2 b3 : nat) (es : list Session.event) :
  let s := Session.play es
             (Session.start win sh hpos halb hnrm hmat hdepth hfbo addr b1 b2 b3) in
  let size := (Window.innerWidth (Session.window s), Window.innerHeight (Session.window s)) in
  let r := w_renderer (Session.world s) in
  let gl := w_gl (Session.world s) in
  w_canvas (Session.world s) = Canvas (fst size) (snd size)
  /\ GLState.viewport_box gl = (0, 0, fst size, snd size)
  /\ GLState.renderbuffer_size gl !! depth (gBuffer r) = Some size
  /\ (forall i tex, GLState.color_attachment gl !! (FBO (gBuffer r), i) = Some tex ->
        GLState.texture_size gl !! tex = Some size)
  /\ (forall i k, In (i, k) GBufferShader.outputs ->
        exists t, Dict.get k (Material.textures (heap r !!! gb_material (gBuffer r))) = Some t
                  /\ GLState.color_attachment gl !! (FBO (gBuffer r), i)
                     = Some (Texture.index t)
                  /\ GLState.texture_size gl !! Texture.index t = Some size).
Proof.
  intros s size r gl.
  destruct (play_invariant es _ (start_invariant win sh hpos halb hnrm hmat hdepth hfbo
                                   addr b1 b2 b3)) as (_ & _ & Hcv & Hvb & Hrb & Htex).
  pose proof (play_wired es _ (start_wired win sh hpos halb hnrm hmat hdepth hfbo
                                 addr b1 b2 b3)) as Hw.
  fold s in Hcv, Hvb, Hrb, Htex, Hw. cbv zeta in Hcv, Hvb, Hrb, Htex.
  split; [exact Hcv |]. split; [exact Hvb |]. split; [exact Hrb |].
  split.
  { intros i tex Hi. apply Htex. exists i. exact Hi. }
  intros i k Hin. destruct (Hw i k Hin) as (t & Hget & Hatt).
  exists t. split; [exact Hget |]. split; [exact Hatt |].
  apply Htex. exists i. exact Hatt.
Qed.







Lemma dict_get_set_eq {V : Type} (k : string) (v : V) (d : Dict.t V) :
  Dict.get k (Dict.set k v d) = Some v.
Proof.
  induction d as [| [k' v'] d IH]; simpl.
  - rewrite decide_True by reflexivity. reflexivity.
  - destruct (decide (k = k')) as [-> | Hne]; simpl.
    + rewrite decide_True by reflexivity. reflexivity.
    + rewrite decide_False by exact Hne. exact IH.
Qed.

Lemma init_own (p : nat) (attrib : string -> Z)
  (location : string -> option GL.uniform_location) :
  (forall n l, location n = Some l -> GL.ul_program l = p) ->
  Bound.own_locations (GLShader.init p attrib location).
Proof.
  intros Hloc name l H. cbn [GLShader.init GLShader.uniforms GLShader.program] in *.
  cbn [Dict.get] in H.
  repeat match type of H with
         | context [decide (name = ?k)] =>
             destruct (decide (name = k));
               [injection H as H; apply (Hloc _ _ H) |]
         end.
  discriminate H.
Qed.

Lemma addUniform_own (name : string) (lo : option GL.uniform_location) (sh : GLShader.t) :
  Bound.own_locations sh ->
  (forall l, lo = Some l -> GL.ul_program l = GLShader.program sh) ->
  Bound.own_locations (GLShader.addUniform name lo sh).
Proof.
  intros Hown Hlo name' l H. cbn [GLShader.addUniform GLShader.uniforms GLShader.program] in *.
  destruct (decide (name' = name)) as [-> | Hne].
  - rewrite dict_get_set_eq in H. injection H as ->. apply Hlo. reflexivity.
  - rewrite dict_get_set_ne in H by exact Hne. apply (Hown name' l H).
Qed.

Lemma demo_linked_own (p : nat) (attribs : Dict.t Z) (active : list string) :
  Bound.own_locations (Demo.linked p attribs active).
Proof.
  apply init_own. intros n l H.
  destruct (decide (n ∈ active)); [injection H as <-; reflexivity | discriminate H].
Defined.

Lemma frame_uniforms_on_current_program_witness :
  Forall Bound.on_program
    (Bound.annotate (calls (renderScene Demo.win Demo.renderer)) (None, None)).
Proof.
  apply frame_uniforms_on_current_program.
  - repeat constructor; apply demo_linked_own.
  - apply demo_linked_own.
  - apply addUniform_own; [apply demo_linked_own |].
    intros l [= <-]. reflexivity.
  - reflexivity.
Defined.

(** X18. What the constructor leaves. The renderer is ready for a frame;
    no framebuffer, renderbuffer or texture is left bound; the [base] entry
    of the G-buffer material is its position texture; and the two quads
    share one mesh and the G-buffer material, the buffer quad drawn with the
    passthrough shader and the deferred quad with the deferred shader. *)
Theorem constructor_leaves_gbuffer (win : Window.t) (sh : shaders_t)
  (hpos halb hnrm hmat hdepth hfbo addr b1 b2 b3 : nat) :
  let s := Session.start win sh hpos halb hnrm hmat hdepth hfbo addr b1 b2 b3 in
  let r := w_renderer (Session.world s) in
  let gl := w_gl (Session.world s) in
  ready r addr
  /\ GLState.framebuffer_binding gl = None
  /\ GLState.renderbuffer_binding gl = None
  /\ GLState.texture_binding gl = ∅
  /\ Dict.get "base" (Material.textures (heap r !!! addr))
     = Dict.get "position" (Material.textures (heap r !!! addr))
  /\ MeshInstance.material (bufferQuad r) = addr
  /\ MeshInstance.material (defferedQuad r) = addr
  /\ MeshInstance.mesh (bufferQuad r) = MeshInstance.mesh (defferedQuad r)
  /\ MeshInstance.shader (bufferQuad r) = sh_passthrough sh
  /\ MeshInstance.shader (defferedQuad r) = sh_deferred sh.
Proof.
  intros s r gl.
  assert (Hready : ready r addr) by apply new_ready.
  assert (Hheap : Material.textures (heap r !!! addr)
                  = [("albedo", Texture.mk "buffer" halb);
                     ("normal", Texture.mk "buffer" hnrm);
                     ("material", Texture.mk "buffer" hmat);
                     ("base", Texture.mk "buffer" hpos);
                     ("position", Texture.mk "buffer" hpos)]%string).
  { apply (start_heap win sh hpos halb hnrm hmat hdepth hfbo addr b1 b2 b3). }
  split; [exact Hready |].
  unfold gl, s. rewrite start_gl.
  cbn [GLState.framebuffer_binding GLState.renderbuffer_binding GLState.texture_binding].
  split; [reflexivity |]. split; [reflexivity |].
  split; [apply delete_empty |].
  split; [rewrite Hheap; reflexivity |].
  repeat split.
Qed.

End FramePasses.

(** ** The overlay, as WebGL sees it *)

Section OverlayShots.

Import GLMatrix Renderer.
Local Open Scope Q_scope.

Lemma exec_bound (s : DrawState.t) (c : GL.command) :
  DrawState.bound (DrawState.exec s c) = Bound.track (DrawState.bound s) c.
Proof.
  unfold DrawState.bound. destruct s as [g p ints mats].
  destruct c; cbn [DrawState.exec GLState.exec Bound.track DrawState.gl DrawState.program];
    repeat case_match; cbn in *; congruence.
Qed.

Lemma run_bound (cs : list GL.command) (s : DrawState.t) :
  DrawState.bound (DrawState.run cs s) = fold_left Bound.track cs (DrawState.bound s).
Proof.
  unfold DrawState.run. revert s. induction cs as [| c cs IH]; intros s; [reflexivity |].
  cbn [fold_left]. rewrite IH, exec_bound. reflexivity.
Qed.

Lemma draw_state_run_app (a b : list GL.command) (s : DrawState.t) :
  DrawState.run (a ++ b) s = DrawState.run b (DrawState.run a s).
Proof. apply fold_left_app. Qed.

Lemma draw_state_draws_app (a b : list GL.command) (s : DrawState.t) :
  DrawState.draws (a ++ b) s = DrawState.draws a s ++ DrawState.draws b (DrawState.run a s).
Proof.
  revert s. induction a as [| c a IH]; intros s; [reflexivity |].
  cbn [app DrawState.draws]. rewrite IH.
  destruct (GL.is_draw c); reflexivity.
Qed.

Lemma draws_length (cs : list GL.command) (s : DrawState.t) (b : Bound.t) :
  length (DrawState.draws cs s) = length (Bound.draws cs b).
Proof.
  unfold Bound.draws. revert s b. induction cs as [| c cs IH]; intros s b; [reflexivity |].
  cbn [DrawState.draws Bound.annotate List.filter snd].
  destruct (GL.is_draw c); cbn [length]; rewrite (IH _ (Bound.track b c)); reflexivity.
Qed.

Lemma run_gl (cs : list GL.command) (s : DrawState.t) :
  DrawState.gl (DrawState.run cs s) = GLState.run cs (DrawState.gl s).
Proof.
  unfold DrawState.run, GLState.run. revert s.
  induction cs as [| c cs IH]; intros s; [reflexivity |].
  cbn [fold_left]. rewrite IH. f_equal. destruct s as [g p ints mats].
  destruct c; cbn [DrawState.exec DrawState.gl DrawState.program GLState.exec];
    repeat case_match; cbn in *; congruence.
Qed.

Lemma run_no_uniform (cs : list GL.command) (s : DrawState.t) :
  Forall (fun c => DrawState.no_uniform c = true) cs ->
  DrawState.program (DrawState.run cs s) = DrawState.program s
  /\ DrawState.integers (DrawState.run cs s) = DrawState.integers s
  /\ DrawState.matrices (DrawState.run cs s) = DrawState.matrices s.
Proof.
  unfold DrawState.run. intros Hall. revert s.
  induction Hall as [| c cs Hc _ IH]; intros s; [repeat split |].
  cbn [fold_left]. destruct (IH (DrawState.exec s c)) as (-> & -> & ->).
  destruct c; try discriminate Hc; repeat split.
Qed.


Lemma dict_keys_set {V : Type} (k : string) (v : V) (d : Dict.t V) :
  In k (Dict.keys d) -> Dict.keys (Dict.set k v d) = Dict.keys d.
Proof.
  unfold Dict.keys. induction d as [| [k' v'] d IH]; cbn; [intros [] |].
  destruct (decide (k = k')) as [-> | Hne]; [reflexivity |].
  intros [Heq | Hin]; [congruence |]. cbn. rewrite IH by exact Hin. reflexivity.
Qed.

Lemma dict_set_lookup {V : Type} (k : string) (v : V) (d : Dict.t V) :
  In k (Dict.keys d) -> exists j, Dict.set k v d !! j = Some (k, v).
Proof.
  unfold Dict.keys. induction d as [| [k' v'] d IH]; cbn; [intros [] |].
  destruct (decide (k = k')) as [-> | Hne]; [intros _; exists 0%nat; reflexivity |].
  intros [Heq | Hin]; [congruence |].
  destruct (IH Hin) as [j Hj]. exists (S j). exact Hj.
Qed.

Lemma exec_uniform1i (sh : GLShader.t) (k : string) (i : nat) (s : DrawState.t) :
  Bound.own_locations sh ->
  DrawState.program s = Some (GLShader.program sh) ->
  let s' := DrawState.exec s (GL.uniform1i (GLShader.uniform k sh) i) in
  DrawState.program s' = DrawState.program s
  /\ DrawState.matrices s' = DrawState.matrices s
  /\ DrawState.gl s' = DrawState.gl s
  /\ (forall l, GLShader.uniform k sh = Some l -> DrawState.integers s' l = Some i)
  /\ (forall l, GLShader.uniform k sh <> Some l ->
        DrawState.integers s' l = DrawState.integers s l).
Proof.
  intros Hown Hp. cbn zeta.
  destruct (GLShader.uniform k sh) as [l0 |] eqn:Hk; cbn [DrawState.exec].
  - rewrite decide_True by (rewrite Hp, (uniform_own sh k l0 Hown Hk); reflexivity).
    cbn. split; [reflexivity |]. split; [reflexivity |]. split; [reflexivity |]. split.
    + intros l [= <-]. rewrite decide_True by reflexivity. reflexivity.
    + intros l Hne. rewrite decide_False by congruence. reflexivity.
  - destruct s; cbn. split; [reflexivity |]. split; [reflexivity |].
    split; [reflexivity |]. split; [discriminate | reflexivity].
Qed.


Lemma bind_from_state (sh : GLShader.t) (texs : Dict.t Texture.t) :
  Bound.own_locations sh ->
  forall (n : nat) (s : DrawState.t),
  DrawState.program s = Some (GLShader.program sh) ->
  let s' := DrawState.run (Material.bind_from n texs sh) s in
  DrawState.program s' = DrawState.program s
  /\ DrawState.matrices s' = DrawState.matrices s
  /\ (forall l, (forall k, In k (Dict.keys texs) -> GLShader.uniform k sh <> Some l) ->
        DrawState.integers s' l = DrawState.integers s l)
  /\ (DrawState.distinct_locations sh -> NoDup (Dict.keys texs) ->
      forall j k tex l, texs !! j = Some (k, tex) -> GLShader.uniform k sh = Some l ->
        DrawState.integers s' l = Some (n + j)%nat).
Proof.
  intros Hown. induction texs as [| [k0 tex0] texs IH]; intros n s Hp; cbn zeta.
  - cbn. split; [reflexivity |]. split; [reflexivity |]. split; [reflexivity |].
    intros _ _ j k tex l Hj. discriminate Hj.
  - change (Material.bind_from n ((k0, tex0) :: texs) sh)
      with ([GL.activeTexture n; GL.bindTexture (Some (Texture.index tex0))]
            ++ [GL.uniform1i (GLShader.uniform k0 sh) n]
            ++ Material.bind_from (S n) texs sh).
    rewrite !draw_state_run_app.
    set (s1 := DrawState.run [GL.activeTexture n; GL.bindTexture (Some (Texture.index tex0))] s).
    assert (H1 : DrawState.program s1 = DrawState.program s
                 /\ DrawState.integers s1 = DrawState.integers s
                 /\ DrawState.matrices s1 = DrawState.matrices s).
    { apply run_no_uniform. repeat constructor. }
    destruct H1 as (Hp1 & Hi1 & Hm1).
    change (DrawState.run [GL.uniform1i (GLShader.uniform k0 sh) n] s1)
      with (DrawState.exec s1 (GL.uniform1i (GLShader.uniform k0 sh) n)).
    destruct (exec_uniform1i sh k0 n s1 Hown) as (Hp2 & Hm2 & _ & Hset & Hkeep);
      [congruence |].
    set (s2 := DrawState.exec s1 (GL.uniform1i (GLShader.uniform k0 sh) n)) in *.
    destruct (IH (S n) s2) as (Hp3 & Hm3 & Hother & Hmine); [congruence |].
    split; [congruence |]. split; [congruence |]. split.
    + intros l Hl. rewrite Hother.
      * rewrite Hkeep, Hi1; [reflexivity |]. apply Hl. left. reflexivity.
      * intros k Hin. apply Hl. right. exact Hin.
    + intros Hdist Hnd j k tex l Hj Hk.
      change (Dict.keys ((k0, tex0) :: texs)) with (k0 :: Dict.keys texs) in Hnd.
      apply NoDup_cons in Hnd as [Hnotin Hnd].
      destruct j as [| j]; cbn in Hj.
      * injection Hj as -> ->. rewrite Hother.
        -- rewrite (Hset l Hk). f_equal. lia.
        -- intros k' Hin Hk'. apply Hnotin. apply list_elem_of_In.
           rewrite (Hdist k k' l Hk Hk'). exact Hin.
      * rewrite (Hmine Hdist Hnd j k tex l Hj Hk). f_equal. lia.
Qed.


Lemma exec_uniformMatrix4fv (sh : GLShader.t) (k : string) (m : mat4) (s : DrawState.t) :
  Bound.own_locations sh ->
  DrawState.program s = Some (GLShader.program sh) ->
  let s' := DrawState.exec s (GL.uniformMatrix4fv (GLShader.uniform k sh) m) in
  DrawState.program s' = DrawState.program s
  /\ DrawState.integers s' = DrawState.integers s
  /\ DrawState.gl s' = DrawState.gl s
  /\ (forall l, GLShader.uniform k sh = Some l -> DrawState.matrices s' l = Some m)
  /\ (forall l, GLShader.uniform k sh <> Some l ->
        DrawState.matrices s' l = DrawState.matrices s l).
Proof.
  intros Hown Hp. cbn zeta.
  destruct (GLShader.uniform k sh) as [l0 |] eqn:Hk; cbn [DrawState.exec].
  - rewrite decide_True by (rewrite Hp, (uniform_own sh k l0 Hown Hk); reflexivity).
    cbn. split; [reflexivity |]. split; [reflexivity |]. split; [reflexivity |]. split.
    + intros l [= <-]. rewrite decide_True by reflexivity. reflexivity.
    + intros l Hne. rewrite decide_False by congruence. reflexivity.
  - destruct s; cbn. split; [reflexivity |]. split; [reflexivity |].
    split; [reflexivity |]. split; [discriminate | reflexivity].
Qed.

Lemma setMatrices_state (sh : GLShader.t) (projection model modelView : mat4)
  (s : DrawState.t) :
  Bound.own_locations sh -> DrawState.distinct_locations sh ->
  DrawState.program s = Some (GLShader.program sh) ->
  let s' := DrawState.run (GLShader.setMatrices projection model modelView sh) s in
  DrawState.program s' = DrawState.program s
  /\ (forall l, GLShader.uniform "projectionMatrix" sh = Some l ->
        DrawState.matrices s' l = Some projection)
  /\ (forall l, GLShader.uniform "modelViewMatrix" sh = Some l ->
        DrawState.matrices s' l = Some modelView).
Proof.
  intros Hown Hdist Hp. cbn zeta. unfold GLShader.setMatrices, DrawState.run.
  cbn [fold_left].
  destruct (exec_uniformMatrix4fv sh "projectionMatrix" projection s Hown Hp)
    as (Hp1 & _ & _ & Hset1 & _).
  set (s1 := DrawState.exec s _) in *.
  destruct (exec_uniformMatrix4fv sh "modelMatrix" model s1 Hown)
    as (Hp2 & _ & _ & _ & Hkeep2); [congruence |].
  set (s2 := DrawState.exec s1 _) in *.
  destruct (exec_uniformMatrix4fv sh "modelViewMatrix" modelView s2 Hown)
    as (Hp3 & _ & _ & Hset3 & Hkeep3); [congruence |].
  set (s3 := DrawState.exec s2 _) in *.
  split; [congruence |]. split.
  - intros l Hl. rewrite Hkeep3, Hkeep2.
    + apply Hset1, Hl.
    + intros Hl'. discriminate (Hdist _ _ _ Hl Hl').
    + intros Hl'. discriminate (Hdist _ _ _ Hl Hl').
  - intros l Hl. apply Hset3, Hl.
Qed.

Lemma instance_bind_state (hp : gmap nat Material.t) (a : Attributes.t) (m : MeshInstance.t)
  (s : DrawState.t) :
  Bound.own_locations (MeshInstance.shader m) ->
  DrawState.distinct_locations (MeshInstance.shader m) ->
  let sh := MeshInstance.shader m in
  let texs := Material.textures (hp !!! MeshInstance.material m) in
  let model := mat4_fromRotationTranslationScale (MeshInstance.rotation m)
                 (MeshInstance.position m) (MeshInstance.scale m) in
  let s' := DrawState.run (MeshInstance.bind hp a m) s in
  DrawState.bound s' = (GLState.framebuffer_binding (DrawState.gl s),
                        Some (GLShader.program sh))
  /\ (forall l, GLShader.uniform "projectionMatrix" sh = Some l ->
        DrawState.matrices s' l = Some (Attributes.projectionMatrix a))
  /\ (forall l, GLShader.uniform "modelViewMatrix" sh = Some l ->
        DrawState.matrices s' l = Some (mat4_multiply (Attributes.viewMatrix a) model))
  /\ (NoDup (Dict.keys texs) ->
      forall j k tex l, texs !! j = Some (k, tex) -> GLShader.uniform k sh = Some l ->
        DrawState.sampled l s' = Some (Texture.index tex)).
Proof.
  intros Hown Hdist sh texs model s'.
  split.
  { unfold s'. rewrite run_bound.
    destruct (instance_bind_track hp a m (DrawState.bound s)) as [-> _]. reflexivity. }
  unfold s'. clear s'. rewrite instance_bind_split.
  unfold Bound.instance_uniforms. fold sh model texs.
  change (GL.useProgram (GLShader.program sh) :: ?l)
    with ([GL.useProgram (GLShader.program sh)] ++ l).
  rewrite !draw_state_run_app.
  set (s0 := DrawState.run (flat_map _ _) s) in *.
  set (s1 := DrawState.run [GL.useProgram (GLShader.program sh)] s0) in *.
  assert (Hp1 : DrawState.program s1 = Some (GLShader.program sh)) by reflexivity.
  destruct (setMatrices_state sh (Attributes.projectionMatrix a) model
              (mat4_multiply (Attributes.viewMatrix a) model) s1 Hown Hdist Hp1)
    as (Hp2 & Hproj & Hmv).
  set (s2 := DrawState.run (GLShader.setMatrices _ _ _ sh) s1) in *.
  destruct (run_no_uniform
              (GLShader.setUniformFloat3 (GL.floats_point (Attributes.cameraPosition a))
                 "cameraPosition" sh) s2) as (Hp3 & Hi3 & Hm3); [repeat constructor |].
  set (s3 := DrawState.run (GLShader.setUniformFloat3 _ _ sh) s2) in *.
  unfold Material.bind. fold texs.
  destruct (bind_from_state sh texs Hown 0 s3) as (Hp4 & Hm4 & _ & Hints); [congruence |].
  set (s4 := DrawState.run (Material.bind_from 0 texs sh) s3) in *.
  split; [intros l Hl; rewrite Hm4, Hm3; apply Hproj, Hl |].
  split; [intros l Hl; rewrite Hm4, Hm3; apply Hmv, Hl |].
  intros Hnd j k tex l Hj Hk. unfold DrawState.sampled.
  rewrite (Hints Hdist Hnd j k tex l Hj Hk). cbn [mbind option_bind].
  unfold s4. rewrite run_gl.
  destruct (run_bind_from sh texs 0 (DrawState.gl s3)) as (Hb & _).
  rewrite Hb. pose proof (lookup_lt_Some _ _ _ Hj) as Hlt.
  rewrite decide_True by lia.
  replace (0 + j - 0)%nat with j by lia. rewrite Hj. reflexivity.
Qed.


Lemma filter_not_base_in (keys : list string) (i : nat) (k : string) :
  List.filter not_base keys !! i = Some k -> k <> "base"%string /\ In k keys.
Proof.
  intros Hi. apply list_elem_of_lookup_2, list_elem_of_In, filter_In in Hi.
  destruct Hi as [Hin Hnb]. split; [| exact Hin].
  unfold not_base in Hnb. destruct (decide (k = "base"%string)); [discriminate | assumption].
Qed.

Lemma overlay_loop_shots (texref : nat) (att : Attributes.t) (dx height : Q)
  (sh : GLShader.t) (base : GL.uniform_location) (keys : list string) :
  Bound.own_locations sh -> DrawState.distinct_locations sh ->
  GLShader.uniform "base" sh = Some base ->
  forall (dy : Q) (q : MeshInstance.t) (hp : gmap nat Material.t) (s : DrawState.t),
  MeshInstance.material q = texref ->
  MeshInstance.shader q = sh ->
  NoDup (Dict.keys (Material.textures (hp !!! texref))) ->
  In "base"%string (Dict.keys (Material.textures (hp !!! texref))) ->
  (forall k, In k keys -> k <> "base"%string ->
     is_Some (Dict.get k (Material.textures (hp !!! texref)))) ->
  forall c : GL.command, MeshInstance.draw q = Some c ->
  let o := overlay_loop keys texref att dx dy height q hp in
  let shots := DrawState.draws (ov_calls o) s in
  length shots = length (List.filter not_base keys)
  /\ (forall i k, List.filter not_base keys !! i = Some k ->
      exists (shot : DrawState.t) (tx : Texture.t) (y : Q),
        shots !! i = Some (shot, c)
        /\ Dict.get k (Material.textures (hp !!! texref)) = Some tx
        /\ DrawState.bound shot
           = (GLState.framebuffer_binding (DrawState.gl s), Some (GLShader.program sh))
        /\ DrawState.sampled base shot = Some (Texture.index tx)
        /\ (forall l, GLShader.uniform "projectionMatrix" sh = Some l ->
              DrawState.matrices shot l = Some (Attributes.projectionMatrix att))
        /\ (forall l, GLShader.uniform "modelViewMatrix" sh = Some l ->
              DrawState.matrices shot l
              = Some (mat4_multiply (Attributes.viewMatrix att)
                        (mat4_fromRotationTranslationScale (MeshInstance.rotation q)
                           (Vec3 dx y 0) (MeshInstance.scale q))))
        /\ y == dy - inject_Z (Z.of_nat i) * height).
Proof.
  intros Hown Hdist Hbase.
  induction keys as [| k keys IH]; intros dy q hp s Hmat Hsh Hnd Hin Hkeys c Hc;
    cbn [overlay_loop List.filter].
  - cbn. split; [reflexivity |]. intros i k Hi. destruct i; discriminate Hi.
  - destruct (decide (k = "base"%string)) as [Hb | Hb].
    { assert (Hnb : not_base k = false).
      { unfold not_base. rewrite decide_True by exact Hb. reflexivity. }
      rewrite Hnb. apply IH; try assumption. intros k' Hk'. apply Hkeys. right. exact Hk'. }
    assert (Hkeep : not_base k = true).
    { unfold not_base. rewrite decide_False by exact Hb. reflexivity. }
    rewrite Hkeep.
    destruct (Hkeys k (or_introl eq_refl) Hb) as [tx Htx]. rewrite Htx.
    change (MeshInstance.draw (MeshInstance.setPosition dx dy 0 q))
      with (MeshInstance.draw q).
    rewrite Hc. cbn [ov_calls].
    set (q1 := MeshInstance.setPosition dx dy 0 q).
    set (hp1 := MeshInstance.setBaseTexture tx q hp).
    assert (Htexs1 : Material.textures (hp1 !!! texref)
                     = Dict.set "base" tx (Material.textures (hp !!! texref))).
    { unfold hp1, MeshInstance.setBaseTexture. rewrite Hmat, lookup_total_insert_eq.
      reflexivity. }
    assert (Hkeys1 : Dict.keys (Material.textures (hp1 !!! texref))
                     = Dict.keys (Material.textures (hp !!! texref))).
    { rewrite Htexs1. apply dict_keys_set, Hin. }
    assert (Hisdraw : GL.is_draw c = true).
    { apply (instance_draw_is_draw q c Hc). }
    rewrite draw_state_draws_app.
    assert (Hnone : DrawState.draws (MeshInstance.bind hp1 att q1) s = []).
    { apply length_zero_iff_nil.
      rewrite (draws_length _ s (DrawState.bound s)).
      destruct (instance_bind_track hp1 att q1 (DrawState.bound s)) as [_ ->]. reflexivity. }
    rewrite Hnone. cbn [app DrawState.draws]. rewrite Hisdraw.
    set (s1 := DrawState.run (MeshInstance.bind hp1 att q1) s).
    destruct (instance_bind_state hp1 att q1 s) as (Hbound & Hproj & Hmv & Hsamp).
    { change (MeshInstance.shader q1) with (MeshInstance.shader q). rewrite Hsh. exact Hown. }
    { change (MeshInstance.shader q1) with (MeshInstance.shader q). rewrite Hsh. exact Hdist. }
    fold s1 in Hbound, Hproj, Hmv, Hsamp.
    change (MeshInstance.shader q1) with (MeshInstance.shader q) in *.
    change (MeshInstance.material q1) with (MeshInstance.material q) in *.
    change (MeshInstance.rotation q1) with (MeshInstance.rotation q) in *.
    change (MeshInstance.scale q1) with (MeshInstance.scale q) in *.
    change (MeshInstance.position q1) with (Vec3 dx dy 0) in *.
    rewrite Hsh, Hmat in *.
    destruct (IH (dy - height) q1 hp1 (DrawState.exec s1 c)
                Hmat Hsh ltac:(rewrite Hkeys1; exact Hnd) ltac:(rewrite Hkeys1; exact Hin)
                ltac:(intros k' Hk' Hk'b; unfold hp1;
                      rewrite setBaseTexture_other_keys by exact Hk'b;
                      apply Hkeys; [right; exact Hk' | exact Hk'b])
                c Hc) as (Hlen & Hshots).
    split; [cbn [length]; rewrite Hlen; reflexivity |].
    intros i k' Hi. destruct i as [| i]; cbn [lookup list_lookup] in Hi |- *.
    + injection Hi as <-. exists s1, tx, dy.
      split; [reflexivity |]. split; [exact Htx |]. split; [exact Hbound |].
      split.
      { destruct (dict_set_lookup "base" tx (Material.textures (hp !!! texref)) Hin)
          as [j Hj].
        rewrite <- Htexs1 in Hj.
        apply (Hsamp ltac:(rewrite Hkeys1; exact Hnd) j "base"%string tx base Hj Hbase). }
      split; [exact Hproj |]. split; [exact Hmv |].
      change (inject_Z (Z.of_nat 0)) with 0. ring.
    + destruct (Hshots i k' Hi) as (shot & tx' & y & Hs & Hget & Hbd & Hsm & Hpr & Hm & Hy).
      destruct (filter_not_base_in keys i k' Hi) as [Hnb _].
      exists shot, tx', y.
      split; [exact Hs |].
      split; [rewrite <- Hget; unfold hp1; symmetry;
              apply setBaseTexture_other_keys, Hnb |].
      split.
      { rewrite Hbd. f_equal.
        change (GLState.framebuffer_binding (DrawState.gl (DrawState.exec s1 c)))
          with (fst (DrawState.bound (DrawState.exec s1 c))).
        rewrite exec_bound, (track_cons_draw c _ Hisdraw), Hbound. reflexivity. }
      split; [exact Hsm |]. split; [exact Hpr |]. split; [exact Hm |].
      rewrite Hy, Nat2Z.inj_succ. unfold Z.succ. rewrite inject_Z_plus.
      change (inject_Z 1) with 1. ring.
Qed.


(** The calls of a frame that come before the draw of the deferred quad:
    they draw once for every visible mesh and leave the default framebuffer
    bound. *)
Lemma resolve_prefix (r : t) (att1 att3 : Attributes.t) (dq : MeshInstance.t)
  (lights : list Q) (b : Bound.t) :
  Forall (fun m => MeshInstance.visible m = true -> drawable m) (Scene.meshes (scene r)) ->
  let prefix :=
    (gBuffer_bind (gBuffer r)
     ++ [GL.clearColor 0 0 0 1; GL.enable GL.DEPTH_TEST; GL.enable GL.CULL_FACE;
         GL.cullFace_BACK; GL.clear_COLOR_DEPTH])
    ++ fst (geometry_pass (heap r) att1 (Scene.meshes (scene r)))
    ++ [GL.bindFramebuffer None; GL.clear_COLOR_DEPTH;
        GL.disable GL.DEPTH_TEST; GL.disable GL.CULL_FACE]
    ++ (MeshInstance.bind (heap r) att3 dq
        ++ GLShader.setUniformFloat3 (GL.floats_array lights) "lights"
             (sh_deferred (shaders r))) in
  length (Bound.draws prefix b)
  = length (List.filter MeshInstance.visible (Scene.meshes (scene r)))
  /\ fst (fold_left Bound.track prefix b) = None.
Proof.
  intros Hmeshes prefix. subst prefix.
  destruct (geometry_pass_draws (heap r) att1 (Scene.meshes (scene r))
              (Some (FBO (gBuffer r)), snd b) Hmeshes) as [Hgd Hgt].
  set (geometry := fst (geometry_pass (heap r) att1 (Scene.meshes (scene r)))) in *.
  split.
  - rewrite draws_app.
    change (Bound.draws (gBuffer_bind (gBuffer r) ++ _) b) with (@nil (Bound.t * GL.command)).
    change (fold_left Bound.track (gBuffer_bind (gBuffer r) ++ _) b)
      with (Some (FBO (gBuffer r)), snd b).
    rewrite app_nil_l, draws_app, length_app.
    rewrite <- (length_map fst (Bound.draws geometry _)), Hgd, length_map.
    rewrite draws_app.
    set (s2 := fold_left Bound.track geometry _).
    change (Bound.draws [GL.bindFramebuffer None; GL.clear_COLOR_DEPTH;
                         GL.disable GL.DEPTH_TEST; GL.disable GL.CULL_FACE] s2)
      with (@nil (Bound.t * GL.command)).
    change (fold_left Bound.track [GL.bindFramebuffer None; GL.clear_COLOR_DEPTH;
                                   GL.disable GL.DEPTH_TEST; GL.disable GL.CULL_FACE] s2)
      with (@None nat, snd s2).
    rewrite app_nil_l, draws_app.
    destruct (instance_bind_track (heap r) att3 dq (None, snd s2)) as [Ht Hb].
    rewrite Hb, Ht, app_nil_l.
    unfold GLShader.setUniformFloat3.
    change (Bound.draws [GL.uniform3fv ?l ?v] ?s') with (@nil (Bound.t * GL.command)).
    cbn [length]. lia.
  - rewrite !fold_left_app.
    unfold GLShader.setUniformFloat3. cbn [fold_left Bound.track].
    match goal with
    | |- context [fold_left Bound.track (MeshInstance.bind ?h ?a ?q) ?y] =>
        destruct (instance_bind_track h a q y) as [Ht _]; rewrite Ht
    end.
    reflexivity.
Qed.


(** C2, amended. With the overlay enabled, in a window of positive size, a
    frame of a ready renderer whose materials are present, whose buffer quad
    is unrotated and uses the G-buffer material, whose post camera fits the
    window, and whose passthrough program has the uniform [baseTexture]
    issues, after the draw calls of the visible meshes and of the deferred
    quad, four more draw calls, each the [draw] of the buffer quad: one for
    every key of the G-buffer material other than [base], the key being
    compared by name, in the order of the keys, which is albedo, normal,
    material, position.
    Each of the four is issued with the default framebuffer bound and the
    program of the buffer quad in use, while the sampler [baseTexture] of
    that program reads the texture the material holds under the key.  The
    matrices in the uniforms are the projection of the post camera and its
    view times the model matrix of an unrotated quad, a quarter of the
    window high and in the proportions of the window, whose left side is on
    the left edge of the projection; the first has its top on the top edge,
    and each next one has its top where the one before has its bottom. *)
Theorem debug_overlay_tiles_left_edge (win : Window.t) (r : t) (texref : nat)
  (base : GL.uniform_location) (s : DrawState.t) :
  let sh := MeshInstance.shader (bufferQuad r) in
  let post := postCamera r in
  let winW := Window.innerWidth win in
  let winH := Window.innerHeight win in
  0 < winW -> 0 < winH ->
  ready r texref -> materials_present r ->
  Attributes.drawGbuffer (attributes r) = true ->
  MeshInstance.material (bufferQuad r) = texref ->
  MeshInstance.rotation (bufferQuad r) = quat_create ->
  OrthographicCamera.fits win post ->
  Bound.own_locations sh -> DrawState.distinct_locations sh ->
  GLShader.uniform "base" sh = Some base ->
  let f := renderScene win r in
  let shots := DrawState.draws (calls f) s in
  let before := S (length (List.filter MeshInstance.visible (Scene.meshes (scene r)))) in
  completed f = true
  /\ List.filter not_base (Dict.keys (Material.textures (heap r !!! texref)))
     = ["albedo"; "normal"; "material"; "position"]%string
  /\ length shots = (before + 4)%nat
  /\ (forall (i : nat) (k : string),
        ["albedo"; "normal"; "material"; "position"]%string !! i = Some k ->
        exists (shot : DrawState.t) (d : GL.command) (tx : Texture.t) (x y w h : Q),
          shots !! (before + i)%nat = Some (shot, d)
          /\ MeshInstance.draw (bufferQuad r) = Some d
          /\ Dict.get k (Material.textures (heap r !!! texref)) = Some tx
          /\ GLState.framebuffer_binding (DrawState.gl shot) = None
          /\ DrawState.program shot = Some (GLShader.program sh)
          /\ DrawState.sampled base shot = Some (Texture.index tx)
          /\ (forall l, GLShader.uniform "projectionMatrix" sh = Some l ->
                DrawState.matrices shot l
                = Some (mat4_ortho (0 + OrthographicCamera.left post)
                          (0 + OrthographicCamera.right post)
                          (0 + OrthographicCamera.bottom post)
                          (0 + OrthographicCamera.top post) 0.1 16000))
          /\ (forall l, GLShader.uniform "modelViewMatrix" sh = Some l ->
                DrawState.matrices shot l
                = Some (mat4_multiply
                          (mat4_lookAt (point_vec (Vec3 0 0 100)) (Vec3 0 0 0)
                             (vec3_fromValues 0 1 0))
                          (mat4_fromRotationTranslationScale quat_create
                             (Vec3 x y 0) (Vec3 w h 1))))
          /\ h == winH / 4
          /\ w * winH == h * winW
          /\ x - w * 0.5 == 0 + OrthographicCamera.left post
          /\ y + h * 0.5 == 0 + OrthographicCamera.top post - inject_Z (Z.of_nat i) * h
          /\ y - h * 0.5 == 0 + OrthographicCamera.top post - inject_Z (Z.of_nat (S i)) * h).
Proof.
  intros sh post winW winH HW HH Hready _ Hon Hmatq Hrot Hfits Hown Hdist Hbase f shots before.
  destruct Hfits as (Hpos & Hlook & Hleft & _ & _ & Htop).
  destruct (renderScene_shape win r texref Hready) as (d & Hd & Hgeo & Hshape).
  destruct Hready as (Hmat & Hkeys & Hbq & Hdq & Hmeshes).
  subst shots f. rewrite Hshape. cbn [calls completed]. clear Hshape.
  destruct (update_settings (attributes r) (camera r) (postCamera r)) as (Hsame & _ & _).
  cbv zeta in Hsame. rewrite Hsame, Hon.
  set (att1 := snd (PerspectiveCamera.update (attributes r) (camera r))) in *.
  set (att3 := Attributes.set_cameraPosition _ _) in *.
  set (dq := MeshInstance.setPosition 0 0 0 _).
  pose proof (instance_draw_is_draw _ d Hd) as Hdraw.
  assert (Hproj3 : Attributes.projectionMatrix att3
                   = mat4_ortho (0 + OrthographicCamera.left post)
                       (0 + OrthographicCamera.right post)
                       (0 + OrthographicCamera.bottom post)
                       (0 + OrthographicCamera.top post) 0.1 16000).
  { unfold att3, OrthographicCamera.update.
    cbn [snd fst Attributes.set_cameraPosition Attributes.publish
         Attributes.projectionMatrix].
    fold post. rewrite Hpos. reflexivity. }
  assert (Hview3 : Attributes.viewMatrix att3
                   = mat4_lookAt (point_vec (Vec3 0 0 100)) (Vec3 0 0 0)
                       (vec3_fromValues 0 1 0)).
  { unfold att3, OrthographicCamera.update.
    cbn [snd fst Attributes.set_cameraPosition Attributes.publish Attributes.viewMatrix].
    fold post. rewrite Hpos, Hlook. reflexivity. }
  (* the overlay runs to its end *)
  split.
  { destruct (draw_gbuffer_tiles win texref att3 (bufferQuad r) (heap r) HH Hkeys Hbq)
      as (Hok & _). exact Hok. }
  split; [rewrite Hkeys; reflexivity |].
  (* the draws before the overlay *)
  rewrite !app_assoc.
  match goal with
  | |- context [DrawState.draws (?P ++ d :: ?ov) s] =>
      set (prefix := P); set (overlay := ov)
  end.
  destruct (resolve_prefix r att1 att3 dq (lightArr att3 (Scene.lights (scene r)))
              (DrawState.bound s) Hmeshes) as [Hcount Hfb].
  cbv zeta in Hcount, Hfb. rewrite <- !app_assoc in Hcount, Hfb.
  assert (Hprefix : prefix = ltac:(let t := type of Hfb in
                                   match t with
                                   | fst (fold_left Bound.track ?P _) = _ => exact P
                                   end)).
  { unfold prefix. rewrite <- !app_assoc. reflexivity. }
  rewrite <- Hprefix in Hcount, Hfb. clear Hprefix.
  rewrite draw_state_draws_app. cbn [DrawState.draws]. rewrite Hdraw.
  set (s1 := DrawState.run prefix s) in *.
  assert (Hlen0 : length (DrawState.draws prefix s)
                  = length (List.filter MeshInstance.visible (Scene.meshes (scene r)))).
  { rewrite (draws_length prefix s (DrawState.bound s)). exact Hcount. }
  assert (Hfb1 : GLState.framebuffer_binding (DrawState.gl (DrawState.exec s1 d)) = None).
  { change (GLState.framebuffer_binding (DrawState.gl (DrawState.exec s1 d)))
      with (fst (DrawState.bound (DrawState.exec s1 d))).
    rewrite exec_bound, (track_cons_draw d _ Hdraw). unfold s1. rewrite run_bound.
    exact Hfb. }
  (* the overlay *)
  destruct Hbq as [db Hdb].
  unfold overlay, draw_gbuffer. rewrite Hkeys.
  match goal with
  | |- context [overlay_loop ?ks texref att3 ?dx ?dy ?h ?q1 (heap r)] =>
      destruct (fun H1 H2 H3 H4 H5 =>
                  overlay_loop_shots texref att3 dx h sh base ks Hown Hdist Hbase
                    dy q1 (heap r) (DrawState.exec s1 d) H1 H2 H3 H4 H5 db)
        as (Hlen & Hshots);
        [ exact Hmatq | reflexivity
        | rewrite Hkeys; apply NoDup_ListNoDup;
          repeat (constructor; [cbn; intuition discriminate |]); constructor
        | rewrite Hkeys; cbn; tauto
        | intros k Hin _; apply dict_get_keys; rewrite Hkeys; exact Hin
        | exact Hdb | ];
      set (o := overlay_loop ks texref att3 dx dy h q1 (heap r)) in *
  end.
  change (List.filter not_base ["albedo"; "normal"; "material"; "base"; "position"]%string)
    with ["albedo"; "normal"; "material"; "position"]%string in Hlen, Hshots.
  cbn [length] in Hlen.
  split.
  { rewrite length_app. cbn [length]. rewrite Hlen0, Hlen. unfold before. lia. }
  intros i k Hi.
  destruct (Hshots i k Hi) as (shot & tx & y & Hs & Hget & Hbd & Hsm & Hpr & Hmv & Hy).
  exists shot, db, tx, (winW / -2 + winH / 4 * (winW / winH) / 2), y,
    (winH / 4 * (winW / winH)), (winH / 4).
  split.
  { rewrite lookup_app_r by (rewrite Hlen0; unfold before; lia).
    rewrite Hlen0. unfold before.
    replace (S (length (List.filter MeshInstance.visible (Scene.meshes (scene r)))) + i
             - length (List.filter MeshInstance.visible (Scene.meshes (scene r))))%nat
      with (S i) by lia.
    exact Hs. }
  split; [exact Hdb |].
  split; [exact Hget |].
  split; [rewrite <- Hfb1; apply (f_equal fst Hbd) |].
  split; [apply (f_equal snd Hbd) |].
  split; [exact Hsm |].
  split; [intros l Hl; rewrite (Hpr l Hl); f_equal; exact Hproj3 |].
  split.
  { intros l Hl. rewrite (Hmv l Hl), Hview3. f_equal. f_equal.
    cbn [MeshInstance.rotation MeshInstance.setScale MeshInstance.with_scale].
    rewrite Hrot. reflexivity. }
  assert (Hne : ~ winH == 0) by lra.
  split; [reflexivity |].
  split; [field; exact Hne |].
  split; [rewrite Hleft; unfold winW, winH in *; field; exact Hne |].
  split; [rewrite Hy, Htop; unfold winW, winH in *; field; exact Hne |].
  rewrite Hy, Htop, Nat2Z.inj_succ. unfold Z.succ. rewrite inject_Z_plus.
  change (inject_Z 1) with 1. unfold winW, winH in *. field; exact Hne.
Qed.


Lemma init_distinct (p : nat) (attrib : string -> Z)
  (location : string -> option GL.uniform_location) :
  (forall n l, location n = Some l -> GL.ul_name l = n) ->
  DrawState.distinct_locations (GLShader.init p attrib location).
Proof.
  intros Hloc k k' l. unfold GLShader.uniform.
  cbn [GLShader.init GLShader.uniforms Dict.get].
  repeat match goal with
         | |- context [decide (k = ?n)] => destruct (decide (k = n)); [subst k |]
         end;
    repeat match goal with
           | |- context [decide (k' = ?n)] => destruct (decide (k' = n)); [subst k' |]
           end;
    try reflexivity; try discriminate;
    intros H1 H2; apply Hloc in H1; apply Hloc in H2; congruence.
Qed.

Lemma demo_linked_distinct (p : nat) (attribs : Dict.t Z) (active : list string) :
  DrawState.distinct_locations (Demo.linked p attribs active).
Proof.
  apply init_distinct. intros n l H.
  destruct (decide (n ∈ active)); [injection H as <-; reflexivity | discriminate H].
Defined.

(** The post camera fits the window after every resize, and when it is
    built. *)
Lemma onWindowResize_fits (win : Window.t) (c : OrthographicCamera.t) :
  0 < Window.innerWidth win -> 0 < Window.innerHeight win ->
  OrthographicCamera.position c = Vec3 0 0 100 ->
  OrthographicCamera.lookAt c = Vec3 0 0 0 ->
  OrthographicCamera.fits win (OrthographicCamera.onWindowResize win c).
Proof.
  intros HW HH Hp Hl.
  destruct (post_camera_edges win c HW HH) as (El & Er & Eb & Et).
  unfold OrthographicCamera.fits. repeat split; try assumption.
  - unfold OrthographicCamera.onWindowResize, OrthographicCamera.setOrthographic.
    destruct (Num.gt _ _); exact Hp.
  - unfold OrthographicCamera.onWindowResize, OrthographicCamera.setOrthographic.
    destruct (Num.gt _ _); exact Hl.
Qed.

Lemma new_fits (win : Window.t) :
  0 < Window.innerWidth win -> 0 < Window.innerHeight win ->
  OrthographicCamera.fits win
    (OrthographicCamera.new win (Window.innerWidth win) (Window.innerHeight win)).
Proof.
  intros HW HH.
  apply (onWindowResize_fits win
           (OrthographicCamera.mk (Vec3 0 0 100) vec3_create mat4_create mat4_create
              mat4_create 0 0 0 0 0 0) HW HH); reflexivity.
Qed.

(** The constructor leaves the buffer quad unrotated, with the passthrough
    shader and the G-buffer material, and a post camera that fits the
    window. *)
Lemma new_overlay_setup (win : Window.t) (sh : shaders_t)
  (hpos halb hnrm hmat hdepth hfbo addr b1 b2 b3 : nat) :
  0 < Window.innerWidth win -> 0 < Window.innerHeight win ->
  let r := fst (fst (new win sh hpos halb hnrm hmat hdepth hfbo addr b1 b2 b3)) in
  MeshInstance.material (bufferQuad r) = addr
  /\ MeshInstance.rotation (bufferQuad r) = quat_create
  /\ MeshInstance.shader (bufferQuad r) = sh_passthrough sh
  /\ OrthographicCamera.fits win (postCamera r).
Proof.
  intros HW HH r.
  split; [reflexivity |]. split; [reflexivity |]. split; [reflexivity |].
  apply (new_fits win HW HH).
Qed.

(** The constructor leaves every material a frame binds in the heap. *)
Lemma new_materials_present (win : Window.t) (sh : shaders_t)
  (hpos halb hnrm hmat hdepth hfbo addr b1 b2 b3 : nat) :
  materials_present (fst (fst (new win sh hpos halb hnrm hmat hdepth hfbo addr b1 b2 b3))).
Proof.
  unfold materials_present, new, init_gBuffer; simpl.
  rewrite lookup_insert_eq.
  split; [eexists; reflexivity |]. split; [eexists; reflexivity |]. constructor.
Qed.

End OverlayShots.

Lemma debug_overlay_tiles_left_edge_witness :
  length (DrawState.draws (Renderer.calls (Renderer.renderScene Demo.win Demo.renderer))
            (DrawState.start Demo.gl)) = 8%nat.
Proof.
  apply (debug_overlay_tiles_left_edge Demo.win Demo.renderer 0
           (GL.UniformLocation 2 "baseTexture") (DrawState.start Demo.gl)).
  - reflexivity.
  - reflexivity.
  - exact demo_ready.
  - split; [| split; [| repeat constructor]]; intros; eexists; vm_compute; reflexivity.
  - reflexivity.
  - reflexivity.
  - reflexivity.
  - repeat split; vm_compute; reflexivity.
  - apply demo_linked_own.
  - apply demo_linked_distinct.
  - reflexivity.
Defined.

(** In the frame of the scene of [main.js], the four quads of the overlay
    read, through [baseTexture], the textures 2, 3, 4 and 1: those the
    constructor made for albedo, normal, material and position. *)
Example demo_overlay_textures :
  map (fun shot => DrawState.sampled (GL.UniformLocation 2 "baseTexture") (fst shot))
      (drop 4 (DrawState.draws (Renderer.calls (Renderer.renderScene Demo.win Demo.renderer))
                 (DrawState.start Demo.gl)))
  = [Some 2; Some 3; Some 4; Some 1]%nat.
Proof. vm_compute. reflexivity. Qed.

(** ** The lights, from the scene to the shader *)

Section ShaderLights.

Import Renderer.
Local Open Scope Q_scope.

Lemma turns_value (count : Z) (n : nat) :
  forall (k fuel : nat),
  (k <= n)%nat -> (n - k <= fuel)%nat -> count = (3 * Z.of_nat n)%Z ->
  DeferredShader.turns fuel (1 + 3 * Z.of_nat k) count
  = Some (map (fun j => (1 + 3 * Z.of_nat j)%Z) (seq k (n - k))).
Proof.
  intros k fuel. revert k. induction fuel as [| fuel IH]; intros k Hk Hfuel ->.
  - replace (n - k)%nat with 0%nat by lia. cbn.
    destruct (Z.ltb_spec (1 + 3 * Z.of_nat k) (3 * Z.of_nat n)); [lia | reflexivity].
  - cbn [DeferredShader.turns].
    destruct (Z.ltb_spec (1 + 3 * Z.of_nat k) (3 * Z.of_nat n)) as [Hlt | Hge].
    + assert (Hk' : (k < n)%nat) by lia.
      replace (1 + 3 * Z.of_nat k + 3)%Z with (1 + 3 * Z.of_nat (S k))%Z by lia.
      rewrite (IH (S k)) by lia.
      replace (n - k)%nat with (S (n - S k)) by lia. reflexivity.
    + replace (n - k)%nat with 0%nat by lia. reflexivity.
Qed.

Lemma int_inject (z : Z) : DeferredShader.int (inject_Z z) = z.
Proof. unfold DeferredShader.int. simpl. apply Z.quot_1_r. Qed.

Lemma lightArr_length (a : Attributes.t) (lights : list Light.t) :
  Forall Light.triples lights ->
  length (lightArr a lights) = (3 + 9 * length (visible_lights lights))%nat.
Proof.
  intros Hall. rewrite lightArr_value, length_app.
  rewrite (flat_map_length_chunks _ 9) by (apply visible_lights_triples, Hall).
  reflexivity.
Qed.

Lemma lightArr_elements (a : Attributes.t) (lights : list Light.t) (i : nat) (l : Light.t) :
  Forall Light.triples lights ->
  visible_lights lights !! i = Some l ->
  element (1 + 3 * i) (lightArr a lights) = Light.position l
  /\ element (2 + 3 * i) (lightArr a lights) = Light.color l
  /\ element (3 + 3 * i) (lightArr a lights) = Light.attenuation l.
Proof.
  intros Hall Hi.
  assert (Hl : Light.triples l).
  { apply list_elem_of_lookup_2 in Hi. unfold visible_lights in Hi.
    apply list_elem_of_In, List.filter_In in Hi. destruct Hi as [Hin _].
    rewrite Forall_forall in Hall. apply Hall, list_elem_of_In, Hin. }
  destruct Hl as (Hp & Hc & Ha).
  pose proof (lights_at a lights i l Hall Hi) as Hdrop.
  unfold element.
  split; [| split].
  - replace (3 * (1 + 3 * i))%nat with (3 + 9 * i)%nat by lia.
    rewrite Hdrop, <- Hp. apply take_app_length.
  - replace (3 * (2 + 3 * i))%nat with ((3 + 9 * i) + length (Light.position l))%nat by lia.
    rewrite <- drop_drop, Hdrop, drop_app_length.
    rewrite <- Hc. apply take_app_length.
  - replace (3 * (3 + 3 * i))%nat
      with ((3 + 9 * i) + length (Light.position l ++ Light.color l))%nat
      by (rewrite length_app; lia).
    rewrite <- drop_drop, Hdrop.
    rewrite (app_assoc (Light.position l)), drop_app_length.
    rewrite <- Ha. apply take_app_length.
Qed.

Lemma lights_in_range (a : Attributes.t) (ls : list Light.t) (e : nat) :
  Forall Light.triples ls ->
  (e <= 3 * length (visible_lights ls))%nat -> (e < DeferredShader.capacity)%nat ->
  DeferredShader.lights (lightArr a ls) (Z.of_nat e) = Some (element e (lightArr a ls)).
Proof.
  intros Hall He Hcap. unfold DeferredShader.lights.
  rewrite decide_True by lia. rewrite Nat2Z.id.
  rewrite lightArr_length by exact Hall.
  replace (3 + 9 * length (visible_lights ls))%nat
    with ((1 + 3 * length (visible_lights ls)) * 3)%nat by lia.
  rewrite Nat.div_mul by lia. rewrite decide_True by lia. reflexivity.
Qed.

Lemma count_value (a : Attributes.t) (ls : list Light.t) :
  Forall Light.triples ls ->
  DeferredShader.count (lightArr a ls) = (3 * Z.of_nat (length (visible_lights ls)))%Z.
Proof.
  intros Hall. unfold DeferredShader.count.
  change 0%Z with (Z.of_nat 0).
  rewrite lights_in_range; [| exact Hall | lia | unfold DeferredShader.capacity; lia].
  rewrite lightArr_value. cbn [element Nat.mul drop take app]. apply int_inject.
Qed.

(** X19. The deferred shader gets the lights the renderer sent. For lights
    that carry three triples, the loop of the fragment shader over the
    uniform [lights], started on the array [renderScene] uploads, ends
    (after one turn per visible light), and when three times the number of
    visible lights is below the hundred elements the uniform is declared
    with, that is with up to 33 visible lights, its turns read exactly the
    visible lights in scene order, each with its position, its colour
    divided by 255 and its attenuation; with 34 visible lights or more a
    turn reads outside the array. *)
Theorem shader_reads_visible_lights (a : Attributes.t) (ls : list Light.t) (fuel : nat) :
  Forall Light.triples ls ->
  (length (visible_lights ls) <= fuel)%nat ->
  DeferredShader.main_lights fuel (lightArr a ls)
  = Some (if decide (3 * length (visible_lights ls) < DeferredShader.capacity)%nat
          then Some (map DeferredShader.shaded (visible_lights ls))
          else None).
Proof.
  intros Hall Hfuel. unfold DeferredShader.main_lights.
  rewrite (count_value a ls Hall).
  set (n := length (visible_lights ls)) in *.
  pose proof (turns_value (3 * Z.of_nat n) n 0 fuel) as Hturns.
  change (1 + 3 * Z.of_nat 0)%Z with 1%Z in Hturns.
  rewrite Hturns by lia. rewrite Nat.sub_0_r. cbn [fmap option_fmap option_map].
  f_equal.
  destruct (decide (3 * n < DeferredShader.capacity)%nat) as [Hcap | Hcap].
  - apply mapM_Some. apply Forall2_same_length_lookup. split.
    + rewrite !length_map, length_seq. reflexivity.
    + intros i z sl Hz Hsl.
      rewrite list_lookup_fmap in Hsl.
      destruct (visible_lights ls !! i) as [l |] eqn:Hl; [| discriminate Hsl].
      injection Hsl as <-.
      change (map ?f ?l0) with (f <$> l0) in Hz.
      rewrite list_lookup_fmap in Hz.
      pose proof (lookup_lt_Some _ _ _ Hl) as Hi. fold n in Hi.
      rewrite lookup_seq_lt in Hz by exact Hi. injection Hz as <-.
      destruct (lightArr_elements a ls i l Hall Hl) as (Hp & Hc & Ha).
      unfold DeferredShader.turn.
      replace (1 + 3 * Z.of_nat i + 1)%Z with (Z.of_nat (2 + 3 * i)) by lia.
      replace (1 + 3 * Z.of_nat i + 2)%Z with (Z.of_nat (3 + 3 * i)) by lia.
      replace (1 + 3 * Z.of_nat i)%Z with (Z.of_nat (1 + 3 * i)) by lia.
      rewrite !lights_in_range by (try exact Hall; fold n; lia).
      rewrite Hp, Hc, Ha. reflexivity.
  - destruct (mapM (DeferredShader.turn (lightArr a ls))
                (map (fun j => (1 + 3 * Z.of_nat j)%Z) (seq 0 n))) as [out |] eqn:Hout;
      [| reflexivity].
    exfalso. apply mapM_Some in Hout.
    assert (Hlast : map (fun j => (1 + 3 * Z.of_nat j)%Z) (seq 0 n) !! (n - 1)%nat
                    = Some (1 + 3 * Z.of_nat (n - 1))%Z).
    { change (map ?f ?l0) with (f <$> l0). rewrite list_lookup_fmap.
      unfold DeferredShader.capacity in Hcap.
      rewrite lookup_seq_lt by lia. reflexivity. }
    destruct (Forall2_lookup_l _ _ _ _ _ Hout Hlast) as (sl & _ & Hturn).
    unfold DeferredShader.turn in Hturn.
    unfold DeferredShader.capacity in Hcap.
    assert (Hoob : DeferredShader.lights (lightArr a ls) (1 + 3 * Z.of_nat (n - 1) + 2) = None).
    { unfold DeferredShader.lights. rewrite decide_False; [reflexivity |].
      unfold DeferredShader.capacity. lia. }
    rewrite Hoob in Hturn.
    destruct (DeferredShader.lights _ (1 + 3 * Z.of_nat (n - 1)));
      [destruct (DeferredShader.lights _ (1 + 3 * Z.of_nat (n - 1) + 1)) |];
      discriminate Hturn.
Qed.

Lemma shader_reads_visible_lights_witness :
  DeferredShader.main_lights 4 (lightArr (attributes Demo.renderer) Demo.lights)
  = Some (Some (map DeferredShader.shaded Demo.lights)).
Proof.
  apply (shader_reads_visible_lights (attributes Demo.renderer) Demo.lights 4).
  - repeat constructor.
  - vm_compute. lia.
Defined.

End ShaderLights.

(** ** [loadOBJ]: records, errors and tangents *)

Section Records.

Import OBJ OBJRecords.
Context {num : Type} `{JSNumber num}.

(** X20. [loadOBJ] reads an OBJ file record by record, whatever their
    order. What it returns depends only on the [v] lines, the [vt] lines,
    the [vn] lines and the [f] lines, each kind taken in the order of the
    file: two files that agree on these four sequences give the same result
    (or both throw), however the kinds are interleaved and whatever other
    lines (blank, comments, unknown keywords) stand between them.  An index
    of a face counts the records of its kind from 1 over the whole file,
    index 0 selecting a record of zeros that stands before the first. *)
Theorem loadOBJ_interleaving (s1 s2 : string) :
  (forall k, k <> Ignored -> of_kind k (lines s1) = of_kind k (lines s2)) ->
  @loadOBJ num _ s1 = @loadOBJ num _ s2
  /\ vertexData (@parse num _ s1)
     = [zero; zero; zero] :: map (fun l => map Number (tokens l)) (of_kind Vertex (lines s1))
  /\ uvData (@parse num _ s1)
     = [zero; zero] :: map (fun l => map Number (tokens l)) (of_kind TexCoord (lines s1))
  /\ normalData (@parse num _ s1)
     = [zero; zero; zero] :: map (fun l => map Number (tokens l)) (of_kind Normal (lines s1))
  /\ faces (@parse num _ s1) = map tokens (of_kind Face (lines s1))
  /\ polyCount (@parse num _ s1) = length (of_kind Face (lines s1)).
Proof.
  intros Hsame.
  assert (Hparse : forall s, @parse num _ s
            = Parsed ([zero; zero; zero]
                      :: map (fun l => map Number (tokens l)) (of_kind Vertex (lines s)))
                     ([zero; zero]
                      :: map (fun l => map Number (tokens l)) (of_kind TexCoord (lines s)))
                     ([zero; zero; zero]
                      :: map (fun l => map Number (tokens l)) (of_kind Normal (lines s)))
                     (map tokens (of_kind Face (lines s)))
                     (length (of_kind Face (lines s)))).
  { intros s. unfold parse. fold (lines s). rewrite parse_lines_kind. reflexivity. }
  split.
  - unfold loadOBJ. rewrite (Hparse s1), (Hparse s2).
    rewrite !(Hsame Vertex), !(Hsame TexCoord), !(Hsame Normal), !(Hsame Face) by discriminate.
    reflexivity.
  - rewrite (Hparse s1). repeat split.
Qed.

End Records.

Section Throws.

Import OBJ.
Context {num : Type} `{JSNumber num}.

Lemma build_None (p : @parsed num) (fs : list (list string)) :
  forall acc, build p fs acc = None <-> exists face, In face fs /\ retrieve p face = None.
Proof.
  induction fs as [| face fs IH]; intros acc; cbn [build].
  - split; [discriminate | intros (face & [] & _)].
  - destruct (retrieve p face) as [k |] eqn:Hk.
    + rewrite IH. split.
      * intros (f & Hin & Hf). exists f. split; [right; exact Hin | exact Hf].
      * intros (f & [<- | Hin] & Hf); [congruence | exists f; split; assumption].
    + split; [| reflexivity]. intros _. exists face. split; [left; reflexivity | exact Hk].
Qed.

Lemma at_key_None {A : Type} (data : list A) : at_key data (@None num) = None.
Proof. reflexivity. Qed.

(** X21. When [loadOBJ] throws. It throws exactly when some face line has a
    corner whose data cannot be retrieved; a face with fewer than three
    corners always does, and so does a face one of whose first three
    corners has fewer than three slash-separated fields (no normal index);
    corners after the third are never looked at, so that a quad is read as
    its first triangle. *)
Theorem loadOBJ_throws (OBJString : string) :
  (@loadOBJ num _ OBJString = None
   <-> exists face, In face (faces (@parse num _ OBJString))
                    /\ retrieve (@parse num _ OBJString) face = None)
  /\ (forall (p : @parsed num) face, (length face < 3)%nat -> retrieve p face = None)
  /\ (forall (p : @parsed num) face, retrieve p (take 3 face) = retrieve p face)
  /\ (forall (p : @parsed num) face corner,
        In corner (take 3 face) -> (length (split_on "/" corner) < 3)%nat ->
        retrieve p face = None).
Proof.
  split; [| split; [| split]].
  - unfold loadOBJ.
    destruct (build (parse OBJString) (faces (parse OBJString)) (Arrays [] [] [] []))
      as [a |] eqn:Hb.
    + split; [discriminate |]. intros Hex.
      apply (proj2 (build_None _ _ (Arrays [] [] [] []))) in Hex. congruence.
    + split; [| reflexivity]. intros _.
      apply (proj1 (build_None _ _ (Arrays [] [] [] []))). exact Hb.
  - intros p face Hlen. unfold retrieve.
    destruct face as [| a [| b [| c rest]]]; cbn in Hlen |- *; try reflexivity. lia.
  - intros p face. destruct face as [| a [| b [| c rest]]]; reflexivity.
  - intros p face corner Hin Hlen.
    assert (Hshort : forall c', (length (split_on "/" c') < 3)%nat ->
                                @indices num _ c' !! 2%nat = None).
    { intros c' Hc. apply lookup_ge_None. unfold indices. rewrite length_map. lia. }
    unfold retrieve.
    destruct face as [| a [| b [| c rest]]]; try reflexivity.
    cbn [take] in Hin. cbn [lookup list_lookup mbind option_bind].
    repeat match goal with
           | |- context [at_key ?d ?k] =>
               lazymatch k with
               | None => fail
               | _ => destruct (at_key d k) eqn:?; cbn [mbind option_bind];
                      try reflexivity
               end
           end.
    exfalso.
    destruct Hin as [<- | [<- | [<- | []]]];
      match goal with
      | Hn : at_key (normalData p) (indices ?c' !! 2%nat) = Some _ |- _ =>
          lazymatch goal with
          | Hl : (length (split_on "/" c') < 3)%nat |- _ =>
              rewrite (Hshort c' Hl) in Hn; discriminate Hn
          end
      end.
Qed.

End Throws.

Section Tangents.

Import OBJ.
Local Open Scope Q_scope.

(** X22. The tangent of [loadOBJ] is the derivative of the position along
    u. In exact arithmetic, for a triangle whose positions are an affine
    function of its texture coordinates, with derivative [tu] along u and
    [tv] along v, the three numbers pushed for the face are the components
    of [tu] (not normalised) when the texture coordinates are not
    degenerate; when they are (the determinant of the texture edges is
    zero), the three numbers are not finite. *)
Theorem tangent_follows_u (px py pz tux tuy tuz tvx tvy tvz u0 v0 u1 v1 u2 v2 : Q) :
  let at_uv (u v : Q) : list (option Q) :=
    [Some (px + (u - u0) * tux + (v - v0) * tvx);
     Some (py + (u - u0) * tuy + (v - v0) * tvy);
     Some (pz + (u - u0) * tuz + (v - v0) * tvz)] in
  let det := (u1 - u0) * (v2 - v0) - (u2 - u0) * (v1 - v0) in
  let tangent := @tangent_of _ finite (at_uv u0 v0) (at_uv u1 v1) (at_uv u2 v2)
                   [Some u0; Some v0] [Some u1; Some v1] [Some u2; Some v2] in
  (~ det == 0 ->
   exists t0 t1 t2, tangent = [Some t0; Some t1; Some t2]
                    /\ t0 == tux /\ t1 == tuy /\ t2 == tuz)
  /\ (det == 0 -> tangent = [None; None; None]).
Proof.
  intros at_uv det tangent. subst tangent at_uv.
  unfold tangent_of, component.
  cbn [lookup list_lookup default from_option id sub mul div one nan finite lift2 finite_div].
  fold det.
  split.
  - intros Hdet.
    destruct (Qeq_bool det 0) eqn:Hq; [apply Qeq_bool_eq in Hq; contradiction |].
    do 3 eexists. split; [reflexivity |].
    repeat split; unfold det in *; field; exact Hdet.
  - intros Hdet. rewrite (Qeq_eq_bool _ _ Hdet). reflexivity.
Qed.

End Tangents.

(** ** [cubeVerts] *)

Section CubeFacts.

Import CubeGeometry.
Local Open Scope Q_scope.

(** X23. The cube of [cubeVerts]. For every size, the four arrays hold 36
    vertices (12 triangles); the three vertices of a triangle share one
    normal and one tangent, both unit vectors along an axis and
    perpendicular to each other; every vertex lies in the plane at distance
    [size] along its normal; and the cross product of the two edges leaving
    the first vertex of a triangle is its normal scaled by 4 size^2, so that
    for a size other than zero every triangle is wound counter-clockwise
    seen from outside, which is what back-face culling keeps. *)
Theorem cube_faces_outward (size : Q) (t i : nat) :
  (t < 12)%nat -> (i < 3)%nat ->
  let '(pos, nor, tan, uv) := arrays_of size in
  let n := vertex3 nor (3 * t) in
  length pos = 108%nat /\ length nor = 108%nat /\ length tan = 108%nat /\ length uv = 72%nat
  /\ vertex3 nor (3 * t + i) = n
  /\ vertex3 tan (3 * t + i) = vertex3 tan (3 * t)
  /\ dot n n == 1
  /\ dot (vertex3 tan (3 * t)) (vertex3 tan (3 * t)) == 1
  /\ dot (vertex3 tan (3 * t)) n == 0
  /\ dot (vertex3 pos (3 * t + i)) n == size
  /\ same (cross (minus (vertex3 pos (3 * t + 1)) (vertex3 pos (3 * t)))
                 (minus (vertex3 pos (3 * t + 2)) (vertex3 pos (3 * t))))
          (scaled (4 * size * size) n).
Proof.
  intros Ht Hi. unfold arrays_of, Cube.cubeVerts.
  repeat first [rewrite decide_True by reflexivity | rewrite decide_False by discriminate].
  cbn [default from_option id].
  split; [reflexivity |]. split; [reflexivity |]. split; [reflexivity |].
  split; [reflexivity |].
  unfold vertex3, dot, minus, cross, scaled, same.
  do 12 (destruct t as [| t];
         [do 3 (destruct i as [| i];
                [cbn [nth Nat.mul Nat.add]; repeat split; ring |]); lia |]).
  lia.
Qed.
End CubeFacts.

Section CubeTangents.

Import CubeGeometry.
Local Open Scope Q_scope.

(** X24. The tangents of the cube do not follow its texture. For a
    positive size and each of the 12 triangles, the tangent that the formula
    of [loadOBJ] derives from the positions and texture coordinates of
    [cubeVerts] is finite, lies in the face and has length 2 size, and the
    tangent [cubeVerts] stores for the triangle never points along it: their
    scalar product is zero or negative. *)
Theorem cube_tangent_not_along_u (size : Q) (t : nat) :
  0 < size -> (t < 12)%nat ->
  let '(pos, nor, tan, uv) := arrays_of size in
  exists d0 d1 d2,
    derived_tangent size t = [Some d0; Some d1; Some d2]
    /\ dot (d0, d1, d2) (vertex3 nor (3 * t)) == 0
    /\ dot (d0, d1, d2) (d0, d1, d2) == 4 * size * size
    /\ dot (d0, d1, d2) (vertex3 tan (3 * t)) <= 0.
Proof.
  intros Hsize Ht. unfold derived_tangent, arrays_of, Cube.cubeVerts.
  repeat first [rewrite decide_True by reflexivity | rewrite decide_False by discriminate].
  cbn [default from_option id].
  unfold vertex3, vertex2, dot, OBJ.tangent_of, OBJ.component.
  do 12 (destruct t as [| t];
         [cbn [nth Nat.mul Nat.add lookup list_lookup default from_option id
               OBJ.sub OBJ.mul OBJ.div OBJ.one OBJ.nan OBJ.finite OBJ.lift2 OBJ.finite_div];
          match goal with
          | |- context [Qeq_bool ?d 0] =>
              let Hq := fresh "Hq" in
              destruct (Qeq_bool d 0) eqn:Hq; [vm_compute in Hq; discriminate Hq |]
          end;
          do 3 eexists; split; [reflexivity |];
          repeat split; try (field_simplify; lra) |]).
  lia.
Qed.

End CubeTangents.

(** ** Resizes and materials *)

Section ResizeAndMaterials.

Import GLMatrix Renderer.
Local Open Scope Q_scope.










End ResizeAndMaterials.

(** ** The scene between frames *)

Section SceneChanges.

Import Renderer.
Local Open Scope Q_scope.





Lemma run_None (ops : list SceneLights.op) :
  fold_left (fun acc o => acc ≫= fun ls' => SceneLights.step ls' o) ops None = None.
Proof. induction ops as [| o ops IH]; [reflexivity | exact IH]. Qed.

Lemma step_triples (ls ls' : list Light.t) (o : SceneLights.op) :
  SceneLights.step ls o = Some ls' -> Forall Light.triples ls ->
  Forall Light.triples ls'
  /\ length ls' = (length ls + if SceneLights.is_add o then 1 else 0)%nat.
Proof.
  intros Hstep Hall.
  destruct o as [cr cg cb | i cr cg cb | i x y z | i c l q | i b];
    cbn [SceneLights.step SceneLights.is_add] in *.
  - injection Hstep as <-. cbn. split.
    + apply Forall_app. split; [exact Hall |]. repeat constructor.
    + rewrite length_app. reflexivity.
  - destruct (ls !! i) as [l0 |] eqn:Hl; [| discriminate Hstep]. injection Hstep as <-.
    pose proof (Forall_lookup_1 _ _ _ _ Hall Hl) as (Hp & _ & Ha).
    split; [apply Forall_insert; [exact Hall | repeat split; assumption] |].
    rewrite length_insert. lia.
  - destruct (ls !! i) as [l0 |] eqn:Hl; [| discriminate Hstep]. injection Hstep as <-.
    pose proof (Forall_lookup_1 _ _ _ _ Hall Hl) as (_ & Hc & Ha).
    split; [apply Forall_insert; [exact Hall | repeat split; assumption] |].
    rewrite length_insert. lia.
  - destruct (ls !! i) as [l0 |] eqn:Hl; [| discriminate Hstep]. injection Hstep as <-.
    pose proof (Forall_lookup_1 _ _ _ _ Hall Hl) as (Hp & Hc & _).
    split; [apply Forall_insert; [exact Hall | repeat split; assumption] |].
    rewrite length_insert. lia.
  - destruct (ls !! i) as [l0 |] eqn:Hl; [| discriminate Hstep]. injection Hstep as <-.
    pose proof (Forall_lookup_1 _ _ _ _ Hall Hl) as (Hp & Hc & Ha).
    split; [apply Forall_insert; [exact Hall | repeat split; assumption] |].
    rewrite length_insert. lia.
Qed.

Lemma run_triples (ops : list SceneLights.op) :
  forall ls0 ls, SceneLights.run ops ls0 = Some ls -> Forall Light.triples ls0 ->
  Forall Light.triples ls
  /\ length ls = (length ls0 + length (List.filter SceneLights.is_add ops))%nat.
Proof.
  unfold SceneLights.run.
  induction ops as [| o ops IH]; intros ls0 ls Hrun Hall.
  - injection Hrun as <-. split; [exact Hall | cbn; lia].
  - cbn [fold_left mbind option_bind] in Hrun.
    destruct (SceneLights.step ls0 o) as [ls1 |] eqn:Hstep.
    + destruct (step_triples ls0 ls1 o Hstep Hall) as [Hall1 Hlen1].
      destruct (IH ls1 ls Hrun Hall1) as [Hall' Hlen'].
      split; [exact Hall' |]. rewrite Hlen', Hlen1. cbn [List.filter].
      destruct (SceneLights.is_add o); cbn [length]; lia.
    + rewrite run_None in Hrun. discriminate Hrun.
Qed.

(** X28. The lights of the scene always serialise to nine numbers each.
    Starting from the empty scene, after any sequence of [addLight] with a
    colour of three components, [setColor] with three components,
    [setPosition], [setAttenuation] and visibility switches that does not
    call a method on a missing light, every light carries three triples,
    there are as many lights as [addLight] calls, and the array built for
    the shader has 3 + 9 numbers per visible light. *)
Theorem scene_lights_stay_triples (ops : list SceneLights.op) (ls : list Light.t)
  (a : Attributes.t) :
  SceneLights.run ops [] = Some ls ->
  Forall Light.triples ls
  /\ length ls = length (List.filter SceneLights.is_add ops)
  /\ length (lightArr a ls) = (3 + 9 * length (visible_lights ls))%nat
  /\ (length (visible_lights ls) <= length (List.filter SceneLights.is_add ops))%nat.
Proof.
  intros Hrun.
  destruct (run_triples ops [] ls Hrun (List.Forall_nil _)) as [Hall Hlen].
  split; [exact Hall |]. split; [exact Hlen |].
  split; [apply lightArr_length, Hall |].
  cbn [length Nat.add] in Hlen. rewrite <- Hlen. unfold visible_lights.
  apply List.filter_length_le.
Qed.

End SceneChanges.

(** ** From [loadOBJ] to a mesh *)

Section MeshFromOBJ.

Import OBJ.

Lemma loadOBJ_lengths {num : Type} `{JSNumber num} (OBJString : string) :
  well_formed OBJString = true ->
  exists r : @result num,
    loadOBJ OBJString = Some r
    /\ length (position r) = (9 * count r)%nat
    /\ length (normal r) = (9 * count r)%nat
    /\ length (uv r) = (6 * count r)%nat
    /\ length (tangent r) = (9 * count r)%nat
    /\ count r = length (List.filter is_face_line (split_on "010" OBJString)).
Proof.
  intros Hwf. unfold well_formed in Hwf.
  set (p := parse OBJString) in *.
  apply andb_true_iff in Hwf as [Hwf Hfaces].
  apply andb_true_iff in Hwf as [Hwf Hn].
  apply andb_true_iff in Hwf as [Hv Hu].
  pose proof (forallb_lengths 3 _ Hv) as Hv'.
  pose proof (forallb_lengths 2 _ Hu) as Hu'.
  pose proof (forallb_lengths 3 _ Hn) as Hn'.
  rewrite forallb_forall in Hfaces.
  destruct (Forall_exists_Forall2
              (fun face k => retrieve p face = Some k /\ shaped k) (faces p))
    as [ks Hks].
  { intros face Hin. apply retrieve_well_formed; auto. }
  assert (Hret : Forall2 (fun face k => retrieve p face = Some k) (faces p) ks).
  { eapply Forall2_impl; [exact Hks |]. intros face k [Hk _]. exact Hk. }
  assert (Hshaped : Forall shaped ks).
  { eapply Forall2_Forall_right; [exact Hks |]. intros face k [_ Hk]. exact Hk. }
  assert (Hpos : Forall (fun k => length (face_positions k) = 9%nat) ks).
  { eapply Forall_impl; [exact Hshaped |]. intros k Hk. apply (shaped_lengths k Hk). }
  assert (Huv : Forall (fun k => length (face_uvs k) = 6%nat) ks).
  { eapply Forall_impl; [exact Hshaped |]. intros k Hk. apply (shaped_lengths k Hk). }
  assert (Hnor : Forall (fun k => length (face_normals k) = 9%nat) ks).
  { eapply Forall_impl; [exact Hshaped |]. intros k Hk. apply (shaped_lengths k Hk). }
  assert (Htan : Forall (fun k => length (face_tangents k) = 9%nat) ks).
  { apply Forall_forall. intros k _. apply face_tangents_length. }
  destruct (parse_lines_faces (split_on "010" OBJString) start) as [Hcount Hlen].
  fold (parse OBJString) in Hcount, Hlen. fold p in Hcount, Hlen. simpl in Hcount, Hlen.
  assert (Hks_len : length ks = polyCount p).
  { rewrite <- (Forall2_length _ _ _ Hret). congruence. }
  exists (Result (flat_map face_positions ks) (flat_map face_normals ks)
                 (flat_map face_uvs ks) (flat_map face_tangents ks) (polyCount p)).
  split.
  { unfold loadOBJ. fold p. rewrite (build_value p (faces p) ks _ Hret). reflexivity. }
  cbn [position normal uv tangent count]. rewrite <- Hks_len.
  split; [apply flat_map_length_chunks, Hpos |].
  split; [apply flat_map_length_chunks, Hnor |].
  split; [apply flat_map_length_chunks, Huv |].
  split; [apply flat_map_length_chunks, Htan |].
  rewrite Hks_len. exact Hcount.
Qed.

Local Open Scope Q_scope.

(** X29. A mesh built from [loadOBJ] draws every face. For a well-formed
    triangulated file, [loadOBJ] returns, and the mesh [main.js] builds from
    the four arrays (items of 3, 3, 2 and 3 numbers) has in each of its four
    buffers exactly three items per face line, which is the count its
    [draw] passes to [drawArrays]. *)
Theorem obj_mesh_draws_every_face (OBJString : string) (b1 b2 b3 b4 : nat) :
  @well_formed _ finite OBJString = true ->
  exists (r : @result (option Q)) (n : Q),
    @loadOBJ _ finite OBJString = Some r
    /\ Mesh.draw (OBJMesh.of_result b1 b2 b3 b4 r) = Some (GL.drawArrays_TRIANGLES n)
    /\ n == inject_Z (Z.of_nat (3 * count r))
    /\ forall role, In role ["position"; "normal"; "uv"; "tangent"]%string ->
         exists buff, Dict.get role (Mesh.buffers (OBJMesh.of_result b1 b2 b3 b4 r))
                      = Some buff
                      /\ Mesh.numItems buff == inject_Z (Z.of_nat (3 * count r)).
Proof.
  intros Hwf.
  destruct (@loadOBJ_lengths _ finite OBJString Hwf)
    as (r & Hr & Hp & Hn & Hu & Ht & _).
  assert (Hthird : forall k : nat,
             inject_Z (Z.of_nat (9 * k)) / 3 == inject_Z (Z.of_nat (3 * k))).
  { intros k. replace (Z.of_nat (9 * k)) with (3 * Z.of_nat (3 * k))%Z by lia.
    rewrite inject_Z_mult. field. }
  assert (Hhalf : forall k : nat,
             inject_Z (Z.of_nat (6 * k)) / 2 == inject_Z (Z.of_nat (3 * k))).
  { intros k. replace (Z.of_nat (6 * k)) with (2 * Z.of_nat (3 * k))%Z by lia.
    rewrite inject_Z_mult. field. }
  exists r, (inject_Z (Z.of_nat (length (OBJMesh.floats (position r)))) / 3).
  split; [exact Hr |].
  split; [reflexivity |].
  unfold OBJMesh.floats. rewrite length_map, Hp.
  split; [apply Hthird |].
  intros role Hrole.
  destruct Hrole as [<- | [<- | [<- | [<- | []]]]]; eexists; (split; [reflexivity |]);
    cbn [Mesh.numItems]; unfold OBJMesh.floats; rewrite length_map.
  - rewrite Hp. apply Hthird.
  - rewrite Hn. apply Hthird.
  - rewrite Hu. apply Hhalf.
  - rewrite Ht. apply Hthird.
Qed.

End MeshFromOBJ.

(** ** Instances of the properties above *)

Section Instances.

Local Open Scope Q_scope.

Lemma loadOBJ_interleaving_witness :
  @OBJ.loadOBJ _ OBJ.finite
    (String.concat OBJ.newline
       ["f 1/1/1 2/2/1 3/3/1"; "vn 0 0 1"; "v 0 0 0"; "vt 0 0"; "o square"; "v 1 0 0";
        "vt 1 0"; "v 1 1 0"; "  f 1/1/1 3/3/1 4/4/1  "; "vt 1 1"; "v 0 1 0"; "vt 0 2"]%string)
  = @OBJ.loadOBJ _ OBJ.finite OBJ.square.
Proof.
  apply (@loadOBJ_interleaving _ OBJ.finite).
  intros k Hk. destruct k; [contradiction | vm_compute; reflexivity ..].
Defined.

Lemma tangent_follows_u_witness :
  exists t0 t1 t2 : Q,
    @OBJ.tangent_of _ OBJ.finite
      [Some (0 + (0 - 0) * 2 + (0 - 0) * 0); Some (0 + (0 - 0) * 0 + (0 - 0) * 3);
       Some (0 + (0 - 0) * 0 + (0 - 0) * 0)]
      [Some (0 + (1 - 0) * 2 + (0 - 0) * 0); Some (0 + (1 - 0) * 0 + (0 - 0) * 3);
       Some (0 + (1 - 0) * 0 + (0 - 0) * 0)]
      [Some (0 + (0 - 0) * 2 + (1 - 0) * 0); Some (0 + (0 - 0) * 0 + (1 - 0) * 3);
       Some (0 + (0 - 0) * 0 + (1 - 0) * 0)]
      [Some 0; Some 0] [Some 1; Some 0] [Some 0; Some 1]
    = [Some t0; Some t1; Some t2] /\ t0 == 2 /\ t1 == 0 /\ t2 == 0.
Proof.
  apply (proj1 (tangent_follows_u 0 0 0 2 0 0 0 3 0 0 0 1 0 0 1)).
  vm_compute. discriminate.
Defined.

Lemma cube_faces_outward_witness :
  CubeGeometry.dot (CubeGeometry.vertex3 (fst (fst (fst (CubeGeometry.arrays_of 1)))) 0)
    (CubeGeometry.vertex3 (snd (fst (fst (CubeGeometry.arrays_of 1)))) 0) == 1.
Proof.
  pose proof (cube_faces_outward 1 0 0) as H.
  destruct (CubeGeometry.arrays_of 1) as [[[pos nor] tan] uv] eqn:Harr.
  destruct H as (_ & _ & _ & _ & _ & _ & _ & _ & _ & Hplane & _); [lia | lia |].
  exact Hplane.
Defined.

Lemma cube_tangent_not_along_u_witness :
  exists d0 d1 d2 : Q,
    CubeGeometry.derived_tangent 1 0 = [Some d0; Some d1; Some d2]
    /\ CubeGeometry.dot (d0, d1, d2)
         (CubeGeometry.vertex3 (snd (fst (CubeGeometry.arrays_of 1))) 0) <= 0.
Proof.
  pose proof (cube_tangent_not_along_u 1 0) as H.
  destruct (CubeGeometry.arrays_of 1) as [[[pos nor] tan] uv] eqn:Harr.
  destruct H as (d0 & d1 & d2 & Hd & _ & _ & Hdot); [reflexivity | lia |].
  exists d0, d1, d2. split; [exact Hd | exact Hdot].
Defined.



Lemma scene_lights_stay_triples_witness :
  Forall Light.triples
    [Light.setPosition 0 50 100 (Light.new [255; 255; 255]);
     Light.with_visible false (Light.new [255; 0; 0])].
Proof.
  apply (scene_lights_stay_triples
           [SceneLights.AddLight 255 255 255; SceneLights.SetPosition 0 0 50 100;
            SceneLights.AddLight 255 0 0; SceneLights.SetVisible 1 false]
           _ (Renderer.attributes Demo.renderer)).
  reflexivity.
Defined.

Lemma obj_mesh_draws_every_face_witness :
  exists (r : @OBJ.result (option Q)) (n : Q),
    @OBJ.loadOBJ _ OBJ.finite OBJ.square = Some r
    /\ Mesh.draw (OBJMesh.of_result 8 9 10 11 r) = Some (GL.drawArrays_TRIANGLES n)
    /\ n == inject_Z (Z.of_nat (3 * OBJ.count r)).
Proof.
  destruct (obj_mesh_draws_every_face OBJ.square 8 9 10 11) as (r & n & Hr & Hd & Hn & _).
  - vm_compute. reflexivity.
  - exists r, n. repeat split; assumption.
Defined.

End Instances.
